(** * DigitTree: a digit trie of used identifiers and its availability enumerator

    Shallow embedding of [digittree/__init__.py].

    Modelling conventions.
    - A Python [str] is a [string]: a sequence of Unicode code points.
      [int(c)] accepts the decimal digits of every script, not only
      ['0'..'9']; see [int_of_char].
    - A Python [int] is a [Z].  [covers] may also hold the float that
      [10 ** e] produces for a negative [e]; see [number].
    - The [childs] dict is an association list in insertion order: the
      order is observable through [sorted], which is stable.
    - Methods that mutate [self] return the new state of the node next to
      the exception raised, if any; the state returned with an exception
      is the partially updated object the caller is left with.
    - A generator is the list of values it yields, next to the exception
      that ends it, if any. *)

From Stdlib Require Import ZArith NArith List Bool Lia Permutation Sorted.
From Stdlib.Strings Require Import Byte.
Import ListNotations.

Set Implicit Arguments.

(** ** Strings *)

(** A character is a Unicode code point. *)
Definition char : Set := N.

Inductive string : Set :=
| EmptyString
| String (c : char) (r : string).

Declare Scope str_scope.
Delimit Scope str_scope with str.
Bind Scope str_scope with string.

(** String literals denote their ASCII characters. *)
Fixpoint string_of_bytes (l : list Byte.byte) : option string :=
  match l with
  | [] => Some EmptyString
  | b :: r =>
      if (Byte.to_N b <? 128)%N
      then option_map (String (Byte.to_N b)) (string_of_bytes r)
      else None
  end.

Fixpoint bytes_of_string (s : string) : option (list Byte.byte) :=
  match s with
  | EmptyString => Some []
  | String c r =>
      if (c <? 128)%N then
        match Byte.of_N c, bytes_of_string r with
        | Some b, Some l => Some (b :: l)
        | _, _ => None
        end
      else None
  end.

String Notation string string_of_bytes bytes_of_string : str_scope.

(** [s1 + s2] *)
Fixpoint sappend (s1 s2 : string) : string :=
  match s1 with
  | EmptyString => s2
  | String c r => String c (sappend r s2)
  end.

(** [len(s)] as a [nat] *)
Fixpoint slength (s : string) : nat :=
  match s with
  | EmptyString => O
  | String _ r => S (slength r)
  end.

(** [s[n]]; [None] stands for the [IndexError] of an index past the end. *)
Fixpoint sget (n : nat) (s : string) {struct s} : option char :=
  match s with
  | EmptyString => None
  | String c r =>
      match n with
      | O => Some c
      | S n' => sget n' r
      end
  end.

(** [s1 == s2] *)
Fixpoint seqb (s1 s2 : string) : bool :=
  match s1, s2 with
  | EmptyString, EmptyString => true
  | String c1 r1, String c2 r2 => (c1 =? c2)%N && seqb r1 r2
  | _, _ => false
  end.

(** The order of [str]: lexicographic on code points. *)
Fixpoint scompare (s1 s2 : string) : comparison :=
  match s1, s2 with
  | EmptyString, EmptyString => Eq
  | EmptyString, String _ _ => Lt
  | String _ _, EmptyString => Gt
  | String c1 r1, String c2 r2 =>
      match (c1 ?= c2)%N with
      | Eq => scompare r1 r2
      | o => o
      end
  end.

(** [s1 < s2] *)
Definition sltb (s1 s2 : string) : bool :=
  match scompare s1 s2 with
  | Lt => true
  | _ => false
  end.

Infix "++" := sappend (right associativity, at level 60) : str_scope.
Infix "=?" := seqb (at level 70) : str_scope.

Local Open Scope list_scope.
Local Open Scope str_scope.
Local Open Scope Z_scope.

(** ** Values *)

Inductive exn : Type :=
| AssertionError
| ValueError
| IndexError
| TypeError
| KeyError
| OutOfFuel.

(** What a method call leaves behind: nothing, or a raised exception. *)
Definition outcome := option exn.

Inductive result (A : Type) : Type :=
| Ok (a : A)
| Raise (e : exn).
Arguments Raise {A} e.

(** [10 ** e] is an [int] when [0 <= e] and the float [10.0 ** e]
    otherwise. *)
Inductive number : Type :=
| Int (z : Z)
| Float10 (e : Z).

Definition pow10 (e : Z) : number :=
  if 0 <=? e then Int (10 ^ e) else Float10 e.

(** [used <= covers] for an integer [u] and a [number]: a float
    [10 ** e] with [e < 0] is at least 0 and less than 1. *)
Definition le_number (u : Z) (c : number) : Prop :=
  match c with
  | Int z => u <= z
  | Float10 _ => u <= 0
  end.

Definition len (s : string) : Z := Z.of_nat (slength s).

(** ** Conversions between characters, digits and integers *)

(** The characters with decimal digit value 0 in the Unicode character
    database (version 14.0, the one of Python 3.11): the digit zero of
    every script.  The nine code points after each of them are the digits
    1 to 9 of the same script.  Later versions of the database add
    scripts; the general results below use of this table only that the
    values lie in 0..9 and that ['0'..'9'] have the values 0 to 9. *)
Definition decimal_zeros : list char :=
  [48; 1632; 1776; 1984; 2406; 2534; 2662; 2790;
   2918; 3046; 3174; 3302; 3430; 3558; 3664; 3792;
   3872; 4160; 4240; 6112; 6160; 6470; 6608; 6784;
   6800; 6992; 7088; 7232; 7248; 42528; 43216; 43264;
   43472; 43504; 43600; 44016; 65296; 66720; 68912; 69734;
   69872; 69942; 70096; 70384; 70736; 70864; 71248; 71360;
   71472; 71904; 72016; 72784; 73040; 73120; 92768; 92864;
   93008; 120782; 120792; 120802; 120812; 120822; 123200; 123632;
   125264; 130032]%N.

(** [int(c)] on a one-character string: the value of a decimal digit of
    any script, and [None] for the [ValueError] raised on every other
    character. *)
Definition int_of_char (c : char) : option Z :=
  match find (fun z => (z <=? c)%N && (c <=? z + 9)%N) decimal_zeros with
  | Some z => Some (Z.of_N (c - z))
  | None => None
  end.

(** The value of one of the characters ['0'..'9']. *)
Definition ascii_digit (c : char) : option Z :=
  if ((48 <=? c) && (c <=? 57))%N then Some (Z.of_N c - 48) else None.

Definition digit_char (d : Z) : char := Z.to_N (48 + d).

(** Decimal digits of a non-negative integer, most significant first.
    The fuel bounds the number of digits. *)
Fixpoint str_digits (fuel : nat) (n : Z) : string :=
  match fuel with
  | O => ""
  | S fuel' =>
      if n <? 10 then String (digit_char n) ""
      else str_digits fuel' (n / 10) ++ String (digit_char (n mod 10)) ""
  end.

(** [str(n)] for an [int]. *)
Definition str (n : Z) : string :=
  if n <? 0 then "-" ++ str_digits (S (Z.to_nat (Z.log2 (- n)))) (- n)
  else str_digits (S (Z.to_nat (Z.log2 n))) n.

Fixpoint zeros (k : nat) : string :=
  match k with
  | O => ""
  | S k' => String 48%N (zeros k')
  end.

(** [f'{i:0{width}}'] for a non-negative [i]. *)
Definition format_zero (width : Z) (i : Z) : string :=
  let s := str i in
  zeros (Z.to_nat (width - len s)) ++ s.

(** [range(n)] *)
Definition range (n : Z) : list Z := map Z.of_nat (seq 0 (Z.to_nat n)).

Definition Zsum (l : list Z) : Z := fold_right Z.add 0 l.

(** ** The node type *)

Local Unset Elimination Schemes.

Inductive DigitTree : Type :=
  mkDigitTree {
      childs : list (Z * DigitTree);
      prefix : string;
      terminal : bool;
      used : Z;
      covers : number
    }.

Local Set Elimination Schemes.

(** [DigitTree()] and [DigitTree(prefix=p)] *)
Definition new_tree (p : string) : DigitTree := mkDigitTree [] p false 0 (Int 0).

Definition keys (cs : list (Z * DigitTree)) : list Z := map fst cs.

(** [childs.get(d)] *)
Fixpoint get_child (d : Z) (cs : list (Z * DigitTree)) : option DigitTree :=
  match cs with
  | [] => None
  | (k, c) :: rest => if k =? d then Some c else get_child d rest
  end.

(** [d in childs] *)
Definition has_child (d : Z) (cs : list (Z * DigitTree)) : bool :=
  existsb (Z.eqb d) (keys cs).

(** [empty] *)
Definition empty (t : DigitTree) : bool :=
  match childs t with
  | [] => (prefix t =? "")%str
  | _ => false
  end.

(** ** common_prefix *)

Fixpoint common_prefix (s1 s2 : string) : string :=
  match s1, s2 with
  | String a r1, String b r2 =>
      if N.eqb a b then String a (common_prefix r1 r2) else ""
  | _, _ => ""
  end.

(** ** add_node *)

(** [add_node] on a node that was just created with prefix [p]: the chain
    of new nodes below it.  Every step makes the prefix one character longer
    and the assertion stops it at the length of [node]; the fuel counts
    these steps. *)
Fixpoint add_fresh (fuel : nat) (p node : string) : DigitTree * outcome :=
  let common := common_prefix p node in
  if (common =? node)%str then (mkDigitTree [] p true 0 (Int 0), None)
  else if negb (len p <? len node) then (new_tree p, Some AssertionError)
  else
    match sget (slength common) node with
    | None => (new_tree p, Some IndexError)
    | Some ch =>
        match int_of_char ch with
        | None => (new_tree p, Some ValueError)
        | Some next_digit =>
            match fuel with
            | O => (new_tree p, Some OutOfFuel)
            | S fuel' =>
                let (sub_tree, o) := add_fresh fuel' (p ++ str next_digit) node in
                (mkDigitTree [(next_digit, sub_tree)] p false 0 (Int 0), o)
            end
        end
    end.

Section OnChild.
Variable A : Type.
Variable f : DigitTree -> A.

(** Run [f] on the child stored under [d], if there is one. *)
Fixpoint on_child (d : Z) (cs : list (Z * DigitTree)) : option A :=
  match cs with
  | [] => None
  | (k, c) :: rest => if k =? d then Some (f c) else on_child d rest
  end.
End OnChild.

Section UpdateChild.
Variable f : DigitTree -> DigitTree * outcome.

(** Run the mutating method [f] on the child stored under [d], in place. *)
Fixpoint update_child (d : Z) (cs : list (Z * DigitTree))
  : option (list (Z * DigitTree) * outcome) :=
  match cs with
  | [] => None
  | (k, c) :: rest =>
      if k =? d then
        let (c', o) := f c in Some ((k, c') :: rest, o)
      else
        match update_child d rest with
        | None => None
        | Some (rest', o) => Some ((k, c) :: rest', o)
        end
  end.

(** Run the mutating method [f] on every child in dict order, stopping
    at the first exception. *)
Fixpoint update_childs (cs : list (Z * DigitTree))
  : list (Z * DigitTree) * outcome :=
  match cs with
  | [] => ([], None)
  | (k, c) :: rest =>
      let (c', o) := f c in
      match o with
      | Some e => ((k, c') :: rest, Some e)
      | None =>
          let (rest', o') := update_childs rest in
          ((k, c') :: rest', o')
      end
  end.
End UpdateChild.

Fixpoint add_node (t : DigitTree) (node : string) {struct t} : DigitTree * outcome :=
  match t with
  | mkDigitTree cs p tm u cv =>
      let common := common_prefix p node in
      if (common =? node)%str then (mkDigitTree cs p true u cv, None)
      else if negb (len p <? len node) then (t, Some AssertionError)
      else
        match sget (slength common) node with
        | None => (t, Some IndexError)
        | Some ch =>
            match int_of_char ch with
            | None => (t, Some ValueError)
            | Some next_digit =>
                match update_child (fun sub_tree => add_node sub_tree node) next_digit cs with
                | Some (cs', o) => (mkDigitTree cs' p tm u cv, o)
                | None =>
                    let (sub_tree, o) :=
                      add_fresh (slength node) (p ++ str next_digit) node in
                    (mkDigitTree (cs ++ [(next_digit, sub_tree)])%list p tm u cv, o)
                end
            end
        end
  end.

(** ** from_list *)

Fixpoint add_nodes (t : DigitTree) (nodes : list string) : DigitTree * outcome :=
  match nodes with
  | [] => (t, None)
  | node :: rest =>
      let (t', o) := add_node t node in
      match o with
      | Some e => (t', Some e)
      | None => add_nodes t' rest
      end
  end.

Definition from_list (nodes : list string) : DigitTree * outcome :=
  add_nodes (new_tree "") nodes.

(** ** find_node *)

Fixpoint find_node (t : DigitTree) (node : string) {struct t} : result (option DigitTree) :=
  match t with
  | mkDigitTree cs p tm u cv =>
      if (p =? node)%str then Ok (if tm then Some t else None)
      else
        match cs with
        | [] => Ok None
        | _ =>
            match sget (slength p) node with
            | None => Raise IndexError
            | Some ch =>
                match int_of_char ch with
                | None => Raise ValueError
                | Some next_digit =>
                    match on_child (fun child => find_node child node) next_digit cs with
                    | None => Ok None
                    | Some r => r
                    end
                end
            end
        end
  end.

(** ** populate_used *)

Definition child_used (cs : list (Z * DigitTree)) : list Z :=
  map (fun kc => used (snd kc)) cs.

Fixpoint populate_used (node_len : Z) (t : DigitTree) {struct t} : DigitTree * outcome :=
  match t with
  | mkDigitTree cs p tm u cv =>
      if tm && negb (len p =? node_len) then (t, Some AssertionError)
      else
        let (cs', o) := update_childs (populate_used node_len) cs in
        match o with
        | Some e => (mkDigitTree cs' p tm u cv, Some e)
        | None =>
            let covers' := pow10 (node_len - len p) in
            let used' := Zsum (child_used cs') in
            (mkDigitTree cs' p tm (if tm then used' + 1 else used') covers', None)
        end
  end.

(** ** _rec_availabe *)

(** The values a generator yields, and the exception that ends it. *)
Definition gen := (list string * outcome)%type.

Definition gen_nil : gen := ([], None).

(** Run one generator after the other. *)
Definition gen_app (g1 g2 : gen) : gen :=
  match snd g1 with
  | Some e => g1
  | None => ((fst g1 ++ fst g2)%list, snd g2)
  end.

Definition gen_concat (gs : list gen) : gen := fold_right gen_app gen_nil gs.

Section SortedDesc.
Variable key : Z -> Z.

(** [sorted(l, key=key, reverse=True)]: descending and stable, elements
    with equal keys keep the order they have in [l]. *)
Fixpoint insert_desc (x : Z) (l : list Z) : list Z :=
  match l with
  | [] => [x]
  | y :: r => if key x <? key y then y :: insert_desc x r else x :: l
  end.

Fixpoint sorted_desc (l : list Z) : list Z :=
  match l with
  | [] => []
  | x :: r => insert_desc x (sorted_desc r)
  end.
End SortedDesc.

(** [self.childs[k].used]; the keys it is applied to are keys of [cs]. *)
Definition used_of (cs : list (Z * DigitTree)) (k : Z) : Z :=
  match get_child k cs with
  | Some c => used c
  | None => 0
  end.

(** The local [childs] of [_rec_availabe]: the keys in visiting order. *)
Definition visit_order (cs : list (Z * DigitTree)) : list Z :=
  sorted_desc (used_of cs) (keys cs).

(** The values yielded for a digit without child tree. *)
Definition block (p : string) (cv : number) (digit : Z) : gen :=
  match cv with
  | Int c =>
      if c =? 1 then ([p ++ str digit], None)
      else
        let length := len (str c) - 1 in
        (map (fun i => p ++ str digit ++ format_zero length i) (range c), None)
  | Float10 _ => ([], Some TypeError)
  end.

(** The second loop of [_rec_availabe], over [range(10)]; [first] is
    [self.childs[childs[0]]]. *)
Definition missing_digits (cs : list (Z * DigitTree)) (p : string) (first : option DigitTree) : gen :=
  gen_concat
    (map (fun digit =>
            if has_child digit cs then gen_nil
            else if (p =? "")%str && (digit =? 0) then gen_nil
            else
              match first with
              | Some c => block p (covers c) digit
              | None => ([], Some KeyError)
              end)
         (range 10)).

(** What [self.childs[child]._rec_availabe()] yields is computed for every
    child first ([sub]), and looked up in visiting order. *)
Fixpoint _rec_availabe (t : DigitTree) : gen :=
  match t with
  | mkDigitTree cs p tm u cv =>
      match cs with
      | [] => gen_nil
      | _ =>
          let sub := map (fun kc => (fst kc, _rec_availabe (snd kc))) cs in
          let order := visit_order cs in
          let from_child child :=
            match find (fun kg => fst kg =? child) sub with
            | Some kg => snd kg
            | None => ([], Some KeyError)
            end in
          gen_app (gen_concat (map from_child order))
                  (missing_digits cs p
                     (match order with
                      | [] => None
                      | k :: _ => get_child k cs
                      end))
      end
  end.

(** ** available *)

(** [seed or '1000'] *)
Definition seed_or_default (seed : option string) : string :=
  match seed with
  | Some s => if (s =? "")%str then "1000" else s
  | None => "1000"
  end.

Definition available (seed : option string) (t : DigitTree) : DigitTree * gen :=
  let seed := seed_or_default seed in
  let (t1, o1) :=
    match childs t with
    | [] => if negb (seed =? "")%str then add_node t seed else (t, None)
    | _ => (t, None)
    end in
  match o1 with
  | Some e => (t1, ([], Some e))
  | None =>
      let (t2, o2) := populate_used (len seed) t1 in
      match o2 with
      | Some e => (t2, ([], Some e))
      | None => (t2, _rec_availabe t2)
      end
  end.


(** All nodes of a tree, the tree itself first: what [traverse()] yields,
    here in dict order. *)
Fixpoint nodes (t : DigitTree) : list DigitTree :=
  t :: flat_map (fun kc => nodes (snd kc)) (childs t).

(** [find_node] as a truth value, the way the callers use it. *)
Definition found (t : DigitTree) (node : string) : bool :=
  match find_node t node with
  | Ok (Some _) => true
  | _ => false
  end.

(** [bool(t.childs)]: the node has children. *)
Definition has_childs (t : DigitTree) : bool :=
  match childs t with
  | [] => false
  | _ => true
  end.

(** The trie has a node with prefix [p] that has children. *)
Definition inner_node (t : DigitTree) (p : string) : bool :=
  existsb (fun n => (prefix n =? p)%str && has_childs n) (nodes t).

(** ** Identifiers *)

(** One of the characters ['0'..'9']. *)
Definition is_digit (c : char) : bool :=
  match ascii_digit c with
  | Some _ => true
  | None => false
  end.

Fixpoint all_digits (s : string) : bool :=
  match s with
  | EmptyString => true
  | String c r => is_digit c && all_digits r
  end.

(** The exception that goes with a character [c] other than ['0'..'9']:
    the [ValueError] of [int] when [int(c)] raises, and the
    [AssertionError] of [add_node] when [c] is a decimal digit of another
    script. *)
Definition first_other_outcome (c : char) : outcome :=
  match int_of_char c with
  | None => Some ValueError
  | Some _ => Some AssertionError
  end.

(** The first character of [s] that is not one of ['0'..'9']. *)
Fixpoint first_other (s : string) : option char :=
  match s with
  | EmptyString => None
  | String c r => if is_digit c then first_other r else Some c
  end.

(** What an insertion at the root comes to, read off the identifier:
    nothing is raised when all characters are ['0'..'9']; otherwise the
    first other character decides, see [first_other_outcome]. *)
Definition insertion_outcome (node : string) : outcome :=
  match first_other node with
  | None => None
  | Some c => first_other_outcome c
  end.

(** The outcome of [insertion_outcome] for the first identifier of the
    list that has a character other than ['0'..'9']. *)
Definition first_failure (ids : list string) : outcome :=
  match find (fun s => negb (all_digits s)) ids with
  | None => None
  | Some s => insertion_outcome s
  end.

(** Some character of [s] satisfies [f]. *)
Fixpoint any_char (f : char -> bool) (s : string) : bool :=
  match s with
  | EmptyString => false
  | String c r => f c || any_char f r
  end.

(** [int(c)] raises. *)
Definition rejected (c : char) : bool :=
  match int_of_char c with
  | Some _ => false
  | None => true
  end.

(** ** Well-formed tries

    What every trie built by [add_node] from [DigitTree()] satisfies: the
    keys of a node are distinct digits (it is a dict, filled with
    [int(c)] of one character), and the prefix of the child under [k] is
    the prefix of its parent followed by [k]. *)

Fixpoint distinct (l : list Z) : bool :=
  match l with
  | [] => true
  | x :: r => negb (existsb (Z.eqb x) r) && distinct r
  end.

Fixpoint wfb (t : DigitTree) : bool :=
  match t with
  | mkDigitTree cs p _ _ _ =>
      distinct (keys cs)
      && forallb (fun kc =>
                    (0 <=? fst kc) && (fst kc <=? 9)
                    && (prefix (snd kc) =? p ++ str (fst kc))%str
                    && wfb (snd kc)) cs
  end.

(** ** Induction on tries *)

Section DigitTree_induction.
Variable P : DigitTree -> Prop.
Hypothesis step : forall cs p tm u cv,
    Forall (fun kc => P (snd kc)) cs -> P (mkDigitTree cs p tm u cv).

Fixpoint DigitTree_ind (t : DigitTree) : P t :=
  match t with
  | mkDigitTree cs p tm u cv =>
      step p tm u cv
        ((fix all (l : list (Z * DigitTree)) : Forall (fun kc => P (snd kc)) l :=
            match l with
            | [] => Forall_nil _
            | kc :: r => Forall_cons kc (DigitTree_ind (snd kc)) (all r)
            end) cs)
  end.
End DigitTree_induction.

(** What [wfb] says about one entry of [childs] of a node with prefix [p]. *)
Definition child_ok (p : string) (kc : Z * DigitTree) : Prop :=
  0 <= fst kc <= 9 /\ prefix (snd kc) = p ++ str (fst kc) /\ wfb (snd kc) = true.

(** ** The accounting pass as a function

    [lengths_ok] is the condition under which no assertion of
    [populate_used] fails, and [account] the tree it then leaves. *)

Fixpoint lengths_ok (node_len : Z) (t : DigitTree) : bool :=
  match t with
  | mkDigitTree cs p tm _ _ =>
      (if tm then len p =? node_len else true)
      && forallb (fun kc => lengths_ok node_len (snd kc)) cs
  end.

Fixpoint account (node_len : Z) (t : DigitTree) : DigitTree :=
  match t with
  | mkDigitTree cs p tm _ _ =>
      let cs' := map (fun kc => (fst kc, account node_len (snd kc))) cs in
      let used' := Zsum (child_used cs') in
      mkDigitTree cs' p tm (if tm then used' + 1 else used') (pow10 (node_len - len p))
  end.

(** The invariant of a node after an accounting pass for [node_len]. *)
Definition node_inv (node_len : Z) (n : DigitTree) : Prop :=
  covers n = pow10 (node_len - len (prefix n)) /\
  used n = Zsum (child_used (childs n)) + (if terminal n then 1 else 0) /\
  le_number (used n) (covers n) /\
  (forall a b, In a (childs n) -> In b (childs n) -> covers (snd a) = covers (snd b)).

(** What [_rec_availabe] yields from the child tree under [k]. *)
Definition from_child (cs : list (Z * DigitTree)) (k : Z) : gen :=
  match get_child k cs with
  | Some c => _rec_availabe c
  | None => ([], Some KeyError)
  end.

(** [self.childs[childs[0]]] in [_rec_availabe]. *)
Definition first_child (cs : list (Z * DigitTree)) : option DigitTree :=
  match visit_order cs with
  | [] => None
  | k :: _ => get_child k cs
  end.

(** ** Shapes of tries *)

(** The chain of nodes [add_node] creates below a node with prefix [p]
    for the remaining digits [rest] of an identifier. *)
Fixpoint chain (p rest : string) : DigitTree :=
  match rest with
  | EmptyString => mkDigitTree [] p true 0 (Int 0)
  | String c r =>
      let d := match int_of_char c with Some d => d | None => 0 end in
      mkDigitTree [(d, chain (p ++ str d) r)] p false 0 (Int 0)
  end.

(** The number of terminal nodes. *)
Fixpoint nterm (t : DigitTree) : Z :=
  match t with
  | mkDigitTree cs _ tm _ _ =>
      (if tm then 1 else 0) + Zsum (map (fun kc => nterm (snd kc)) cs)
  end.

(** Every leaf is terminal and lies at depth [node_len], and no other node
    is terminal: the tries built from identifiers of one length. *)
Fixpoint full (node_len : Z) (t : DigitTree) : bool :=
  match t with
  | mkDigitTree cs p tm _ _ =>
      match cs with
      | [] => tm && (len p =? node_len)
      | _ => negb tm && (len p <? node_len)
             && forallb (fun kc => full node_len (snd kc)) cs
      end
  end.

(** An identifier that begins with the digit 0. *)
Definition leading_zero (s : string) : bool :=
  match s with
  | String c _ => (c =? 48)%N
  | EmptyString => false
  end.

(** The number of values a generator yields. *)
Definition cnt (g : gen) : Z := Z.of_nat (List.length (fst g)).

(** ** Statements about the visiting order and expected outputs *)

(** [a] may be visited before [b]: the [used] of [a] is not smaller. *)
Definition desc (key : Z -> Z) (a b : Z) : Prop := key b <= key a.

(** Children with equal [used] are visited by ascending digit. *)
Definition ties_ascending (cs : list (Z * DigitTree)) : Prop :=
  forall l1 a l2 b l3,
    visit_order cs = (l1 ++ a :: l2 ++ b :: l3)%list ->
    used_of cs a = used_of cs b -> a < b.

(** The decimal strings of [lo], [lo + 1], ..., [lo + n - 1]. *)
Definition ids_from (lo n : Z) : list string := map (fun i => str (lo + i)) (range n).

(** "171".."179", the ten-value blocks under "1d" for the digits [ds], and
    the hundred-value blocks under "2".."9". *)
Definition blocks_170 (ds : list Z) : list string :=
  (ids_from 171 9
   ++ flat_map (fun d => ids_from (100 + 10 * d) 10) ds
   ++ flat_map (fun d => ids_from (100 * d) 100) [2; 3; 4; 5; 6; 7; 8; 9])%list.

(** The tree of the tests, with six identifiers of length 4. *)
Definition example_ids : list string := ["3001"; "3002"; "4000"; "4100"; "4123"; "4124"].
Definition example_trie : DigitTree := fst (from_list example_ids).
Definition example_accounted : DigitTree := fst (populate_used 4 example_trie).

(** ** traverse *)

(** [sorted(l)] on integers: ascending and stable. *)
Fixpoint insert_asc (x : Z) (l : list Z) : list Z :=
  match l with
  | [] => [x]
  | y :: r => if y <? x then y :: insert_asc x r else x :: l
  end.

Fixpoint sorted_asc (l : list Z) : list Z :=
  match l with
  | [] => []
  | x :: r => insert_asc x (sorted_asc r)
  end.

(** [pred or always_true] *)
Definition pred_or_true (pred : option (DigitTree -> bool)) : DigitTree -> bool :=
  match pred with
  | Some f => f
  | None => fun _ => true
  end.

(** [traverse(pred=pred)].  The recursive call is [traverse()], without
    predicate, and what it yields is filtered with the predicate of the
    caller.  What the child trees yield is computed for every child first
    ([sub]) and looked up by ascending key. *)
Fixpoint traverse (pred : option (DigitTree -> bool)) (t : DigitTree) : list DigitTree :=
  match t with
  | mkDigitTree cs p tm u cv =>
      let pred' := pred_or_true pred in
      let sub := map (fun kc => (fst kc, filter pred' (traverse None (snd kc)))) cs in
      ((if pred' t then [t] else [])
       ++ List.concat
            (map (fun child_key =>
                    match find (fun kl => fst kl =? child_key) sub with
                    | Some kl => snd kl
                    | None => []
                    end)
                 (sorted_asc (keys cs))))%list
  end.

(** ** Devices for statements *)

(** A tree without its cached fields [used] and [covers]. *)
Fixpoint erase (t : DigitTree) : DigitTree :=
  match t with
  | mkDigitTree cs p tm _ _ =>
      mkDigitTree (map (fun kc => (fst kc, erase (snd kc))) cs) p tm 0 (Int 0)
  end.

(** The number a string of digits denotes. *)
Fixpoint val_acc (acc : Z) (s : string) : Z :=
  match s with
  | EmptyString => acc
  | String c r =>
      val_acc (10 * acc + match int_of_char c with Some d => d | None => 0 end) r
  end.

Definition val (s : string) : Z := val_acc 0 s.

(** The two strings differ where the shorter one ends or at the first
    character after their common start. *)
Definition diverge (r1 r2 : string) : bool :=
  match r1, r2 with
  | String c1 _, String c2 _ => negb (N.eqb c1 c2)
  | _, _ => true
  end.

(** Every terminal node has a prefix of length [node_len], over [nodes]. *)
Definition terminal_lengths (node_len : Z) (t : DigitTree) : bool :=
  forallb (fun n => implb (terminal n) (len (prefix n) =? node_len)) (nodes t).

(** What [traverse] yields from the child tree under [k], filtered. *)
Definition child_nodes (pred' : DigitTree -> bool) (cs : list (Z * DigitTree)) (k : Z)
  : list DigitTree :=
  match get_child k cs with
  | Some c => filter pred' (traverse None c)
  | None => []
  end.

(** The prefix of [a] is smaller than the prefix of [b], as strings. *)
Definition prefix_lt (a b : DigitTree) : Prop := sltb (prefix a) (prefix b) = true.

(** [[node.prefix for node in tree.traverse() if node.terminal]], as the
    tests list the identifiers of a tree. *)
Definition terminal_prefixes (t : DigitTree) : list string :=
  map prefix (filter terminal (traverse None t)).

(** * Strings and digits *)

Unset Implicit Arguments.

Lemma seqb_refl (s : string) : (s =? s)%str = true.
Proof. induction s as [|c s IH]; simpl; [|rewrite N.eqb_refl, IH]; reflexivity. Qed.

Lemma seqb_eq (s1 s2 : string) : (s1 =? s2)%str = true <-> s1 = s2.
Proof.
  split; [|intros ->; apply seqb_refl].
  revert s2. induction s1 as [|c1 s1 IH]; intros [|c2 s2]; simpl; try discriminate;
    [reflexivity|].
  intros H. apply andb_true_iff in H. destruct H as [Hc Hs].
  apply N.eqb_eq in Hc. rewrite Hc, (IH s2 Hs). reflexivity.
Qed.

Lemma seqb_neq (s1 s2 : string) : (s1 =? s2)%str = false <-> s1 <> s2.
Proof.
  rewrite <- seqb_eq. destruct (s1 =? s2)%str; split; congruence.
Qed.

Lemma seqb_sym (s1 s2 : string) : (s1 =? s2)%str = (s2 =? s1)%str.
Proof.
  destruct (s2 =? s1)%str eqn:E.
  - apply seqb_eq in E. subst. apply seqb_refl.
  - apply seqb_neq. apply seqb_neq in E. congruence.
Qed.

Lemma seqb_spec (s1 s2 : string) : reflect (s1 = s2) (s1 =? s2)%str.
Proof.
  destruct (s1 =? s2)%str eqn:E; constructor.
  - apply seqb_eq. assumption.
  - apply seqb_neq. assumption.
Qed.

Lemma length_app (s1 s2 : string) :
  slength (s1 ++ s2) = (slength s1 + slength s2)%nat.
Proof. induction s1; simpl; congruence. Qed.

Lemma len_app (s1 s2 : string) : len (s1 ++ s2) = len s1 + len s2.
Proof. unfold len. rewrite length_app. lia. Qed.

Lemma len_nonneg (s : string) : 0 <= len s.
Proof. unfold len. lia. Qed.

Lemma len_String (c : char) (s : string) : len (String c s) = 1 + len s.
Proof. unfold len. simpl slength. lia. Qed.

Lemma sapp_assoc (s1 s2 s3 : string) : (s1 ++ s2) ++ s3 = s1 ++ (s2 ++ s3).
Proof. induction s1; simpl; congruence. Qed.

Lemma sapp_nil_r (s : string) : s ++ "" = s.
Proof. induction s; simpl; congruence. Qed.

Lemma sapp_inv_head (p a b : string) : p ++ a = p ++ b -> a = b.
Proof. induction p; simpl; intros H; [assumption | injection H; auto]. Qed.

Lemma common_prefix_app (p r : string) : common_prefix p (p ++ r) = p.
Proof.
  induction p as [|c p IH]; simpl.
  - destruct r; reflexivity.
  - rewrite N.eqb_refl, IH. reflexivity.
Qed.

Lemma get_app (p : string) (c : char) (r : string) :
  sget (slength p) (p ++ String c r) = Some c.
Proof. induction p; simpl; auto. Qed.

Lemma eqb_app_String (p : string) (c : char) (r : string) :
  (p =? p ++ String c r)%str = false.
Proof.
  apply seqb_neq. intros H.
  assert (E : len p = len (p ++ String c r)) by congruence.
  rewrite len_app, len_String in E. pose proof (len_nonneg r). lia.
Qed.

Lemma int_of_char_spec (c : char) (d : Z) : int_of_char c = Some d -> 0 <= d <= 9.
Proof.
  unfold int_of_char.
  destruct (find (fun z => (z <=? c)%N && (c <=? z + 9)%N) decimal_zeros) as [z|] eqn:E;
    [|discriminate].
  intros H. injection H as <-. apply find_some in E. destruct E as [_ E].
  apply andb_true_iff in E. destruct E as [E1 E2]. apply N.leb_le in E1, E2. lia.
Qed.

Lemma digit_cases (d : Z) :
  0 <= d <= 9 ->
  d = 0 \/ d = 1 \/ d = 2 \/ d = 3 \/ d = 4 \/ d = 5 \/ d = 6 \/ d = 7 \/ d = 8 \/ d = 9.
Proof. lia. Qed.

Lemma str_digit (d : Z) :
  0 <= d <= 9 -> str d = String (digit_char d) "" /\ int_of_char (digit_char d) = Some d.
Proof.
  intros H. apply digit_cases in H.
  repeat (destruct H as [-> | H]; [split; reflexivity |]).
  subst. split; reflexivity.
Qed.

Lemma ascii_digit_char (c : char) (d : Z) :
  ascii_digit c = Some d -> 0 <= d <= 9 /\ c = digit_char d.
Proof.
  unfold ascii_digit, digit_char.
  destruct ((48 <=? c) && (c <=? 57))%N eqn:E; [|discriminate].
  intros H. injection H as <-. apply andb_true_iff in E. destruct E as [E1 E2].
  apply N.leb_le in E1, E2. split; lia.
Qed.

Lemma ascii_digit_spec (c : char) (d : Z) :
  ascii_digit c = Some d -> int_of_char c = Some d /\ str d = String c "".
Proof.
  intros H. apply ascii_digit_char in H. destruct H as [Hd ->].
  destruct (str_digit d Hd) as [-> ->]. auto.
Qed.

Lemma is_digit_true (c : char) :
  is_digit c = true -> exists d, int_of_char c = Some d /\ str d = String c "".
Proof.
  unfold is_digit. destruct (ascii_digit c) as [d|] eqn:E; [|discriminate].
  intros _. exists d. apply ascii_digit_spec. assumption.
Qed.

Lemma is_digit_digit_char (d : Z) : 0 <= d <= 9 -> is_digit (digit_char d) = true.
Proof.
  intros H. apply digit_cases in H.
  repeat (destruct H as [-> | H]; [reflexivity |]). subst. reflexivity.
Qed.

Lemma is_digit_false (c : char) (d : Z) :
  is_digit c = false -> 0 <= d <= 9 -> digit_char d <> c.
Proof. intros H Hd E. subst c. rewrite is_digit_digit_char in H by assumption. discriminate. Qed.

Lemma all_digits_app (s1 s2 : string) :
  all_digits (s1 ++ s2) = all_digits s1 && all_digits s2.
Proof. induction s1; simpl; [reflexivity | rewrite IHs1; apply andb_assoc]. Qed.

(** * Children *)

Lemma has_child_get (d : Z) (cs : list (Z * DigitTree)) :
  has_child d cs = match get_child d cs with Some _ => true | None => false end.
Proof.
  unfold has_child. induction cs as [|[k c] cs IH]; simpl; [reflexivity|].
  rewrite (Z.eqb_sym d k). destruct (k =? d); simpl; auto.
Qed.

Lemma on_child_get (A : Type) (f : DigitTree -> A) (d : Z) (cs : list (Z * DigitTree)) :
  on_child f d cs = option_map f (get_child d cs).
Proof.
  induction cs as [|[k c] cs IH]; simpl; [reflexivity|].
  destruct (k =? d); simpl; auto.
Qed.

Lemma get_child_In (d : Z) (cs : list (Z * DigitTree)) (c : DigitTree) :
  get_child d cs = Some c -> In (d, c) cs.
Proof.
  induction cs as [|[k c'] cs IH]; simpl; [discriminate|].
  destruct (k =? d) eqn:E.
  - intros H. injection H as <-. apply Z.eqb_eq in E. subst. auto.
  - auto.
Qed.

Lemma get_child_None (d : Z) (cs : list (Z * DigitTree)) :
  get_child d cs = None <-> ~ In d (keys cs).
Proof.
  induction cs as [|[k c'] cs IH]; simpl; [tauto|].
  destruct (k =? d) eqn:E.
  - apply Z.eqb_eq in E. split; [discriminate | intros H; exfalso; auto].
  - apply Z.eqb_neq in E. rewrite IH. tauto.
Qed.

Lemma distinct_NoDup (l : list Z) : distinct l = true <-> NoDup l.
Proof.
  induction l as [|x l IH]; simpl.
  - split; [constructor | reflexivity].
  - rewrite andb_true_iff, negb_true_iff, IH. split.
    + intros [H1 H2]. constructor; [|assumption].
      intros Hin. assert (existsb (Z.eqb x) l = true); [|congruence].
      apply existsb_exists. exists x. split; [assumption | apply Z.eqb_refl].
    + intros H. inversion H; subst. split; [|assumption].
      destruct (existsb (Z.eqb x) l) eqn:E; [|reflexivity].
      apply existsb_exists in E. destruct E as [y [Hy E]].
      apply Z.eqb_eq in E. subst. contradiction.
Qed.

Lemma get_child_unique (d : Z) (cs : list (Z * DigitTree)) (c : DigitTree) :
  NoDup (keys cs) -> In (d, c) cs -> get_child d cs = Some c.
Proof.
  induction cs as [|[k c'] cs IH]; simpl; [tauto|].
  intros Hnd [H | H].
  - injection H as -> ->. rewrite Z.eqb_refl. reflexivity.
  - inversion Hnd; subst. destruct (k =? d) eqn:E.
    + apply Z.eqb_eq in E. subst. exfalso. apply H2.
      change d with (fst (d, c)). apply in_map. assumption.
    + auto.
Qed.

(** The shape [update_child] finds and leaves. *)
Lemma update_child_Some (f : DigitTree -> DigitTree * outcome) (d : Z)
      (cs cs' : list (Z * DigitTree)) (o : outcome) :
  update_child f d cs = Some (cs', o) ->
  exists l1 c l2,
    cs = (l1 ++ (d, c) :: l2)%list /\ ~ In d (keys l1) /\
    cs' = (l1 ++ (d, fst (f c)) :: l2)%list /\ o = snd (f c).
Proof.
  revert cs' o. induction cs as [|[k c] cs IH]; simpl; intros cs' o H; [discriminate|].
  destruct (k =? d) eqn:E.
  - apply Z.eqb_eq in E. subst k. destruct (f c) as [c' o'] eqn:Ef.
    injection H as <- <-. exists [], c, cs. rewrite Ef. simpl. auto.
  - destruct (update_child f d cs) as [[rest' o']|] eqn:Eu; [|discriminate].
    injection H as <- <-. destruct (IH _ _ eq_refl) as (l1 & c0 & l2 & -> & Hn & -> & ->).
    exists ((k, c) :: l1), c0, l2. simpl. apply Z.eqb_neq in E.
    repeat split; auto. intros [H | H]; auto.
Qed.

Lemma update_child_None (f : DigitTree -> DigitTree * outcome) (d : Z)
      (cs : list (Z * DigitTree)) :
  update_child f d cs = None <-> get_child d cs = None.
Proof.
  induction cs as [|[k c] cs IH]; simpl; [tauto|].
  destruct (k =? d).
  - destruct (f c). split; discriminate.
  - destruct (update_child f d cs) as [[rest' o']|]; rewrite <- IH; split; congruence.
Qed.

Lemma get_child_middle (d : Z) (l1 l2 : list (Z * DigitTree)) (c : DigitTree) :
  ~ In d (keys l1) -> get_child d (l1 ++ (d, c) :: l2) = Some c.
Proof.
  induction l1 as [|[k c'] l1 IH]; simpl; intros H.
  - rewrite Z.eqb_refl. reflexivity.
  - destruct (k =? d) eqn:E; [apply Z.eqb_eq in E; exfalso; auto | auto].
Qed.

Lemma get_child_other (d k : Z) (l1 l2 : list (Z * DigitTree)) (c c' : DigitTree) :
  k <> d -> get_child d (l1 ++ (k, c) :: l2) = get_child d (l1 ++ (k, c') :: l2).
Proof.
  intros Hk. induction l1 as [|[k0 c0] l1 IH]; simpl.
  - apply Z.eqb_neq in Hk. rewrite Hk. reflexivity.
  - destruct (k0 =? d); auto.
Qed.

Lemma get_child_snoc (d k : Z) (cs : list (Z * DigitTree)) (c : DigitTree) :
  get_child d (cs ++ [(k, c)]) =
  match get_child d cs with
  | Some x => Some x
  | None => if k =? d then Some c else None
  end.
Proof.
  induction cs as [|[k0 c0] cs IH]; simpl; [reflexivity|].
  destruct (k0 =? d); auto.
Qed.

Lemma keys_app (l1 l2 : list (Z * DigitTree)) : keys (l1 ++ l2) = (keys l1 ++ keys l2)%list.
Proof. apply map_app. Qed.

(** * Well-formedness is kept by every method *)

Lemma wfb_iff (cs : list (Z * DigitTree)) (p : string) (tm : bool) (u : Z) (cv : number) :
  wfb (mkDigitTree cs p tm u cv) = true <-> NoDup (keys cs) /\ Forall (child_ok p) cs.
Proof.
  simpl. rewrite andb_true_iff, distinct_NoDup, forallb_forall, Forall_forall.
  split; intros [H1 H2]; split; auto; intros kc Hin; specialize (H2 kc Hin).
  - rewrite !andb_true_iff in H2. destruct H2 as [[[Ha Hb] Hc] Hd].
    apply seqb_eq in Hc. unfold child_ok. repeat split; auto; lia.
  - destruct H2 as [[Ha Hb] [Hc Hd]]. rewrite !andb_true_iff.
    repeat split; auto; try lia. apply seqb_eq. assumption.
Qed.

Lemma add_node_eq (cs : list (Z * DigitTree)) (p : string) (tm : bool) (u : Z) (cv : number)
      (node : string) :
  add_node (mkDigitTree cs p tm u cv) node =
  let common := common_prefix p node in
  if (common =? node)%str then (mkDigitTree cs p true u cv, None)
  else if negb (len p <? len node) then (mkDigitTree cs p tm u cv, Some AssertionError)
  else
    match sget (slength common) node with
    | None => (mkDigitTree cs p tm u cv, Some IndexError)
    | Some ch =>
        match int_of_char ch with
        | None => (mkDigitTree cs p tm u cv, Some ValueError)
        | Some next_digit =>
            match update_child (fun sub_tree => add_node sub_tree node) next_digit cs with
            | Some (cs', o) => (mkDigitTree cs' p tm u cv, o)
            | None =>
                let (sub_tree, o) :=
                  add_fresh (slength node) (p ++ str next_digit) node in
                (mkDigitTree (cs ++ [(next_digit, sub_tree)])%list p tm u cv, o)
            end
        end
    end.
Proof. reflexivity. Qed.

Lemma add_fresh_wf (fuel : nat) (p node : string) :
  wfb (fst (add_fresh fuel p node)) = true /\ prefix (fst (add_fresh fuel p node)) = p.
Proof.
  revert p. induction fuel as [|fuel IH]; intros p; simpl;
    destruct (common_prefix p node =? node)%str; auto;
    destruct (negb (len p <? len node)); auto;
    destruct (sget _ node) as [ch|]; auto;
    destruct (int_of_char ch) as [d|] eqn:Ed; auto.
  specialize (IH (p ++ str d)).
  destruct (add_fresh fuel (p ++ str d) node) as [sub o]. simpl in *.
  destruct IH as [Hw Hp]. apply int_of_char_spec in Ed. rename Ed into Hd.
  split; [|reflexivity]. rewrite Hw, Hp, seqb_refl.
  destruct Hd as [Hd1 Hd2]. apply Z.leb_le in Hd1, Hd2. rewrite Hd1, Hd2. reflexivity.
Qed.

Lemma add_node_prefix (t : DigitTree) (node : string) :
  prefix (fst (add_node t node)) = prefix t.
Proof.
  destruct t as [cs p tm u cv]. rewrite add_node_eq. cbv zeta.
  destruct (common_prefix p node =? node)%str; auto.
  destruct (negb (len p <? len node)); auto.
  destruct (sget _ node) as [ch|]; auto.
  destruct (int_of_char ch) as [d|]; auto.
  destruct (update_child _ d cs) as [[cs' o]|]; auto.
  destruct (add_fresh _ _ node); auto.
Qed.

Lemma add_node_wf (t : DigitTree) (node : string) :
  wfb t = true -> wfb (fst (add_node t node)) = true.
Proof.
  induction t as [cs p tm u cv IH] using DigitTree_ind. intros Hw.
  rewrite add_node_eq. cbv zeta.
  destruct (common_prefix p node =? node)%str; auto.
  destruct (negb (len p <? len node)); auto.
  destruct (sget _ node) as [ch|]; auto.
  destruct (int_of_char ch) as [d|] eqn:Ed; auto.
  apply wfb_iff in Hw. destruct Hw as [Hnd Hcs].
  destruct (update_child _ d cs) as [[cs' o]|] eqn:Eu.
  - apply update_child_Some in Eu. destruct Eu as (l1 & c & l2 & -> & Hn & -> & _).
    simpl fst. apply wfb_iff. split.
    + rewrite keys_app in *. simpl in *. assumption.
    + rewrite Forall_app in *. destruct Hcs as [H1 H2]. destruct IH as [_ IH2].
      inversion H2; subst. inversion IH2; subst. split; [assumption|].
      constructor; [|assumption].
      destruct H3 as (Ha & Hb & Hc). unfold child_ok. simpl in *.
      rewrite add_node_prefix. auto.
  - apply update_child_None, get_child_None in Eu.
    pose proof (add_fresh_wf (slength node) (p ++ str d) node) as [Hw Hp].
    destruct (add_fresh _ _ node) as [sub o]. simpl in Hw, Hp. simpl fst.
    apply wfb_iff. split.
    + rewrite keys_app. simpl.
      apply (Permutation_NoDup (l := d :: keys cs)).
      * apply Permutation_cons_append.
      * constructor; assumption.
    + apply Forall_app. split; [assumption|]. constructor; [|constructor].
      apply int_of_char_spec in Ed. unfold child_ok. simpl. tauto.
Qed.

Lemma add_nodes_wf (nodes : list string) (t : DigitTree) :
  wfb t = true -> wfb (fst (add_nodes t nodes)) = true.
Proof.
  revert t. induction nodes as [|node rest IH]; intros t Hw; simpl; auto.
  pose proof (add_node_wf t node Hw) as H.
  destruct (add_node t node) as [t' [e|]]; simpl in *; auto.
Qed.

(** Every trie that [from_list] builds or leaves behind is well formed. *)
Lemma from_list_wf (nodes : list string) : wfb (fst (from_list nodes)) = true.
Proof. apply add_nodes_wf. reflexivity. Qed.

Lemma add_nodes_prefix (nodes : list string) (t : DigitTree) :
  prefix (fst (add_nodes t nodes)) = prefix t.
Proof.
  revert t. induction nodes as [|node rest IH]; intros t; simpl; auto.
  pose proof (add_node_prefix t node) as H.
  destruct (add_node t node) as [t' [e|]]; simpl in *; auto.
  rewrite IH. assumption.
Qed.

(** * Malformed identifiers *)

Lemma add_fresh_eq (fuel : nat) (p node : string) :
  add_fresh fuel p node =
  let common := common_prefix p node in
  if (common =? node)%str then (mkDigitTree [] p true 0 (Int 0), None)
  else if negb (len p <? len node) then (new_tree p, Some AssertionError)
  else
    match sget (slength common) node with
    | None => (new_tree p, Some IndexError)
    | Some ch =>
        match int_of_char ch with
        | None => (new_tree p, Some ValueError)
        | Some next_digit =>
            match fuel with
            | O => (new_tree p, Some OutOfFuel)
            | S fuel' =>
                let (sub_tree, o) := add_fresh fuel' (p ++ str next_digit) node in
                (mkDigitTree [(next_digit, sub_tree)] p false 0 (Int 0), o)
            end
        end
    end.
Proof. destruct fuel; reflexivity. Qed.

Lemma find_node_eq (cs : list (Z * DigitTree)) (p : string) (tm : bool) (u : Z) (cv : number)
      (node : string) :
  find_node (mkDigitTree cs p tm u cv) node =
  if (p =? node)%str then Ok (if tm then Some (mkDigitTree cs p tm u cv) else None)
  else
    match cs with
    | [] => Ok None
    | _ =>
        match sget (slength p) node with
        | None => Raise IndexError
        | Some ch =>
            match int_of_char ch with
            | None => Raise ValueError
            | Some next_digit =>
                match get_child next_digit cs with
                | None => Ok None
                | Some child => find_node child node
                end
            end
        end
    end.
Proof.
  simpl. destruct (p =? node)%str; [reflexivity|].
  destruct cs as [|kc cs]; [reflexivity|].
  destruct (sget _ node) as [ch|]; [|reflexivity].
  destruct (int_of_char ch) as [d|]; [|reflexivity].
  rewrite on_child_get. destruct (get_child d (kc :: cs)); reflexivity.
Qed.

Lemma populate_used_eq (node_len : Z) (cs : list (Z * DigitTree)) (p : string) (tm : bool)
      (u : Z) (cv : number) :
  populate_used node_len (mkDigitTree cs p tm u cv) =
  if tm && negb (len p =? node_len) then (mkDigitTree cs p tm u cv, Some AssertionError)
  else
    let (cs', o) := update_childs (populate_used node_len) cs in
    match o with
    | Some e => (mkDigitTree cs' p tm u cv, Some e)
    | None =>
        let used' := Zsum (child_used cs') in
        (mkDigitTree cs' p tm (if tm then used' + 1 else used') (pow10 (node_len - len p)), None)
    end.
Proof. reflexivity. Qed.

(** The first steps of [add_node] and [find_node] on an identifier that
    goes on after the prefix of the node. *)
Lemma step_facts (p : string) (c : char) (r : string) :
  common_prefix p (p ++ String c r) = p /\
  (p =? p ++ String c r)%str = false /\
  negb (len p <? len (p ++ String c r)) = false /\
  sget (slength p) (p ++ String c r) = Some c.
Proof.
  repeat split.
  - apply common_prefix_app.
  - apply eqb_app_String.
  - rewrite len_app, len_String. pose proof (len_nonneg r).
    apply negb_false_iff, Z.ltb_lt. lia.
  - apply get_app.
Qed.

Lemma next_prefix (p : string) (c : char) (r : string) (d : Z) :
  str d = String c "" -> p ++ String c r = (p ++ str d) ++ r.
Proof. intros ->. rewrite sapp_assoc. reflexivity. Qed.

Lemma first_other_None (s : string) : first_other s = None <-> all_digits s = true.
Proof.
  induction s as [|c r IH]; simpl; [tauto|].
  destruct (is_digit c); simpl; [assumption | split; discriminate].
Qed.

Lemma first_other_Some (s : string) (c : char) :
  first_other s = Some c ->
  exists pre r, s = pre ++ String c r /\ all_digits pre = true /\ is_digit c = false.
Proof.
  induction s as [|c0 r0 IH]; simpl; [discriminate|].
  destruct (is_digit c0) eqn:E.
  - intros H. destruct (IH H) as (pre & r & -> & Hpre & Hc).
    exists (String c0 pre), r. simpl. rewrite E, Hpre. auto.
  - intros H. injection H as <-. exists "", r0. auto.
Qed.

Lemma first_other_app (pre : string) (c : char) (r : string) :
  all_digits pre = true -> is_digit c = false -> first_other (pre ++ String c r) = Some c.
Proof.
  induction pre as [|c0 pre IH]; simpl; intros Hp Hc.
  - rewrite Hc. reflexivity.
  - apply andb_true_iff in Hp. destruct Hp as [-> Hp]. auto.
Qed.

Lemma all_digits_false_first (s : string) :
  all_digits s = false -> exists c, first_other s = Some c.
Proof.
  intros H. destruct (first_other s) as [c|] eqn:E; [eauto|].
  apply first_other_None in E. congruence.
Qed.

Lemma int_None_not_digit (c : char) : int_of_char c = None -> is_digit c = false.
Proof.
  intros H. destruct (is_digit c) eqn:E; [|reflexivity].
  apply is_digit_true in E. destruct E as (d & E & _). congruence.
Qed.

(** The first steps of [add_node] on a node whose prefix leaves the
    identifier after their common start [pre]. *)
Lemma misstep_facts (pre : string) (a : char) (q : string) (c : char) (r : string) :
  a <> c ->
  common_prefix (pre ++ String a q) (pre ++ String c r) = pre /\
  (pre =? pre ++ String c r)%str = false /\
  sget (slength pre) (pre ++ String c r) = Some c.
Proof.
  intros Hne. repeat split.
  - induction pre as [|x pre IH]; simpl.
    + apply N.eqb_neq in Hne. rewrite Hne. reflexivity.
    + rewrite N.eqb_refl, IH. reflexivity.
  - apply eqb_app_String.
  - apply get_app.
Qed.

Lemma slength_str_digit (d : Z) : 0 <= d <= 9 -> slength (str d) = 1%nat.
Proof. intros H. destruct (str_digit d H) as [-> _]. reflexivity. Qed.

(** Once the prefix has left the identifier, every further step reads
    the same character again and the prefix grows until the assertion
    fails. *)
Lemma add_fresh_misaligned (c : char) (r : string) (d : Z) (pre : string) :
  int_of_char c = Some d ->
  forall (fuel : nat) (a : char) (q : string),
    a <> c ->
    (slength (pre ++ String c r) <= fuel + slength (pre ++ String a q))%nat ->
    snd (add_fresh fuel (pre ++ String a q) (pre ++ String c r)) = Some AssertionError.
Proof.
  intros Hc. induction fuel as [|fuel IH]; intros a q Hne Hf; rewrite add_fresh_eq; cbv zeta;
    destruct (misstep_facts pre a q c r Hne) as (-> & -> & ->);
    destruct (negb (len (pre ++ String a q) <? len (pre ++ String c r))) eqn:El;
    try reflexivity; rewrite Hc.
  - apply negb_false_iff, Z.ltb_lt in El. unfold len in El. lia.
  - pose proof (int_of_char_spec c d Hc) as Hd9.
    assert (E : (pre ++ String a q) ++ str d = pre ++ String a (q ++ str d)).
    { rewrite sapp_assoc. reflexivity. }
    specialize (IH a (q ++ str d) Hne). rewrite <- E in IH.
    destruct (add_fresh fuel ((pre ++ String a q) ++ str d) (pre ++ String c r)) as [sub o].
    cbn [snd] in *. apply IH.
    rewrite (length_app (pre ++ String a q)), (slength_str_digit d Hd9). lia.
Qed.

Lemma add_node_misaligned (c : char) (r : string) (d : Z) (pre : string) (t : DigitTree) :
  int_of_char c = Some d ->
  forall (a : char) (q : string),
    wfb t = true -> prefix t = pre ++ String a q -> a <> c ->
    snd (add_node t (pre ++ String c r)) = Some AssertionError.
Proof.
  intros Hc. induction t as [cs p tm u cv IH] using DigitTree_ind. intros a q Hw Hp Hne.
  simpl in Hp. subst p. rewrite add_node_eq. cbv zeta.
  destruct (misstep_facts pre a q c r Hne) as (-> & -> & ->).
  destruct (negb (len (pre ++ String a q) <? len (pre ++ String c r))) eqn:El;
    [reflexivity|]. rewrite Hc.
  pose proof (int_of_char_spec c d Hc) as Hd9.
  assert (E : (pre ++ String a q) ++ str d = pre ++ String a (q ++ str d)).
  { rewrite sapp_assoc. reflexivity. }
  apply wfb_iff in Hw. destruct Hw as [Hnd Hcs].
  destruct (update_child _ d cs) as [[cs' o]|] eqn:Eu.
  - apply update_child_Some in Eu. destruct Eu as (l1 & c0 & l2 & -> & Hn & _ & ->).
    rewrite Forall_app in Hcs, IH. destruct Hcs as [_ Hcs]. destruct IH as [_ IH].
    inversion Hcs; subst. inversion IH; subst.
    destruct H1 as (_ & Hp & Hw). simpl in *.
    apply (H3 a (q ++ str d)); [assumption | congruence | assumption].
  - pose proof (add_fresh_misaligned c r d pre Hc (slength (pre ++ String c r)) a
                  (q ++ str d) Hne) as H.
    rewrite <- E in H.
    destruct (add_fresh _ _ (pre ++ String c r)) as [sub o]. simpl in *. apply H. lia.
Qed.

Lemma add_fresh_first_other (c : char) (rest : string) :
  forall (fuel : nat) (p : string),
    first_other rest = Some c -> (slength rest <= fuel)%nat ->
    snd (add_fresh fuel p (p ++ rest)) = first_other_outcome c.
Proof.
  unfold first_other_outcome.
  induction rest as [|c0 r IH]; intros fuel p Hd Hf; [discriminate|].
  rewrite add_fresh_eq. cbv zeta.
  destruct (step_facts p c0 r) as (-> & -> & -> & ->).
  destruct fuel as [|fuel]; [simpl in Hf; lia|].
  simpl in Hd, Hf. destruct (is_digit c0) eqn:E0.
  - apply is_digit_true in E0. destruct E0 as (d & Hc & Hs). rewrite Hc.
    rewrite (next_prefix p c0 r d Hs).
    specialize (IH fuel (p ++ str d) Hd).
    destruct (add_fresh fuel (p ++ str d) ((p ++ str d) ++ r)) as [sub o].
    simpl in *. apply IH. lia.
  - injection Hd as <-. destruct (int_of_char c0) as [d|] eqn:Hc; [|reflexivity].
    pose proof (int_of_char_spec c0 d Hc) as Hd9.
    destruct (str_digit d Hd9) as [Es _].
    pose proof (add_fresh_misaligned c0 r d p Hc fuel (digit_char d) ""
                  (is_digit_false c0 d E0 Hd9)) as H.
    rewrite Es.
    destruct (add_fresh fuel (p ++ String (digit_char d) "") (p ++ String c0 r))
      as [sub o].
    simpl in *. apply H. rewrite !length_app. simpl. lia.
Qed.

Lemma add_node_first_other (c : char) (t : DigitTree) :
  forall rest, wfb t = true -> first_other rest = Some c ->
               snd (add_node t (prefix t ++ rest)) = first_other_outcome c.
Proof.
  induction t as [cs p tm u cv IH] using DigitTree_ind. intros rest Hw Hd.
  simpl prefix. rewrite add_node_eq. cbv zeta.
  destruct rest as [|c0 r]; [discriminate|].
  destruct (step_facts p c0 r) as (-> & -> & -> & ->).
  apply wfb_iff in Hw. destruct Hw as [Hnd Hcs].
  simpl in Hd. destruct (is_digit c0) eqn:E0.
  - apply is_digit_true in E0. destruct E0 as (d & Hc & Hs). rewrite Hc.
    destruct (update_child _ d cs) as [[cs' o]|] eqn:Eu.
    + apply update_child_Some in Eu. destruct Eu as (l1 & c1 & l2 & -> & Hn & _ & ->).
      rewrite Forall_app in Hcs, IH. destruct Hcs as [_ Hcs]. destruct IH as [_ IH].
      inversion Hcs; subst. inversion IH; subst.
      destruct H1 as (_ & Hp & Hw). simpl in *.
      rewrite (next_prefix p c0 r d Hs), <- Hp. auto.
    + pose proof (add_fresh_first_other c r (slength (p ++ String c0 r)) (p ++ str d) Hd) as H.
      rewrite <- (next_prefix p c0 r d Hs) in H.
      destruct (add_fresh _ _ (p ++ String c0 r)) as [sub o]. simpl in *. apply H.
      rewrite length_app. simpl. lia.
  - injection Hd as <-. unfold first_other_outcome.
    destruct (int_of_char c0) as [d|] eqn:Hc; [|reflexivity].
    pose proof (int_of_char_spec c0 d Hc) as Hd9.
    destruct (str_digit d Hd9) as [Es _].
    pose proof (is_digit_false c0 d E0 Hd9) as Hne.
    destruct (update_child _ d cs) as [[cs' o]|] eqn:Eu.
    + apply update_child_Some in Eu. destruct Eu as (l1 & c1 & l2 & -> & Hn & _ & ->).
      rewrite Forall_app in Hcs. destruct Hcs as [_ Hcs].
      inversion Hcs; subst.
      destruct H1 as (_ & Hp & Hw). simpl in *.
      apply (add_node_misaligned c0 r d p c1 Hc (digit_char d) ""); [assumption | | assumption].
      rewrite Hp, Es. reflexivity.
    + pose proof (add_fresh_misaligned c0 r d p Hc (slength (p ++ String c0 r))
                    (digit_char d) "" Hne) as H.
      rewrite Es.
      destruct (add_fresh _ (p ++ String (digit_char d) "") (p ++ String c0 r)) as [sub o].
      simpl in *. apply H. lia.
Qed.

(** An identifier with a character other than ['0'..'9'] is never
    added. *)
Lemma add_node_malformed (t : DigitTree) :
  forall rest, wfb t = true -> all_digits rest = false ->
               snd (add_node t (prefix t ++ rest)) = Some ValueError \/
               snd (add_node t (prefix t ++ rest)) = Some AssertionError.
Proof.
  intros rest Hw Hd. destruct (all_digits_false_first rest Hd) as [c Hc].
  rewrite (add_node_first_other c t rest Hw Hc). unfold first_other_outcome.
  destruct (int_of_char c); auto.
Qed.

(** * Lookup of identifiers with a character that is no digit *)

Lemma nodes_extends (t : DigitTree) (n : DigitTree) :
  wfb t = true -> In n (nodes t) -> exists w, prefix n = prefix t ++ w.
Proof.
  induction t as [cs p tm u cv IH] using DigitTree_ind. intros Hw Hn.
  simpl in Hn. destruct Hn as [<- | Hn].
  - exists "". simpl. rewrite sapp_nil_r. reflexivity.
  - apply in_flat_map in Hn. destruct Hn as [[k c] [Hin Hn]]. simpl in Hn.
    apply wfb_iff in Hw. destruct Hw as [_ Hcs]. rewrite Forall_forall in IH, Hcs.
    destruct (Hcs _ Hin) as (_ & Hp & Hwc). simpl in Hp, Hwc.
    destruct (IH _ Hin Hwc Hn) as [w Ew]. simpl snd in Ew.
    exists (str k ++ w). simpl prefix. rewrite Ew, Hp, sapp_assoc. reflexivity.
Qed.

Lemma inner_node_iff (t : DigitTree) (q : string) :
  inner_node t q = true <-> exists n, In n (nodes t) /\ prefix n = q /\ childs n <> [].
Proof.
  unfold inner_node. rewrite existsb_exists. split; intros (n & Hin & H); exists n.
  - apply andb_true_iff in H. destruct H as [H1 H2]. apply seqb_eq in H1.
    repeat split; try assumption. intros E. unfold has_childs in H2. rewrite E in H2.
    discriminate.
  - destruct H as [-> H]. split; [assumption|]. rewrite seqb_refl. unfold has_childs.
    destruct (childs n); [congruence | reflexivity].
Qed.

(** A node below the node [t] whose prefix goes on with the digit [c0]
    lies in the child tree of that digit. *)
Lemma nodes_below (cs : list (Z * DigitTree)) (p : string) (tm : bool) (u : Z) (cv : number)
      (c0 : char) (r0 : string) (d : Z) (n : DigitTree) :
  wfb (mkDigitTree cs p tm u cv) = true ->
  int_of_char c0 = Some d ->
  In n (nodes (mkDigitTree cs p tm u cv)) -> prefix n = p ++ String c0 r0 ->
  exists child, get_child d cs = Some child /\ In n (nodes child).
Proof.
  intros Hw Hc Hn Hp. simpl in Hn. destruct Hn as [<- | Hn].
  - simpl in Hp. exfalso. pose proof (eqb_app_String p c0 r0) as E.
    apply seqb_neq in E. auto.
  - apply in_flat_map in Hn. destruct Hn as [[k c] [Hin Hn]]. simpl in Hn.
    apply wfb_iff in Hw. destruct Hw as [Hnd Hcs]. rewrite Forall_forall in Hcs.
    destruct (Hcs _ Hin) as (Hk & Hpc & Hwc). simpl in Hk, Hpc, Hwc.
    destruct (nodes_extends c n Hwc Hn) as [w Ew].
    rewrite Hp, Hpc, sapp_assoc in Ew. apply sapp_inv_head in Ew.
    destruct (str_digit k Hk) as [Es Ei]. rewrite Es in Ew. simpl in Ew.
    injection Ew as -> _. assert (k = d) by congruence. subst k.
    exists c. split; [apply get_child_unique; assumption | assumption].
Qed.

Lemma find_node_nondigit (c : char) (rest : string) (t : DigitTree) :
  int_of_char c = None ->
  forall pre, wfb t = true -> all_digits pre = true ->
    find_node t (prefix t ++ pre ++ String c rest) =
    if inner_node t (prefix t ++ pre) then Raise ValueError else Ok None.
Proof.
  intros Hc. induction t as [cs p tm u cv IH] using DigitTree_ind. intros pre Hw Hd.
  simpl prefix. rewrite find_node_eq.
  destruct pre as [|c0 r0].
  - simpl sappend. rewrite sapp_nil_r.
    destruct (step_facts p c rest) as (_ & -> & _ & ->).
    destruct cs as [|kc0 cs0].
    + replace (inner_node _ p) with false; [reflexivity|].
      symmetry. apply not_true_is_false. intros H. apply inner_node_iff in H.
      destruct H as (n & [<- | []] & _ & H). auto.
    + rewrite Hc. replace (inner_node _ p) with true; [reflexivity|].
      symmetry. apply inner_node_iff. eexists. split; [left; reflexivity|].
      split; [reflexivity | discriminate].
  - change (String c0 r0 ++ String c rest) with (String c0 (r0 ++ String c rest)).
    destruct (step_facts p c0 (r0 ++ String c rest)) as (_ & -> & _ & ->).
    simpl in Hd. apply andb_true_iff in Hd. destruct Hd as [Hc0 Hr0].
    apply is_digit_true in Hc0. destruct Hc0 as (d & Hc0 & Hs).
    assert (Hin : forall n, In n (nodes (mkDigitTree cs p tm u cv)) ->
                            prefix n = p ++ String c0 r0 ->
                            exists child, get_child d cs = Some child /\ In n (nodes child)).
    { intros n. apply nodes_below; assumption. }
    destruct cs as [|kc0 cs0].
    + replace (inner_node _ _) with false; [reflexivity|].
      symmetry. apply not_true_is_false. intros H. apply inner_node_iff in H.
      destruct H as (n & Hn & Hp & _). destruct (Hin n Hn Hp) as (ch & E & _). discriminate.
    + remember (kc0 :: cs0) as cs. rewrite Hc0.
      destruct (get_child d cs) as [child|] eqn:Eg.
      * pose proof (get_child_In _ _ _ Eg) as Hi.
        apply wfb_iff in Hw. destruct Hw as [_ Hcs].
        rewrite Forall_forall in Hcs, IH. specialize (Hcs _ Hi). specialize (IH _ Hi).
        destruct Hcs as (_ & Hp & Hwc). simpl in Hp, Hwc, IH.
        rewrite (next_prefix p c0 (r0 ++ String c rest) d Hs), <- Hp.
        rewrite (IH r0 Hwc Hr0).
        replace (inner_node child (prefix child ++ r0))
          with (inner_node (mkDigitTree cs p tm u cv) (p ++ String c0 r0));
          [destruct cs; [discriminate | reflexivity]|].
        rewrite Hp, <- (next_prefix p c0 r0 d Hs).
        apply eq_true_iff_eq. rewrite !inner_node_iff.
        split; intros (n & Hn & Hpn & Hne); exists n; repeat split; try assumption.
        -- destruct (Hin n Hn Hpn) as (ch & E & Hn'). congruence.
        -- simpl. right. apply in_flat_map. exists (d, child). auto.
      * replace (inner_node _ _) with false; [destruct cs; [discriminate | reflexivity]|].
        symmetry. apply not_true_is_false. intros H. apply inner_node_iff in H.
        destruct H as (n & Hn & Hp & _). destruct (Hin n Hn Hp) as (ch & E & _). discriminate.
Qed.

Lemma update_childs_outcome (f : DigitTree -> DigitTree * outcome) (cs : list (Z * DigitTree)) :
  Forall (fun kc => snd (f (snd kc)) = None \/ snd (f (snd kc)) = Some AssertionError) cs ->
  snd (update_childs f cs) = None \/ snd (update_childs f cs) = Some AssertionError.
Proof.
  induction 1 as [|[k c] cs H _ IH]; simpl; [auto|].
  simpl in H. destruct (f c) as [c' [e|]]; simpl in *.
  - destruct H as [H | H]; [discriminate | auto].
  - destruct (update_childs f cs) as [rest' o']. simpl in *. assumption.
Qed.

(** The only exception of the accounting pass is its own assertion. *)
Lemma populate_used_outcome (node_len : Z) (t : DigitTree) :
  snd (populate_used node_len t) = None \/
  snd (populate_used node_len t) = Some AssertionError.
Proof.
  induction t as [cs p tm u cv IH] using DigitTree_ind.
  rewrite populate_used_eq.
  destruct (tm && negb (len p =? node_len)); [auto|].
  pose proof (update_childs_outcome (populate_used node_len) cs IH) as H.
  destruct (update_childs (populate_used node_len) cs) as [cs' [e|]]; simpl in *; auto.
Qed.

(** * The accounting pass *)

Lemma update_childs_ok (f : DigitTree -> DigitTree * outcome) (g : DigitTree -> DigitTree)
      (cs : list (Z * DigitTree)) :
  Forall (fun kc => f (snd kc) = (g (snd kc), None)) cs ->
  update_childs f cs = (map (fun kc => (fst kc, g (snd kc))) cs, None).
Proof.
  induction 1 as [|[k c] cs H _ IH]; simpl; [reflexivity|].
  simpl in H. rewrite H, IH. reflexivity.
Qed.

Lemma update_childs_fail (f : DigitTree -> DigitTree * outcome) (ok : DigitTree -> bool)
      (e : exn) (cs : list (Z * DigitTree)) :
  Forall (fun kc => if ok (snd kc) then snd (f (snd kc)) = None
                    else snd (f (snd kc)) = Some e) cs ->
  forallb (fun kc => ok (snd kc)) cs = false ->
  snd (update_childs f cs) = Some e.
Proof.
  induction 1 as [|[k c] cs H _ IH]; simpl; [discriminate|].
  simpl in H. destruct (ok c); simpl.
  - intros Hf. destruct (f c) as [c' o]. simpl in H. subst o.
    specialize (IH Hf). destruct (update_childs f cs). assumption.
  - intros _. destruct (f c) as [c' o]. simpl in H. subst o. reflexivity.
Qed.

Lemma populate_used_ok (node_len : Z) (t : DigitTree) :
  lengths_ok node_len t = true -> populate_used node_len t = (account node_len t, None).
Proof.
  induction t as [cs p tm u cv IH] using DigitTree_ind. intros H.
  simpl in H. apply andb_true_iff in H. destruct H as [Hp Hcs].
  rewrite populate_used_eq.
  assert (E : tm && negb (len p =? node_len) = false).
  { destruct tm; [rewrite Hp|]; reflexivity. }
  rewrite E. rewrite (update_childs_ok _ (account node_len)); [reflexivity|].
  rewrite forallb_forall in Hcs. rewrite Forall_forall in *. auto.
Qed.

Lemma populate_used_fail (node_len : Z) (t : DigitTree) :
  lengths_ok node_len t = false -> snd (populate_used node_len t) = Some AssertionError.
Proof.
  induction t as [cs p tm u cv IH] using DigitTree_ind. intros H.
  rewrite populate_used_eq. simpl in H.
  destruct (tm && negb (len p =? node_len)) eqn:E; [reflexivity|].
  assert (Hcs : forallb (fun kc => lengths_ok node_len (snd kc)) cs = false).
  { destruct tm; simpl in *; [|assumption].
    apply negb_false_iff in E. rewrite E in H. assumption. }
  pose proof (update_childs_fail (populate_used node_len) (lengths_ok node_len)
                AssertionError cs) as F.
  destruct (update_childs (populate_used node_len) cs) as [cs' o]. simpl in F.
  rewrite F; [reflexivity | | assumption].
  rewrite Forall_forall in *. intros kc Hin.
  destruct (lengths_ok node_len (snd kc)) eqn:Ek; [|auto].
  rewrite populate_used_ok; auto.
Qed.

(** The accounting pass succeeds exactly when [lengths_ok] holds, and then
    leaves [account]. *)
Lemma populate_used_spec (node_len : Z) (t t' : DigitTree) :
  populate_used node_len t = (t', None) <->
  lengths_ok node_len t = true /\ t' = account node_len t.
Proof.
  split.
  - intros H. destruct (lengths_ok node_len t) eqn:E.
    + rewrite populate_used_ok in H by assumption. split; congruence.
    + apply populate_used_fail in E. rewrite H in E. discriminate.
  - intros [H ->]. apply populate_used_ok. assumption.
Qed.

Lemma lengths_ok_nodes (node_len : Z) (t : DigitTree) :
  lengths_ok node_len t = true <->
  (forall n, In n (nodes t) -> terminal n = true -> len (prefix n) = node_len).
Proof.
  induction t as [cs p tm u cv IH] using DigitTree_ind.
  simpl. rewrite andb_true_iff, forallb_forall. rewrite Forall_forall in IH. split.
  - intros [H1 H2] n [<- | Hn]; simpl.
    + intros ->. apply Z.eqb_eq. assumption.
    + apply in_flat_map in Hn. destruct Hn as [kc [Hin Hn]].
      apply (IH kc Hin); auto.
  - intros H. split.
    + destruct tm; [|reflexivity]. apply Z.eqb_eq. apply (H _ (or_introl eq_refl)). reflexivity.
    + intros kc Hin. apply (IH kc Hin). intros n Hn. apply H. right.
      apply in_flat_map. exists kc. auto.
Qed.

Lemma account_prefix (node_len : Z) (t : DigitTree) : prefix (account node_len t) = prefix t.
Proof. destruct t; reflexivity. Qed.

Lemma account_terminal (node_len : Z) (t : DigitTree) :
  terminal (account node_len t) = terminal t.
Proof. destruct t; reflexivity. Qed.

Lemma account_covers (node_len : Z) (t : DigitTree) :
  covers (account node_len t) = pow10 (node_len - len (prefix t)).
Proof. destruct t; reflexivity. Qed.

Lemma account_childs (node_len : Z) (t : DigitTree) :
  childs (account node_len t) = map (fun kc => (fst kc, account node_len (snd kc))) (childs t).
Proof. destruct t; reflexivity. Qed.

Lemma account_keys (node_len : Z) (cs : list (Z * DigitTree)) :
  keys (map (fun kc => (fst kc, account node_len (snd kc))) cs) = keys cs.
Proof. unfold keys. rewrite map_map. reflexivity. Qed.

Lemma account_get_child (node_len d : Z) (cs : list (Z * DigitTree)) :
  get_child d (map (fun kc => (fst kc, account node_len (snd kc))) cs) =
  option_map (account node_len) (get_child d cs).
Proof.
  induction cs as [|[k c] cs IH]; simpl; [reflexivity|].
  destruct (k =? d); auto.
Qed.

Lemma account_wf (node_len : Z) (t : DigitTree) :
  wfb t = true -> wfb (account node_len t) = true.
Proof.
  induction t as [cs p tm u cv IH] using DigitTree_ind. intros Hw.
  apply wfb_iff in Hw. destruct Hw as [Hnd Hcs]. simpl account. apply wfb_iff.
  rewrite account_keys. split; [assumption|].
  rewrite Forall_forall in *. intros kc' Hin. apply in_map_iff in Hin.
  destruct Hin as [kc [<- Hin]]. destruct (Hcs kc Hin) as (Ha & Hb & Hc).
  unfold child_ok. simpl. rewrite account_prefix. auto.
Qed.

Lemma Zsum_le (B : Z) (l : list Z) :
  Forall (fun x => x <= B) l -> Zsum l <= Z.of_nat (List.length l) * B.
Proof. induction 1; simpl Zsum; simpl List.length; lia. Qed.

Lemma Zsum_nonneg (l : list Z) : Forall (fun x => 0 <= x) l -> 0 <= Zsum l.
Proof. induction 1; simpl; lia. Qed.

Lemma digit_keys_length (l : list Z) :
  NoDup l -> Forall (fun k => 0 <= k <= 9) l -> (List.length l <= 10)%nat.
Proof.
  intros Hnd Hr.
  apply (NoDup_incl_length (l' := [0; 1; 2; 3; 4; 5; 6; 7; 8; 9]) Hnd).
  intros k Hk. rewrite Forall_forall in Hr. specialize (Hr k Hk).
  apply digit_cases in Hr. simpl. intuition.
Qed.

Lemma len_str_digit (d : Z) : 0 <= d <= 9 -> len (str d) = 1.
Proof. intros H. apply str_digit in H. destruct H as [-> _]. reflexivity. Qed.

Lemma account_inv (node_len : Z) (t : DigitTree) :
  wfb t = true -> lengths_ok node_len t = true ->
  Forall (node_inv node_len) (nodes (account node_len t)) /\ 0 <= used (account node_len t).
Proof.
  induction t as [cs p tm u cv IH] using DigitTree_ind. intros Hw Hl.
  apply wfb_iff in Hw. destruct Hw as [Hnd Hcs].
  simpl in Hl. apply andb_true_iff in Hl. destruct Hl as [Hp Hl].
  rewrite forallb_forall in Hl. rewrite Forall_forall in IH, Hcs.
  set (cs' := map (fun kc => (fst kc, account node_len (snd kc))) cs).
  assert (Hin' : forall kc', In kc' cs' ->
            exists kc, In kc cs /\ kc' = (fst kc, account node_len (snd kc))).
  { intros kc' H. apply in_map_iff in H. destruct H as [kc [<- H]]. eauto. }
  assert (Hcov : forall kc', In kc' cs' -> covers (snd kc') = pow10 (node_len - len p - 1)).
  { intros kc' H. destruct (Hin' kc' H) as [kc [Hin ->]]. simpl.
    rewrite account_covers. destruct (Hcs kc Hin) as (Ha & -> & _).
    rewrite len_app, len_str_digit by assumption. f_equal. lia. }
  assert (Hu0 : Forall (fun x => 0 <= x) (child_used cs')).
  { apply Forall_forall. intros x Hx. apply in_map_iff in Hx. destruct Hx as [kc' [<- Hx]].
    destruct (Hin' kc' Hx) as [kc [Hin ->]]. simpl.
    destruct (Hcs kc Hin) as (_ & _ & Hw). apply (IH kc Hin Hw (Hl kc Hin)). }
  assert (Hle : forall kc', In kc' cs' -> le_number (used (snd kc')) (covers (snd kc'))).
  { intros kc' Hx. destruct (Hin' kc' Hx) as [kc [Hin ->]]. simpl.
    destruct (Hcs kc Hin) as (_ & _ & Hw). destruct (IH kc Hin Hw (Hl kc Hin)) as [HF _].
    destruct (account node_len (snd kc)) as [cs0 p0 tm0 u0 cv0] eqn:E. simpl nodes in HF.
    inversion HF; subst. destruct H1 as (_ & _ & H1 & _). exact H1. }
  assert (Hn : (List.length (child_used cs') <= 10)%nat).
  { unfold child_used, cs'. rewrite !length_map. rewrite <- (length_map fst).
    apply digit_keys_length; [assumption|]. apply Forall_forall. intros k Hk.
    apply in_map_iff in Hk. destruct Hk as [kc [<- Hk]]. apply (Hcs kc Hk). }
  pose proof (Zsum_nonneg _ Hu0) as Hs0.
  simpl account. fold cs'. split; [|destruct tm; simpl; lia].
  simpl nodes. constructor.
  - unfold node_inv. simpl. repeat split.
    + destruct tm; lia.
    + unfold pow10. destruct (0 <=? node_len - len p) eqn:E0; simpl.
      * apply Z.leb_le in E0.
        destruct (Z.eq_dec (node_len - len p) 0) as [E1 | E1].
        -- assert (Hs : Zsum (child_used cs') <= Z.of_nat (List.length (child_used cs')) * 0).
           { apply Zsum_le. apply Forall_forall. intros x Hx. apply in_map_iff in Hx.
             destruct Hx as [kc' [<- Hx]]. specialize (Hle kc' Hx).
             rewrite (Hcov kc' Hx) in Hle. unfold pow10 in Hle.
             replace (0 <=? node_len - len p - 1) with false in Hle
               by (symmetry; apply Z.leb_gt; lia). exact Hle. }
           rewrite E1. simpl. destruct tm; lia.
        -- assert (Hs : Zsum (child_used cs') <=
                        Z.of_nat (List.length (child_used cs')) * 10 ^ (node_len - len p - 1)).
           { apply Zsum_le. apply Forall_forall. intros x Hx. apply in_map_iff in Hx.
             destruct Hx as [kc' [<- Hx]]. specialize (Hle kc' Hx).
             rewrite (Hcov kc' Hx) in Hle. unfold pow10 in Hle.
             replace (0 <=? node_len - len p - 1) with true in Hle
               by (symmetry; apply Z.leb_le; lia). exact Hle. }
           assert (Ht : tm = false).
           { destruct tm; [|reflexivity]. apply Z.eqb_eq in Hp. lia. }
           subst tm.
           assert (Hpow : 10 ^ (node_len - len p) = 10 * 10 ^ (node_len - len p - 1)).
           { rewrite <- Z.pow_succ_r by lia. f_equal. lia. }
           assert (0 < 10 ^ (node_len - len p - 1)) by (apply Z.pow_pos_nonneg; lia).
           rewrite Hpow. nia.
      * apply Z.leb_gt in E0.
        assert (Ht : tm = false).
        { destruct tm; [|reflexivity]. apply Z.eqb_eq in Hp. lia. }
        subst tm.
        assert (Hs : Zsum (child_used cs') <= Z.of_nat (List.length (child_used cs')) * 0).
        { apply Zsum_le. apply Forall_forall. intros x Hx. apply in_map_iff in Hx.
          destruct Hx as [kc' [<- Hx]]. specialize (Hle kc' Hx).
          rewrite (Hcov kc' Hx) in Hle. unfold pow10 in Hle.
          replace (0 <=? node_len - len p - 1) with false in Hle
            by (symmetry; apply Z.leb_gt; lia). exact Hle. }
        lia.
    + intros a b Ha Hb. rewrite (Hcov a Ha), (Hcov b Hb). reflexivity.
  - apply Forall_forall. intros n Hn'. apply in_flat_map in Hn'.
    destruct Hn' as [kc' [Hx Hn']]. destruct (Hin' kc' Hx) as [kc [Hin ->]]. simpl in Hn'.
    destruct (Hcs kc Hin) as (_ & _ & Hw). destruct (IH kc Hin Hw (Hl kc Hin)) as [HF _].
    rewrite Forall_forall in HF. auto.
Qed.

(** * Decimal representation *)

Lemma str_digits_len_le (fuel : nat) :
  forall (k : nat) (n : Z),
    0 <= n < 10 ^ Z.of_nat (S k) -> (slength (str_digits fuel n) <= S k)%nat.
Proof.
  induction fuel as [|fuel IH]; intros k n Hn; simpl; [lia|].
  destruct (n <? 10) eqn:E; simpl; [lia|].
  apply Z.ltb_ge in E. rewrite length_app. simpl.
  destruct k as [|k].
  - change (10 ^ Z.of_nat 1) with 10 in Hn. lia.
  - assert (slength (str_digits fuel (n / 10)) <= S k)%nat; [|lia].
    apply IH. split; [apply Z.div_pos; lia|].
    apply Z.div_lt_upper_bound; [lia|].
    rewrite <- Z.pow_succ_r by lia. rewrite <- Nat2Z.inj_succ. lia.
Qed.

Lemma str_digits_len_eq (k : nat) :
  forall (fuel : nat) (n : Z),
    (k < fuel)%nat -> 10 ^ Z.of_nat k <= n < 10 ^ Z.of_nat (S k) ->
    slength (str_digits fuel n) = S k.
Proof.
  induction k as [|k IH]; intros fuel n Hf Hn; (destruct fuel as [|fuel]; [lia|]); simpl.
  - change (10 ^ Z.of_nat 1) with 10 in Hn.
    replace (n <? 10) with true by (symmetry; apply Z.ltb_lt; lia). reflexivity.
  - assert (Hp : 10 ^ Z.of_nat (S k) = 10 * 10 ^ Z.of_nat k).
    { rewrite Nat2Z.inj_succ, Z.pow_succ_r by lia. reflexivity. }
    assert (Hq : 10 ^ Z.of_nat (S (S k)) = 10 * 10 ^ Z.of_nat (S k)).
    { rewrite (Nat2Z.inj_succ (S k)), Z.pow_succ_r by lia. reflexivity. }
    assert (0 < 10 ^ Z.of_nat k) by (apply Z.pow_pos_nonneg; lia).
    replace (n <? 10) with false by (symmetry; apply Z.ltb_ge; lia).
    rewrite length_app. simpl. rewrite (IH fuel (n / 10)); [lia | lia |].
    split.
    + apply Z.div_le_lower_bound; lia.
    + apply Z.div_lt_upper_bound; lia.
Qed.

Lemma len_str_pow10 (e : Z) : 0 <= e -> len (str (10 ^ e)) = e + 1.
Proof.
  intros He. assert (Hpos : 0 < 10 ^ e) by (apply Z.pow_pos_nonneg; lia).
  unfold str. replace (10 ^ e <? 0) with false by (symmetry; apply Z.ltb_ge; lia).
  unfold len. rewrite (str_digits_len_eq (Z.to_nat e)).
  - lia.
  - assert (e <= Z.log2 (10 ^ e)); [|lia].
    rewrite <- (Z.log2_pow2 e) at 1 by assumption.
    apply Z.log2_le_mono. apply Z.pow_le_mono_l. lia.
  - rewrite Nat2Z.inj_succ, Z2Nat.id by assumption.
    rewrite Z.pow_succ_r by assumption. lia.
Qed.

Lemma len_str_lt (e i : Z) : 1 <= e -> 0 <= i < 10 ^ e -> len (str i) <= e.
Proof.
  intros He Hi. unfold str.
  replace (i <? 0) with false by (symmetry; apply Z.ltb_ge; lia).
  unfold len.
  pose proof (str_digits_len_le (S (Z.to_nat (Z.log2 i))) (Z.to_nat (e - 1)) i) as H.
  replace (Z.of_nat (S (Z.to_nat (e - 1)))) with e in H by lia.
  specialize (H Hi). lia.
Qed.

Lemma length_zeros (n : nat) : slength (zeros n) = n.
Proof. induction n; simpl; congruence. Qed.

Lemma len_format_zero (e i : Z) : 1 <= e -> 0 <= i < 10 ^ e -> len (format_zero e i) = e.
Proof.
  intros He Hi. unfold format_zero. rewrite len_app. unfold len at 1.
  rewrite length_zeros. pose proof (len_str_lt e i He Hi). pose proof (len_nonneg (str i)). lia.
Qed.

Lemma range_In (c i : Z) : In i (range c) <-> 0 <= i < c.
Proof.
  unfold range. rewrite in_map_iff. split.
  - intros [n [<- Hn]]. apply in_seq in Hn. lia.
  - intros H. exists (Z.to_nat i). split; [lia | apply in_seq; lia].
Qed.

Lemma range_length (c : Z) : List.length (range c) = Z.to_nat c.
Proof. unfold range. rewrite length_map, length_seq. reflexivity. Qed.

(** * The enumeration *)

Lemma find_sub (F : DigitTree -> gen) (dflt : gen) (k : Z) (cs : list (Z * DigitTree)) :
  match find (fun kg => fst kg =? k) (map (fun kc => (fst kc, F (snd kc))) cs) with
  | Some kg => snd kg
  | None => dflt
  end =
  match get_child k cs with
  | Some c => F c
  | None => dflt
  end.
Proof.
  induction cs as [|[k0 c0] cs IH]; simpl; [reflexivity|].
  destruct (k0 =? k); auto.
Qed.

Lemma rec_availabe_eq (cs : list (Z * DigitTree)) (p : string) (tm : bool) (u : Z) (cv : number) :
  _rec_availabe (mkDigitTree cs p tm u cv) =
  match cs with
  | [] => gen_nil
  | _ => gen_app (gen_concat (map (from_child cs) (visit_order cs)))
                 (missing_digits cs p (first_child cs))
  end.
Proof.
  destruct cs as [|kc cs]; [reflexivity|].
  change (_rec_availabe (mkDigitTree (kc :: cs) p tm u cv))
    with (gen_app
            (gen_concat
               (map (fun child =>
                       match find (fun kg => fst kg =? child)
                                  (map (fun kc => (fst kc, _rec_availabe (snd kc))) (kc :: cs))
                       with
                       | Some kg => snd kg
                       | None => ([], Some KeyError)
                       end) (visit_order (kc :: cs))))
            (missing_digits (kc :: cs) p (first_child (kc :: cs)))).
  f_equal. f_equal. apply map_ext. intros k. unfold from_child.
  apply (find_sub _rec_availabe ([], Some KeyError) k (kc :: cs)).
Qed.

Lemma gen_app_In (g1 g2 : gen) (v : string) :
  In v (fst (gen_app g1 g2)) -> In v (fst g1) \/ In v (fst g2).
Proof.
  unfold gen_app. destruct (snd g1); simpl; [auto|]. apply in_app_or.
Qed.

Lemma gen_concat_In (gs : list gen) (v : string) :
  In v (fst (gen_concat gs)) -> exists g, In g gs /\ In v (fst g).
Proof.
  induction gs as [|g gs IH]; simpl; [tauto|].
  intros H. apply gen_app_In in H. destruct H as [H | H]; [eauto|].
  destruct (IH H) as [g' [H1 H2]]. eauto.
Qed.

Lemma insert_desc_perm (key : Z -> Z) (x : Z) (l : list Z) :
  Permutation (insert_desc key x l) (x :: l).
Proof.
  induction l as [|y l IH]; simpl; [reflexivity|].
  destruct (key x <? key y); [|reflexivity].
  rewrite IH. apply perm_swap.
Qed.

Lemma sorted_desc_perm (key : Z -> Z) (l : list Z) : Permutation (sorted_desc key l) l.
Proof.
  induction l as [|x l IH]; simpl; [reflexivity|].
  rewrite insert_desc_perm. constructor. assumption.
Qed.

Lemma visit_order_In (cs : list (Z * DigitTree)) (k : Z) :
  In k (visit_order cs) <-> In k (keys cs).
Proof.
  unfold visit_order. split; apply Permutation_in;
    [|symmetry]; apply sorted_desc_perm.
Qed.

Lemma first_child_In (cs : list (Z * DigitTree)) (c : DigitTree) :
  first_child cs = Some c -> exists k, In (k, c) cs.
Proof.
  unfold first_child. destruct (visit_order cs) as [|k l]; [discriminate|].
  intros H. exists k. apply get_child_In. assumption.
Qed.

Lemma block_In (p : string) (cv : number) (digit : Z) (v : string) :
  In v (fst (block p cv digit)) ->
  exists c w, cv = Int c /\ v = p ++ str digit ++ w /\
              (c = 1 /\ w = "" \/
               c <> 1 /\ exists i, 0 <= i < c /\ w = format_zero (len (str c) - 1) i).
Proof.
  destruct cv as [c|e]; simpl; [|tauto].
  destruct (c =? 1) eqn:E; simpl.
  - apply Z.eqb_eq in E. intros [<- | []]. exists c, "". rewrite sapp_nil_r. auto.
  - apply Z.eqb_neq in E. rewrite in_map_iff. intros [i [<- Hi]].
    apply range_In in Hi. exists c, (format_zero (len (str c) - 1) i). eauto 7.
Qed.

Lemma missing_digits_In (cs : list (Z * DigitTree)) (p : string) (first : option DigitTree)
      (v : string) :
  In v (fst (missing_digits cs p first)) ->
  exists digit c, 0 <= digit <= 9 /\ get_child digit cs = None /\ first = Some c /\
                  In v (fst (block p (covers c) digit)).
Proof.
  unfold missing_digits. intros H. apply gen_concat_In in H.
  destruct H as [g [Hg Hv]]. apply in_map_iff in Hg. destruct Hg as [digit [<- Hd]].
  apply range_In in Hd. rewrite has_child_get in Hv.
  destruct (get_child digit cs) eqn:Eg; [contradiction|].
  destruct ((p =? "")%str && (digit =? 0)); [contradiction|].
  destruct first as [c|]; [|contradiction].
  exists digit, c. repeat split; auto; lia.
Qed.

(** Where a yielded value comes from. *)
Lemma rec_availabe_In (cs : list (Z * DigitTree)) (p : string) (tm : bool) (u : Z) (cv : number)
      (v : string) :
  In v (fst (_rec_availabe (mkDigitTree cs p tm u cv))) ->
  (exists k c, In (k, c) cs /\ get_child k cs = Some c /\ In v (fst (_rec_availabe c))) \/
  (exists digit k0 c0, 0 <= digit <= 9 /\ get_child digit cs = None /\ In (k0, c0) cs /\
                       In v (fst (block p (covers c0) digit))).
Proof.
  rewrite rec_availabe_eq. destruct cs as [|kc0 cs0]; [contradiction|].
  remember (kc0 :: cs0) as cs. intros H. apply gen_app_In in H. destruct H as [H | H].
  - left. apply gen_concat_In in H. destruct H as [g [Hg Hv]].
    apply in_map_iff in Hg. destruct Hg as [k [<- Hk]]. unfold from_child in Hv.
    destruct (get_child k cs) as [c|] eqn:Eg; [|contradiction].
    exists k, c. split; [apply get_child_In|]; auto.
  - right. apply missing_digits_In in H.
    destruct H as (digit & c & Hd & Hg & Hf & Hv).
    apply first_child_In in Hf. destruct Hf as [k0 Hf]. exists digit, k0, c. auto.
Qed.

Lemma child_step (p : string) (k : Z) (w : string) :
  0 <= k <= 9 ->
  exists ch, p ++ str k ++ w = p ++ String ch w /\ int_of_char ch = Some k /\
             (p ++ str k) ++ w = p ++ String ch w.
Proof.
  intros Hk. destruct (str_digit k Hk) as [E1 E2]. exists (digit_char k).
  rewrite E1, sapp_assoc. auto.
Qed.

(** A yielded value goes on after the prefix of the node that yields it,
    and is not found below that node. *)
Lemma rec_availabe_not_found (t : DigitTree) :
  wfb t = true ->
  forall v, In v (fst (_rec_availabe t)) ->
            (exists c w, v = prefix t ++ String c w) /\ find_node t v = Ok None.
Proof.
  induction t as [cs p tm u cv IH] using DigitTree_ind. intros Hw v Hv.
  apply wfb_iff in Hw. destruct Hw as [_ Hcs]. rewrite Forall_forall in Hcs, IH.
  simpl prefix. rewrite find_node_eq.
  apply rec_availabe_In in Hv.
  destruct Hv as [(k & c & Hin & Hg & Hv) | (digit & k0 & c0 & Hd & Hg & Hin & Hv)].
  - destruct (Hcs _ Hin) as (Hk & Hp & Hw). simpl in Hk, Hp, Hw.
    destruct (IH _ Hin Hw v Hv) as [(c1 & w & Ev) Hf]. simpl in Ev, Hf.
    rewrite Hp in Ev. destruct (child_step p k (String c1 w) Hk) as (ch & _ & Hch & E).
    rewrite E in Ev. subst v. split; [eauto|].
    destruct (step_facts p ch (String c1 w)) as (_ & -> & _ & ->).
    destruct cs as [|kc0 cs0]; [contradiction|].
    rewrite Hch, Hg. assumption.
  - apply block_In in Hv. destruct Hv as (c & w & _ & Ev & _).
    destruct (child_step p digit w Hd) as (ch & E & Hch & _).
    rewrite E in Ev. subst v. split; [eauto|].
    destruct (step_facts p ch w) as (_ & -> & _ & ->).
    destruct cs as [|kc0 cs0]; [contradiction|].
    rewrite Hch, Hg. reflexivity.
Qed.

Lemma pow10_Int (e c : Z) : pow10 e = Int c -> 0 <= e /\ c = 10 ^ e.
Proof.
  unfold pow10. destruct (0 <=? e) eqn:E; [|discriminate].
  apply Z.leb_le in E. intros H. injection H as <-. auto.
Qed.

Lemma pow10_eq_1 (e : Z) : 0 <= e -> 10 ^ e = 1 <-> e = 0.
Proof.
  intros He. split; [|intros ->; reflexivity].
  intros H. destruct (Z.eq_dec e 0) as [|Hn]; [assumption|].
  assert (10 ^ 1 <= 10 ^ e) by (apply Z.pow_le_mono_r; lia).
  change (10 ^ 1) with 10 in *. lia.
Qed.

(** The length of the values of a block, under a child that covers
    [10 ** e] identifiers. *)
Lemma block_len (p : string) (e digit : Z) (v : string) :
  0 <= digit <= 9 -> In v (fst (block p (pow10 e) digit)) -> len v = len p + 1 + e.
Proof.
  intros Hd Hv. apply block_In in Hv. destruct Hv as (c & w & Hc & -> & Hw).
  apply pow10_Int in Hc. destruct Hc as [He ->].
  rewrite !len_app, (len_str_digit digit Hd).
  destruct Hw as [[H1 ->] | [H1 (i & Hi & ->)]].
  - apply pow10_eq_1 in H1; [|assumption]. subst e. change (len "") with 0. lia.
  - assert (1 <= e). { rewrite pow10_eq_1 in H1 by assumption. lia. }
    rewrite len_str_pow10 by assumption.
    replace (e + 1 - 1) with e by lia. rewrite len_format_zero by assumption. lia.
Qed.

Lemma account_child_In (node_len : Z) (cs : list (Z * DigitTree)) (k : Z) (c' : DigitTree) :
  In (k, c') (map (fun kc => (fst kc, account node_len (snd kc))) cs) ->
  exists c, In (k, c) cs /\ c' = account node_len c.
Proof.
  rewrite in_map_iff. intros [[k0 c] [E Hin]]. simpl in E. injection E as -> <-. eauto.
Qed.

(** Every value yielded from an accounted node has the accounted length. *)
Lemma rec_availabe_len (node_len : Z) (t : DigitTree) :
  wfb t = true ->
  forall v, In v (fst (_rec_availabe (account node_len t))) -> len v = node_len.
Proof.
  induction t as [cs p tm u cv IH] using DigitTree_ind. intros Hw v Hv.
  apply wfb_iff in Hw. destruct Hw as [_ Hcs]. rewrite Forall_forall in Hcs, IH.
  simpl account in Hv. apply rec_availabe_In in Hv.
  destruct Hv as [(k & c' & Hin & _ & Hv) | (digit & k0 & c0' & Hd & _ & Hin & Hv)];
    apply account_child_In in Hin; destruct Hin as (c & Hin & ->).
  - destruct (Hcs _ Hin) as (_ & _ & Hw). apply (IH _ Hin Hw v Hv).
  - destruct (Hcs _ Hin) as (Hk & Hp & _). simpl in Hk, Hp.
    rewrite account_covers, Hp in Hv.
    apply block_len in Hv; [|assumption].
    rewrite len_app, (len_str_digit k0 Hk) in Hv. lia.
Qed.

(** * Insertion of digit strings *)

Lemma common_prefix_refl (p : string) : common_prefix p p = p.
Proof. induction p as [|c p IH]; simpl; [|rewrite N.eqb_refl, IH]; reflexivity. Qed.

Lemma add_fresh_chain (rest : string) :
  forall (fuel : nat) (p : string),
    all_digits rest = true -> (slength rest <= fuel)%nat ->
    add_fresh fuel p (p ++ rest) = (chain p rest, None).
Proof.
  induction rest as [|c r IH]; intros fuel p Hd Hf; rewrite add_fresh_eq; cbv zeta.
  - rewrite sapp_nil_r, common_prefix_refl, seqb_refl. reflexivity.
  - destruct (step_facts p c r) as (-> & -> & -> & ->).
    simpl in Hd. apply andb_true_iff in Hd. destruct Hd as [Hc Hr].
    apply is_digit_true in Hc. destruct Hc as [d [Hc Hs]]. rewrite Hc.
    destruct fuel as [|fuel]; [simpl in Hf; lia|].
    rewrite (next_prefix p c r d Hs), IH; [|assumption | simpl in Hf; lia].
    simpl. rewrite Hc. reflexivity.
Qed.

(** One step of [add_node] for an identifier that extends the prefix of
    the node by the digits [rest]. *)
Lemma add_node_step (cs : list (Z * DigitTree)) (p : string) (tm : bool) (u : Z) (cv : number)
      (rest : string) :
  wfb (mkDigitTree cs p tm u cv) = true -> all_digits rest = true ->
  let res := add_node (mkDigitTree cs p tm u cv) (p ++ rest) in
  (rest = "" /\ res = (mkDigitTree cs p true u cv, None)) \/
  (exists c r d,
      rest = String c r /\ int_of_char c = Some d /\ all_digits r = true /\
      p ++ rest = (p ++ str d) ++ r /\
      ((get_child d cs = None /\
        res = (mkDigitTree (cs ++ [(d, chain (p ++ str d) r)])%list p tm u cv, None)) \/
       (exists l1 child l2,
           cs = (l1 ++ (d, child) :: l2)%list /\ ~ In d (keys l1) /\
           prefix child = p ++ str d /\ wfb child = true /\
           res = (mkDigitTree (l1 ++ (d, fst (add_node child (prefix child ++ r))) :: l2)%list
                              p tm u cv,
                  snd (add_node child (prefix child ++ r)))))).
Proof.
  intros Hw Hd res. subst res. rewrite add_node_eq. cbv zeta.
  destruct rest as [|c r].
  - left. rewrite sapp_nil_r, common_prefix_refl, seqb_refl. auto.
  - right. destruct (step_facts p c r) as (-> & -> & -> & ->).
    simpl in Hd. apply andb_true_iff in Hd. destruct Hd as [Hc Hr].
    apply is_digit_true in Hc. destruct Hc as [d [Hc Hs]]. rewrite Hc.
    exists c, r, d. repeat split; auto using next_prefix.
    apply wfb_iff in Hw. destruct Hw as [Hnd Hcs].
    destruct (update_child _ d cs) as [[cs' o]|] eqn:Eu.
    + right. apply update_child_Some in Eu.
      destruct Eu as (l1 & child & l2 & -> & Hn & -> & ->).
      rewrite Forall_app in Hcs. destruct Hcs as [_ Hcs]. inversion Hcs; subst.
      destruct H1 as (_ & Hp & Hw). simpl in Hp, Hw.
      exists l1, child, l2. rewrite Hp, <- (next_prefix p c r d Hs). auto.
    + left. apply update_child_None in Eu. split; [assumption|].
      rewrite (next_prefix p c r d Hs) at 1 2.
      rewrite add_fresh_chain; [reflexivity | assumption |].
      rewrite length_app. lia.
Qed.

(** Inserting a string of digits raises nothing. *)
Lemma add_node_ok (t : DigitTree) :
  forall rest, wfb t = true -> all_digits rest = true ->
               snd (add_node t (prefix t ++ rest)) = None.
Proof.
  induction t as [cs p tm u cv IH] using DigitTree_ind. intros rest Hw Hd. simpl prefix.
  destruct (add_node_step cs p tm u cv rest Hw Hd)
    as [[_ ->] | (c & r & d & -> & Hc & Hr & E & [[_ ->] | (l1 & ch & l2 & -> & _ & _ & Hwc & ->)])];
    try reflexivity.
  simpl. rewrite Forall_app in IH. destruct IH as [_ IH]. inversion IH; subst. auto.
Qed.

Lemma found_eq (cs : list (Z * DigitTree)) (p : string) (tm : bool) (u : Z) (cv : number)
      (s : string) :
  found (mkDigitTree cs p tm u cv) s =
  if (p =? s)%str then tm
  else
    match sget (slength p) s with
    | None => false
    | Some ch =>
        match int_of_char ch with
        | None => false
        | Some d =>
            match get_child d cs with
            | None => false
            | Some c => found c s
            end
        end
    end.
Proof.
  unfold found at 1. rewrite find_node_eq.
  destruct (p =? s)%str; [destruct tm; reflexivity|].
  destruct cs as [|kc cs].
  - destruct (sget _ s) as [ch|]; [|reflexivity].
    destruct (int_of_char ch); reflexivity.
  - destruct (sget _ s) as [ch|]; [|reflexivity].
    destruct (int_of_char ch) as [d|]; [|reflexivity].
    destruct (get_child d (kc :: cs)); reflexivity.
Qed.

Lemma chain_found (rest : string) :
  forall p s, all_digits rest = true ->
              found (chain p rest) s = (s =? p ++ rest)%str.
Proof.
  induction rest as [|c r IH]; intros p s Hd; simpl chain; rewrite found_eq.
  - rewrite sapp_nil_r, (seqb_sym s p).
    destruct (p =? s)%str; [reflexivity|].
    destruct (sget _ s) as [ch|]; [|reflexivity].
    destruct (int_of_char ch); reflexivity.
  - simpl in Hd. apply andb_true_iff in Hd. destruct Hd as [Hc Hr].
    apply is_digit_true in Hc. destruct Hc as [d [Hc Hs]]. rewrite Hc.
    destruct (seqb_spec s (p ++ String c r)) as [-> | Hne].
    + destruct (step_facts p c r) as (_ & -> & _ & ->). rewrite Hc. simpl.
      rewrite Z.eqb_refl, IH by assumption.
      rewrite <- (next_prefix p c r d Hs). apply seqb_refl.
    + destruct (p =? s)%str; [reflexivity|].
      destruct (sget _ s) as [ch|]; [|reflexivity].
      destruct (int_of_char ch) as [d'|]; [|reflexivity].
      simpl. destruct (d =? d'); [|reflexivity].
      rewrite IH by assumption. rewrite <- (next_prefix p c r d Hs).
      apply seqb_neq. assumption.
Qed.

(** Lookup after an insertion: the inserted identifier is found, and
    nothing else changes. *)
Lemma add_node_found (t : DigitTree) :
  forall rest s, wfb t = true -> all_digits rest = true ->
                 found (fst (add_node t (prefix t ++ rest))) s =
                 (s =? prefix t ++ rest)%str || found t s.
Proof.
  induction t as [cs p tm u cv IH] using DigitTree_ind. intros rest s Hw Hd. simpl prefix.
  destruct (add_node_step cs p tm u cv rest Hw Hd)
    as [[-> ->] | (c & r & d & -> & Hc & Hr & E &
                   [[Hg ->] | (l1 & ch & l2 & -> & Hn & Hp & Hwc & ->)])];
    simpl fst; rewrite !found_eq.
  - rewrite sapp_nil_r, (seqb_sym s p).
    destruct (p =? s)%str; reflexivity.
  - destruct (seqb_spec s (p ++ String c r)) as [-> | Hne]; simpl orb.
    + destruct (step_facts p c r) as (_ & -> & _ & ->). rewrite Hc.
      rewrite get_child_snoc, Hg, Z.eqb_refl, chain_found by assumption.
      rewrite <- E. apply seqb_refl.
    + destruct (p =? s)%str; [reflexivity|].
      destruct (sget _ s) as [ch|]; [|reflexivity].
      destruct (int_of_char ch) as [d'|]; [|reflexivity].
      rewrite get_child_snoc. destruct (get_child d' cs); [reflexivity|].
      destruct (d =? d'); [|reflexivity].
      rewrite chain_found by assumption. rewrite <- E.
      apply seqb_neq. assumption.
  - rewrite Forall_app in IH. destruct IH as [_ IH]. inversion IH; subst.
    simpl in H1. specialize (H1 r s Hwc Hr). rewrite Hp, <- E in H1.
    rewrite Hp, <- E.
    destruct (seqb_spec s (p ++ String c r)) as [-> | Hne]; simpl orb in *.
    + destruct (step_facts p c r) as (_ & -> & _ & ->). rewrite Hc.
      rewrite get_child_middle by assumption. assumption.
    + destruct (p =? s)%str; [reflexivity|].
      destruct (sget _ s) as [ch0|]; [|reflexivity].
      destruct (int_of_char ch0) as [d'|]; [|reflexivity].
      destruct (Z.eq_dec d d') as [<- | Hdd].
      * rewrite !get_child_middle by assumption. assumption.
      * rewrite (get_child_other d' d l1 l2 _ ch Hdd). reflexivity.
Qed.

Lemma Zsum_app (l1 l2 : list Z) : Zsum (l1 ++ l2) = Zsum l1 + Zsum l2.
Proof. induction l1; simpl; lia. Qed.

Lemma chain_nterm (rest : string) : forall p, nterm (chain p rest) = 1.
Proof. induction rest as [|c r IH]; intros p; simpl; [|rewrite IH]; reflexivity. Qed.

Lemma nterm_eq (cs : list (Z * DigitTree)) (p : string) (tm : bool) (u : Z) (cv : number) :
  nterm (mkDigitTree cs p tm u cv) =
  (if tm then 1 else 0) + Zsum (map (fun kc => nterm (snd kc)) cs).
Proof. reflexivity. Qed.

(** An insertion adds one terminal node, unless the identifier was there. *)
Lemma add_node_nterm (t : DigitTree) :
  forall rest, wfb t = true -> all_digits rest = true ->
               nterm (fst (add_node t (prefix t ++ rest))) =
               nterm t + (if found t (prefix t ++ rest) then 0 else 1).
Proof.
  induction t as [cs p tm u cv IH] using DigitTree_ind. intros rest Hw Hd. simpl prefix.
  destruct (add_node_step cs p tm u cv rest Hw Hd)
    as [[-> ->] | (c & r & d & -> & Hc & Hr & E &
                   [[Hg ->] | (l1 & ch & l2 & -> & Hn & Hp & Hwc & ->)])];
    simpl fst; rewrite !nterm_eq, found_eq.
  - rewrite sapp_nil_r, seqb_refl. destruct tm; lia.
  - destruct (step_facts p c r) as (_ & -> & _ & ->). rewrite Hc, Hg.
    rewrite map_app, Zsum_app. simpl. rewrite chain_nterm. lia.
  - destruct (step_facts p c r) as (_ & -> & _ & ->). rewrite Hc.
    rewrite get_child_middle by assumption.
    rewrite Forall_app in IH. destruct IH as [_ IH]. inversion IH; subst.
    simpl in H1. specialize (H1 r Hwc Hr). rewrite Hp, <- E in H1.
    rewrite !map_app, !Zsum_app. simpl. rewrite Hp, <- E, H1. lia.
Qed.

Lemma full_iff (node_len : Z) (cs : list (Z * DigitTree)) (p : string) (tm : bool)
      (u : Z) (cv : number) :
  full node_len (mkDigitTree cs p tm u cv) = true <->
  (cs = [] /\ tm = true /\ len p = node_len) \/
  (cs <> [] /\ tm = false /\ len p < node_len /\
   Forall (fun kc => full node_len (snd kc) = true) cs).
Proof.
  simpl. destruct cs as [|kc cs].
  - rewrite andb_true_iff, Z.eqb_eq. split.
    + intros [H1 H2]. left. auto.
    + intros [(_ & H1 & H2) | (H & _)]; [auto | congruence].
  - rewrite !andb_true_iff, negb_true_iff, Z.ltb_lt.
    split.
    + intros [[H1 H2] H3]. right. repeat split; auto; [discriminate|].
      apply Forall_forall. intros x Hx.
      change (full node_len (snd kc) && forallb (fun kc0 => full node_len (snd kc0)) cs)
        with (forallb (fun kc0 => full node_len (snd kc0)) (kc :: cs)) in H3.
      rewrite forallb_forall in H3. auto.
    + intros [(H & _) | (_ & H1 & H2 & H3)]; [discriminate|]. repeat split; auto.
      change (full node_len (snd kc) && forallb (fun kc0 => full node_len (snd kc0)) cs)
        with (forallb (fun kc0 => full node_len (snd kc0)) (kc :: cs)).
      apply forallb_forall. rewrite Forall_forall in H3. auto.
Qed.

Lemma chain_full (rest : string) :
  forall p, all_digits rest = true -> full (len p + len rest) (chain p rest) = true.
Proof.
  induction rest as [|c r IH]; intros p Hd; simpl chain; apply full_iff.
  - left. change (len "") with 0. repeat split. lia.
  - right. simpl in Hd. apply andb_true_iff in Hd. destruct Hd as [Hc Hr].
    apply is_digit_true in Hc. destruct Hc as [d [Hc Hs]]. rewrite Hc.
    rewrite len_String. pose proof (len_nonneg r).
    repeat split; [discriminate | lia |].
    constructor; [|constructor]. cbn [snd].
    pose proof (int_of_char_spec c d Hc) as Hd9.
    replace (len p + (1 + len r)) with (len (p ++ str d) + len r)
      by (rewrite len_app, (len_str_digit d Hd9); lia).
    apply IH. assumption.
Qed.

(** Inserting an identifier of length [node_len] into a full trie, or
    into a node that was just created, leaves a full trie. *)
Lemma add_node_full (node_len : Z) (t : DigitTree) :
  forall rest, wfb t = true -> all_digits rest = true ->
               len (prefix t) + len rest = node_len ->
               full node_len t = true \/ (childs t = [] /\ terminal t = false) ->
               full node_len (fst (add_node t (prefix t ++ rest))) = true.
Proof.
  induction t as [cs p tm u cv IH] using DigitTree_ind. intros rest Hw Hd Hl Hf.
  simpl prefix in *. simpl childs in Hf. simpl terminal in Hf.
  rewrite full_iff in Hf.
  destruct (add_node_step cs p tm u cv rest Hw Hd)
    as [[-> ->] | (c & r & d & -> & Hc & Hr & E &
                   [[Hg ->] | (l1 & ch & l2 & -> & Hn & Hp & Hwc & ->)])];
    simpl fst; apply full_iff.
  - change (len "") with 0 in Hl. left.
    destruct Hf as [[(-> & _ & _) | (_ & _ & H & _)] | [-> _]]; try lia; repeat split; lia.
  - rewrite len_String in Hl. pose proof (len_nonneg r) as Hr0. right.
    assert (Hch : full node_len (chain (p ++ str d) r) = true).
    { pose proof (int_of_char_spec c d Hc) as Hd9.
      replace node_len with (len (p ++ str d) + len r)
        by (rewrite len_app, (len_str_digit d Hd9); lia).
      apply chain_full. assumption. }
    destruct Hf as [[(-> & _ & H) | (_ & -> & _ & H)] | [-> ->]]; try lia.
    + repeat split; [destruct cs; discriminate | lia |].
      apply Forall_app. split; [assumption|]. constructor; [assumption | constructor].
    + repeat split; [discriminate | lia |]. constructor; [assumption | constructor].
  - rewrite len_String in Hl. pose proof (len_nonneg r) as Hr0. right.
    destruct Hf as [[(H & _) | (_ & -> & _ & H)] | [H _]];
      try (destruct l1; discriminate).
    repeat split; [destruct l1; discriminate | lia |].
    rewrite Forall_app in *. destruct H as [H1 H2]. split; [assumption|].
    inversion H2; subst. constructor; [|assumption]. cbn [snd].
    destruct IH as [_ IH]. inversion IH; subst. cbn [snd] in H5.
    pose proof (int_of_char_spec c d Hc) as Hd9.
    apply H5; auto. rewrite Hp, len_app, (len_str_digit d Hd9). lia.
Qed.

Lemma has_child_snoc (d k : Z) (cs : list (Z * DigitTree)) (c : DigitTree) :
  has_child d (cs ++ [(k, c)]) = has_child d cs || (d =? k).
Proof.
  unfold has_child. rewrite keys_app, existsb_app. simpl. rewrite orb_false_r. reflexivity.
Qed.

Lemma has_child_middle (d k : Z) (l1 l2 : list (Z * DigitTree)) (c c' : DigitTree) :
  has_child d (l1 ++ (k, c) :: l2) = has_child d (l1 ++ (k, c') :: l2).
Proof. unfold has_child. rewrite !keys_app. reflexivity. Qed.

Lemma leading_zero_digit (c : char) (r : string) (d : Z) :
  leading_zero (String c r) = false -> is_digit c = true -> int_of_char c = Some d ->
  (0 =? d) = false.
Proof.
  intros Hz Hi Hc. apply Z.eqb_neq. intros <-.
  apply is_digit_true in Hi. destruct Hi as (d & Hc' & Hs).
  assert (d = 0) by congruence. subst d. injection Hs as <-. discriminate.
Qed.

(** Inserting an identifier without leading zero at the root leaves the
    root without child tree for the digit 0. *)
Lemma add_node_no_zero (cs : list (Z * DigitTree)) (p : string) (tm : bool) (u : Z)
      (cv : number) (rest : string) :
  wfb (mkDigitTree cs p tm u cv) = true -> all_digits rest = true ->
  leading_zero rest = false -> has_child 0 cs = false ->
  has_child 0 (childs (fst (add_node (mkDigitTree cs p tm u cv) (p ++ rest)))) = false.
Proof.
  intros Hw Hd Hz H0.
  destruct (add_node_step cs p tm u cv rest Hw Hd)
    as [[-> ->] | (c & r & d & -> & Hc & Hr & E &
                   [[Hg ->] | (l1 & ch & l2 & -> & Hn & Hp & Hwc & ->)])];
    simpl fst; simpl childs.
  - assumption.
  - rewrite has_child_snoc, H0,
      (leading_zero_digit c r d Hz (proj1 (andb_prop _ _ Hd)) Hc).
    reflexivity.
  - rewrite (has_child_middle 0 d l1 l2 _ ch). assumption.
Qed.

(** * Building a trie from a list *)

(** One round of the loop of [from_list], at the root. *)
Lemma add_nodes_cons (t : DigitTree) (s : string) (rest : list string) :
  wfb t = true -> prefix t = "" -> all_digits s = true ->
  exists t1,
    add_node t s = (t1, None) /\ add_nodes t (s :: rest) = add_nodes t1 rest /\
    wfb t1 = true /\ prefix t1 = "" /\
    (forall x, found t1 x = (x =? s)%str || found t x) /\
    nterm t1 = nterm t + (if found t s then 0 else 1) /\
    (forall node_len, len s = node_len ->
                      full node_len t = true \/ (childs t = [] /\ terminal t = false) ->
                      full node_len t1 = true) /\
    (leading_zero s = false -> has_child 0 (childs t) = false ->
     has_child 0 (childs t1) = false).
Proof.
  intros Hw Hp Hd.
  pose proof (add_node_ok t s Hw Hd) as Hok.
  pose proof (add_node_wf t s Hw) as Hw1.
  pose proof (add_node_prefix t s) as Hp1.
  pose proof (fun x => add_node_found t s x Hw Hd) as Hfd.
  pose proof (add_node_nterm t s Hw Hd) as Hnt.
  pose proof (fun node_len => add_node_full node_len t s Hw Hd) as Hfu.
  assert (Hz : leading_zero s = false -> has_child 0 (childs t) = false ->
               has_child 0 (childs (fst (add_node t (prefix t ++ s)))) = false).
  { destruct t as [cs p tm u cv]. apply add_node_no_zero; assumption. }
  rewrite Hp in *. simpl sappend in *. change (len "") with 0 in Hfu.
  simpl add_nodes. destruct (add_node t s) as [t1 o]. simpl in *. subst o.
  exists t1. repeat split; auto.
Qed.

Lemma add_nodes_ok (ids : list string) :
  forall t, wfb t = true -> prefix t = "" -> Forall (fun s => all_digits s = true) ids ->
            snd (add_nodes t ids) = None.
Proof.
  induction ids as [|s ids IH]; intros t Hw Hp Hd; [reflexivity|].
  apply Forall_cons_iff in Hd; destruct Hd as [H1 Hd].
  destruct (add_nodes_cons t s ids Hw Hp H1) as (t1 & _ & -> & Hw1 & Hp1 & _). auto.
Qed.

Lemma add_nodes_found (ids : list string) :
  forall t x, wfb t = true -> prefix t = "" -> Forall (fun s => all_digits s = true) ids ->
              found (fst (add_nodes t ids)) x = existsb (seqb x) ids || found t x.
Proof.
  induction ids as [|s ids IH]; intros t x Hw Hp Hd; [reflexivity|].
  apply Forall_cons_iff in Hd; destruct Hd as [H1 Hd].
  destruct (add_nodes_cons t s ids Hw Hp H1) as (t1 & _ & -> & Hw1 & Hp1 & Hf & _).
  rewrite IH, Hf by assumption. simpl.
  destruct (x =? s)%str, (existsb (seqb x) ids); reflexivity.
Qed.

Lemma add_nodes_nterm (ids : list string) :
  forall t, wfb t = true -> prefix t = "" -> Forall (fun s => all_digits s = true) ids ->
            NoDup ids -> (forall s, In s ids -> found t s = false) ->
            nterm (fst (add_nodes t ids)) = nterm t + Z.of_nat (List.length ids).
Proof.
  induction ids as [|s ids IH]; intros t Hw Hp Hd Hnd Hnew; [simpl; lia|].
  apply Forall_cons_iff in Hd; destruct Hd as [H1 Hd]. inversion Hnd; subst.
  destruct (add_nodes_cons t s ids Hw Hp H1) as (t1 & _ & -> & Hw1 & Hp1 & Hf & Hn & _).
  rewrite IH, Hn; auto.
  - rewrite (Hnew s (or_introl eq_refl)). simpl List.length. lia.
  - intros x Hx. rewrite Hf, (Hnew x (or_intror Hx)).
    replace (x =? s)%str with false; [reflexivity|].
    symmetry. apply seqb_neq. intros ->. contradiction.
Qed.

Lemma add_nodes_full (node_len : Z) (ids : list string) :
  forall t, wfb t = true -> prefix t = "" -> Forall (fun s => all_digits s = true) ids ->
            Forall (fun s => len s = node_len) ids ->
            full node_len t = true \/ (childs t = [] /\ terminal t = false /\ ids <> []) ->
            full node_len (fst (add_nodes t ids)) = true.
Proof.
  induction ids as [|s ids IH]; intros t Hw Hp Hd Hl Hf.
  - destruct Hf as [Hf | (_ & _ & Hf)]; [assumption | congruence].
  - apply Forall_cons_iff in Hd; destruct Hd as [H1 Hd]. apply Forall_cons_iff in Hl; destruct Hl as [Hl1 Hl].
    destruct (add_nodes_cons t s ids Hw Hp H1) as (t1 & _ & -> & Hw1 & Hp1 & _ & _ & Hfu & _).
    apply IH; auto. left. apply Hfu; [assumption|]. tauto.
Qed.

Lemma add_nodes_no_zero (ids : list string) :
  forall t, wfb t = true -> prefix t = "" -> Forall (fun s => all_digits s = true) ids ->
            Forall (fun s => leading_zero s = false) ids ->
            has_child 0 (childs t) = false ->
            has_child 0 (childs (fst (add_nodes t ids))) = false.
Proof.
  induction ids as [|s ids IH]; intros t Hw Hp Hd Hz H0; [assumption|].
  apply Forall_cons_iff in Hd; destruct Hd as [H1 Hd]. apply Forall_cons_iff in Hz; destruct Hz as [Hz1 Hz].
  destruct (add_nodes_cons t s ids Hw Hp H1) as (t1 & _ & -> & Hw1 & Hp1 & _ & _ & _ & Hnz).
  apply IH; auto.
Qed.

(** Only strings of digits can be inserted at the root. *)
Lemma add_nodes_digits (ids : list string) :
  forall t, wfb t = true -> prefix t = "" -> snd (add_nodes t ids) = None ->
            Forall (fun s => all_digits s = true) ids.
Proof.
  induction ids as [|s ids IH]; intros t Hw Hp Hok; [constructor|].
  destruct (all_digits s) eqn:Hd.
  - destruct (add_nodes_cons t s ids Hw Hp Hd) as (t1 & _ & E & Hw1 & Hp1 & _).
    rewrite E in Hok. constructor; eauto.
  - pose proof (add_node_malformed t s Hw Hd) as H. rewrite Hp in H. simpl sappend in H.
    simpl in Hok. destruct (add_node t s) as [t1 o]. simpl in H.
    destruct H as [-> | ->]; discriminate.
Qed.

(** The accounting pass changes no lookup. *)
Lemma account_found (node_len : Z) (t : DigitTree) (s : string) :
  found (account node_len t) s = found t s.
Proof.
  induction t as [cs p tm u cv IH] using DigitTree_ind.
  simpl account. rewrite !found_eq.
  destruct (p =? s)%str; [reflexivity|].
  destruct (sget _ s) as [ch|]; [|reflexivity].
  destruct (int_of_char ch) as [d|]; [|reflexivity].
  rewrite account_get_child.
  destruct (get_child d cs) as [c|] eqn:Eg; simpl; [|reflexivity].
  apply get_child_In in Eg. rewrite Forall_forall in IH. apply (IH _ Eg).
Qed.

Lemma account_used (node_len : Z) (t : DigitTree) : used (account node_len t) = nterm t.
Proof.
  induction t as [cs p tm u cv IH] using DigitTree_ind.
  simpl account. simpl used. rewrite nterm_eq.
  assert (E : Zsum (child_used (map (fun kc => (fst kc, account node_len (snd kc))) cs)) =
              Zsum (map (fun kc => nterm (snd kc)) cs)).
  { unfold child_used. rewrite map_map.
    induction IH as [|kc l H _ IHl]; simpl in *; [reflexivity | congruence]. }
  rewrite E. destruct tm; lia.
Qed.

(** * Counting the yielded values *)

Lemma cnt_gen_app (g1 g2 : gen) :
  snd g1 = None -> snd (gen_app g1 g2) = snd g2 /\ cnt (gen_app g1 g2) = cnt g1 + cnt g2.
Proof.
  unfold gen_app, cnt. intros ->. simpl. rewrite List.length_app. split; [reflexivity | lia].
Qed.

Lemma gen_concat_ok (gs : list gen) :
  Forall (fun g => snd g = None) gs ->
  snd (gen_concat gs) = None /\ cnt (gen_concat gs) = Zsum (map cnt gs).
Proof.
  induction 1 as [|g gs Hg _ [IH1 IH2]]; simpl; [split; reflexivity|].
  destruct (cnt_gen_app g (gen_concat gs) Hg) as [-> ->]. split; [assumption | lia].
Qed.

Lemma Zsum_map_add (A : Type) (f g : A -> Z) (l : list A) :
  Zsum (map (fun x => f x + g x) l) = Zsum (map f l) + Zsum (map g l).
Proof. induction l; simpl; lia. Qed.

Lemma Zsum_map_perm (f : Z -> Z) (l l' : list Z) :
  Permutation l l' -> Zsum (map f l) = Zsum (map f l').
Proof. induction 1; simpl; lia. Qed.

Lemma Zsum_map_const_sub (A : Type) (B : Z) (g : A -> Z) (l : list A) :
  Zsum (map (fun x => B - g x) l) = Z.of_nat (List.length l) * B - Zsum (map g l).
Proof. induction l; simpl Zsum; simpl List.length; simpl map; [|simpl Zsum]; lia. Qed.

Lemma range_10 : range 10 = [0; 1; 2; 3; 4; 5; 6; 7; 8; 9].
Proof. reflexivity. Qed.

(** The digits that have a child tree, counted over [range(10)]. *)
Lemma count_keys (l : list Z) :
  NoDup l -> Forall (fun k => 0 <= k <= 9) l ->
  Zsum (map (fun d => Z.b2z (existsb (Z.eqb d) l)) (range 10)) = Z.of_nat (List.length l).
Proof.
  induction 1 as [|x l Hx Hnd IH]; intros Hr; [reflexivity|].
  apply Forall_cons_iff in Hr. destruct Hr as [Hx9 Hr].
  rewrite (map_ext _ (fun d => Z.b2z (d =? x) + Z.b2z (existsb (Z.eqb d) l))).
  - rewrite Zsum_map_add, (IH Hr). simpl List.length.
    assert (E : Zsum (map (fun d => Z.b2z (d =? x)) (range 10)) = 1).
    { apply digit_cases in Hx9. repeat (destruct Hx9 as [-> | Hx9]; [reflexivity|]).
      subst. reflexivity. }
    lia.
  - intros d. simpl existsb. destruct (Z.eqb_spec d x) as [-> | Hne]; simpl orb.
    + replace (existsb (Z.eqb x) l) with false; [reflexivity|].
      symmetry. destruct (existsb (Z.eqb x) l) eqn:E; [|reflexivity].
      apply existsb_exists in E. destruct E as [y [Hy E]].
      apply Z.eqb_eq in E. subst. contradiction.
    + simpl. reflexivity.
Qed.

Lemma block_count (p : string) (B digit : Z) :
  1 <= B -> snd (block p (Int B) digit) = None /\ cnt (block p (Int B) digit) = B.
Proof.
  intros HB. unfold block, cnt. destruct (B =? 1) eqn:E; simpl.
  - apply Z.eqb_eq in E. auto.
  - rewrite length_map, range_length. split; [reflexivity | lia].
Qed.

Lemma ite_b2z (b : bool) (x : Z) : (if b then 0 else x) = x - Z.b2z b * x.
Proof. destruct b; simpl Z.b2z; lia. Qed.

(** The second loop of [_rec_availabe] yields one block for every digit
    without child tree, except for the digit 0 at the root. *)
Lemma missing_digits_count (cs : list (Z * DigitTree)) (p : string) (c0 : DigitTree) (B : Z) :
  covers c0 = Int B -> 1 <= B ->
  NoDup (keys cs) -> Forall (fun k => 0 <= k <= 9) (keys cs) ->
  snd (missing_digits cs p (Some c0)) = None /\
  cnt (missing_digits cs p (Some c0)) =
  B * (10 - Z.of_nat (List.length cs))
  - (if (p =? "")%str && negb (has_child 0 cs) then B else 0).
Proof.
  intros Hc HB Hnd Hr. unfold missing_digits. rewrite Hc.
  match goal with
  | |- context [gen_concat (map ?G (range 10))] => set (g := G)
  end.
  assert (Hg : forall d, snd (g d) = None /\
                         cnt (g d) = if has_child d cs then 0
                                     else if (p =? "")%str && (d =? 0) then 0 else B).
  { intros d. unfold g. destruct (has_child d cs); [split; reflexivity|].
    destruct ((p =? "")%str && (d =? 0)); [split; reflexivity|].
    apply block_count. assumption. }
  destruct (gen_concat_ok (map g (range 10))) as [H1 H2].
  { apply Forall_forall. intros x Hx. apply in_map_iff in Hx.
    destruct Hx as [d [<- _]]. apply Hg. }
  split; [assumption|]. rewrite H2, map_map.
  rewrite (map_ext _ _ (fun d => proj2 (Hg d))).
  pose proof (count_keys (keys cs) Hnd Hr) as M.
  unfold keys in M at 2. rewrite length_map in M. rewrite <- M.
  fold (has_child 0 cs). rewrite range_10. cbn [map Zsum fold_right Z.eqb].
  change (existsb (Z.eqb 0) (keys cs)) with (has_child 0 cs).
  change (existsb (Z.eqb 1) (keys cs)) with (has_child 1 cs).
  change (existsb (Z.eqb 2) (keys cs)) with (has_child 2 cs).
  change (existsb (Z.eqb 3) (keys cs)) with (has_child 3 cs).
  change (existsb (Z.eqb 4) (keys cs)) with (has_child 4 cs).
  change (existsb (Z.eqb 5) (keys cs)) with (has_child 5 cs).
  change (existsb (Z.eqb 6) (keys cs)) with (has_child 6 cs).
  change (existsb (Z.eqb 7) (keys cs)) with (has_child 7 cs).
  change (existsb (Z.eqb 8) (keys cs)) with (has_child 8 cs).
  change (existsb (Z.eqb 9) (keys cs)) with (has_child 9 cs).
  rewrite !andb_false_r, andb_true_r.
  rewrite !(ite_b2z _ B).
  destruct (has_child 0 cs), (p =? "")%str; simpl negb; simpl andb; simpl Z.b2z; ring.
Qed.

Lemma rec_availabe_eq_ne (cs : list (Z * DigitTree)) (p : string) (tm : bool) (u : Z)
      (cv : number) :
  cs <> [] ->
  _rec_availabe (mkDigitTree cs p tm u cv) =
  gen_app (gen_concat (map (from_child cs) (visit_order cs)))
          (missing_digits cs p (first_child cs)).
Proof. intros H. rewrite rec_availabe_eq. destruct cs; [congruence | reflexivity]. Qed.

Lemma keys_In (cs : list (Z * DigitTree)) (k : Z) :
  In k (keys cs) -> exists c, In (k, c) cs.
Proof.
  unfold keys. rewrite in_map_iff. intros [[k0 c] [E H]]. simpl in E. subst. eauto.
Qed.

Lemma first_child_Some (cs : list (Z * DigitTree)) :
  cs <> [] -> exists k c, first_child cs = Some c /\ In (k, c) cs.
Proof.
  intros Hne. unfold first_child. destruct (visit_order cs) as [|k l] eqn:E.
  - exfalso. apply Hne. destruct cs as [|kc cs]; [reflexivity|].
    assert (H : In (fst kc) (visit_order (kc :: cs))) by (apply visit_order_In; simpl; auto).
    rewrite E in H. contradiction.
  - assert (H : In k (keys cs)) by (apply visit_order_In; rewrite E; simpl; auto).
    destruct (get_child k cs) as [c|] eqn:Eg.
    + exists k, c. split; [reflexivity | apply get_child_In; assumption].
    + apply get_child_None in Eg. contradiction.
Qed.

Lemma prefix_child_nonempty (p : string) (k : Z) :
  0 <= k <= 9 -> (p ++ str k =? "")%str = false.
Proof.
  intros Hk. apply seqb_neq. intros H.
  assert (E : len (p ++ str k) = len "") by congruence.
  rewrite len_app, (len_str_digit k Hk) in E. change (len "") with 0 in E.
  pose proof (len_nonneg p). lia.
Qed.

(** The number of values yielded from a node of a full trie: what the node
    covers, less what is used below it, less the block of the digit 0 at
    the root when the root has no child tree for it. *)
Lemma rec_availabe_count (node_len : Z) (t : DigitTree) :
  wfb t = true -> full node_len t = true ->
  snd (_rec_availabe (account node_len t)) = None /\
  cnt (_rec_availabe (account node_len t)) =
  10 ^ (node_len - len (prefix t)) - nterm t
  - match childs t with
    | [] => 0
    | _ => if (prefix t =? "")%str && negb (has_child 0 (childs t))
           then 10 ^ (node_len - len (prefix t) - 1) else 0
    end.
Proof.
  induction t as [cs p tm u cv IH] using DigitTree_ind. intros Hw Hf.
  apply wfb_iff in Hw. destruct Hw as [Hnd Hcs]. apply full_iff in Hf.
  simpl prefix. simpl childs. rewrite nterm_eq.
  destruct Hf as [(-> & -> & Hl) | (Hne & -> & Hl & Hfc)].
  - simpl. replace (node_len - len p) with 0 by lia. split; reflexivity.
  - simpl account.
    set (cs' := map (fun kc => (fst kc, account node_len (snd kc))) cs).
    set (B := 10 ^ (node_len - len p - 1)).
    assert (HB : 1 <= B).
    { assert (0 < B) by (apply Z.pow_pos_nonneg; lia). lia. }
    assert (Hpow : 10 ^ (node_len - len p) = 10 * B).
    { unfold B. rewrite <- Z.pow_succ_r by lia. f_equal. lia. }
    assert (Hne' : cs' <> []).
    { unfold cs'. destruct cs; [congruence | discriminate]. }
    assert (Hk' : keys cs' = keys cs) by apply account_keys.
    rewrite Forall_forall in IH, Hcs, Hfc.
    assert (Hch : forall k c, In (k, c) cs ->
                    from_child cs' k = _rec_availabe (account node_len c) /\
                    snd (_rec_availabe (account node_len c)) = None /\
                    cnt (_rec_availabe (account node_len c)) = B - nterm c /\
                    covers (account node_len c) = Int B).
    { intros k c Hin. destruct (Hcs _ Hin) as (Hk & Hp & Hwc). simpl in Hk, Hp, Hwc.
      destruct (IH _ Hin Hwc (Hfc _ Hin)) as [I1 I2]. simpl snd in I1, I2.
      assert (El : node_len - len (prefix c) = node_len - len p - 1).
      { rewrite Hp, len_app, (len_str_digit k Hk). lia. }
      repeat split.
      - unfold from_child, cs'. rewrite account_get_child.
        rewrite (get_child_unique k cs c Hnd Hin). reflexivity.
      - assumption.
      - rewrite I2, El. fold B. rewrite Hp, (prefix_child_nonempty p k Hk).
        destruct (childs c); simpl andb; cbv iota; lia.
      - rewrite account_covers, El. unfold pow10.
        replace (0 <=? node_len - len p - 1) with true by (symmetry; apply Z.leb_le; lia).
        reflexivity. }
    rewrite rec_availabe_eq_ne by assumption.
    destruct (gen_concat_ok (map (from_child cs') (visit_order cs'))) as [G1 G2].
    { apply Forall_forall. intros g Hg. apply in_map_iff in Hg. destruct Hg as [k [<- Hk]].
      apply visit_order_In in Hk. rewrite Hk' in Hk. apply keys_In in Hk.
      destruct Hk as [c Hin]. destruct (Hch k c Hin) as (-> & H & _). assumption. }
    destruct (first_child_Some cs' Hne') as (k0 & c0' & Hfst & Hin0).
    apply account_child_In in Hin0. destruct Hin0 as (c0 & Hin0 & ->).
    destruct (Hch k0 c0 Hin0) as (_ & _ & _ & Hcov).
    destruct (missing_digits_count cs' p (account node_len c0) B Hcov HB) as [M1 M2].
    { rewrite Hk'. assumption. }
    { rewrite Hk'. apply Forall_forall. intros k Hk. apply keys_In in Hk.
      destruct Hk as [c Hin]. apply (Hcs _ Hin). }
    rewrite Hfst.
    destruct (cnt_gen_app (gen_concat (map (from_child cs') (visit_order cs')))
                          (missing_digits cs' p (Some (account node_len c0))) G1) as [-> ->].
    split; [assumption|].
    rewrite G2, M2, map_map. unfold visit_order at 1.
    rewrite (Zsum_map_perm (fun k => cnt (from_child cs' k)) _ _
                           (sorted_desc_perm (used_of cs') (keys cs'))).
    rewrite Hk'. unfold keys at 1. rewrite map_map.
    rewrite (map_ext_in _ (fun kc => B - nterm (snd kc))).
    + rewrite Zsum_map_const_sub. unfold cs' at 1. rewrite length_map.
      replace (has_child 0 cs') with (has_child 0 cs)
        by (unfold has_child; rewrite Hk'; reflexivity).
      rewrite Hpow. destruct cs as [|kc0 cs0]; [congruence|].
      destruct ((p =? "")%str && negb (has_child 0 (kc0 :: cs0))); ring.
    + intros [k c] Hin. simpl fst. simpl snd.
      destruct (Hch k c Hin) as (-> & _ & -> & _). reflexivity.
Qed.

(** * The visiting order *)

Section SortedDescFacts.
Variable key : Z -> Z.

Lemma insert_desc_sorted (x : Z) (l : list Z) :
  StronglySorted (desc key) l -> StronglySorted (desc key) (insert_desc key x l).
Proof.
  induction 1 as [|y l Hs IH Hy]; simpl; [repeat constructor|].
  destruct (key x <? key y) eqn:E.
  - apply Z.ltb_lt in E. constructor; [assumption|].
    apply (Permutation_Forall (x := x :: l)).
    + symmetry. apply insert_desc_perm.
    + constructor; [unfold desc; lia | assumption].
  - apply Z.ltb_ge in E. constructor; [constructor; assumption|].
    constructor; [exact E|].
    rewrite Forall_forall in *. intros z Hz. specialize (Hy z Hz). unfold desc in *. lia.
Qed.

Lemma sorted_desc_sorted (l : list Z) : StronglySorted (desc key) (sorted_desc key l).
Proof.
  induction l as [|x l IH]; simpl; [constructor | apply insert_desc_sorted; assumption].
Qed.

Lemma insert_desc_stable (u x : Z) (l : list Z) :
  filter (fun k => key k =? u) (insert_desc key x l) =
  filter (fun k => key k =? u) (x :: l).
Proof.
  induction l as [|y l IH]; [reflexivity|]. simpl insert_desc.
  destruct (key x <? key y) eqn:E; [|reflexivity].
  apply Z.ltb_lt in E. simpl filter in *. rewrite IH.
  destruct (key x =? u) eqn:Ex, (key y =? u) eqn:Ey; try reflexivity.
  apply Z.eqb_eq in Ex, Ey. lia.
Qed.

Lemma sorted_desc_stable (u : Z) (l : list Z) :
  filter (fun k => key k =? u) (sorted_desc key l) = filter (fun k => key k =? u) l.
Proof.
  induction l as [|x l IH]; [reflexivity|]. simpl sorted_desc.
  rewrite insert_desc_stable. simpl. rewrite IH. reflexivity.
Qed.

Lemma sorted_prefix (l1 : list Z) (a : Z) (r : list Z) :
  StronglySorted (desc key) (l1 ++ a :: r) -> forall x, In x l1 -> desc key x a.
Proof.
  induction l1 as [|y l1 IH]; simpl; intros Hs x Hx; [contradiction|].
  inversion Hs; subst. destruct Hx as [-> | Hx]; [|auto].
  rewrite Forall_forall in H2. apply H2. apply in_or_app. simpl. auto.
Qed.

(** In a descending list, an element with a strictly greater key comes
    first. *)
Lemma sorted_before (l : list Z) (a b : Z) :
  StronglySorted (desc key) l -> In a l -> In b l -> key b < key a ->
  exists l1 l2 l3, l = (l1 ++ a :: l2 ++ b :: l3)%list.
Proof.
  intros Hs Ha Hb Hk. apply in_split in Ha. destruct Ha as (l1 & r & ->).
  apply in_app_or in Hb. destruct Hb as [Hb | [-> | Hb]].
  - exfalso. pose proof (sorted_prefix l1 a r Hs b Hb) as H. unfold desc in H. lia.
  - lia.
  - apply in_split in Hb. destruct Hb as (l2 & l3 & ->). eauto.
Qed.
End SortedDescFacts.

Lemma gen_app_None (g1 g2 : gen) :
  snd (gen_app g1 g2) = None ->
  snd g1 = None /\ snd g2 = None /\ fst (gen_app g1 g2) = (fst g1 ++ fst g2)%list.
Proof.
  unfold gen_app. destruct (snd g1) eqn:E; simpl; [congruence | auto].
Qed.

Lemma gen_concat_None (gs : list gen) :
  snd (gen_concat gs) = None -> fst (gen_concat gs) = List.concat (map fst gs).
Proof.
  induction gs as [|g gs IH]; simpl; [reflexivity|].
  intros H. apply gen_app_None in H. destruct H as (_ & H & ->). rewrite IH; auto.
Qed.

(** The values of a child with strictly greater [used] come first. *)
Lemma rec_availabe_priority (t : DigitTree) (a b : Z) (ca cb : DigitTree) :
  get_child a (childs t) = Some ca -> get_child b (childs t) = Some cb ->
  used cb < used ca -> snd (_rec_availabe t) = None ->
  exists l1 l2 l3,
    fst (_rec_availabe t) =
    (l1 ++ fst (_rec_availabe ca) ++ l2 ++ fst (_rec_availabe cb) ++ l3)%list.
Proof.
  destruct t as [cs p tm u cv]. simpl childs. intros Ha Hb Hu Hok.
  assert (Hne : cs <> []) by (intros ->; discriminate).
  rewrite rec_availabe_eq_ne in * by assumption.
  apply gen_app_None in Hok. destruct Hok as (H1 & _ & ->).
  rewrite (gen_concat_None _ H1).
  destruct (sorted_before (used_of cs) (visit_order cs) a b) as (o1 & o2 & o3 & E).
  - apply sorted_desc_sorted.
  - apply visit_order_In. apply get_child_In in Ha.
    change a with (fst (a, ca)). apply in_map. assumption.
  - apply visit_order_In. apply get_child_In in Hb.
    change b with (fst (b, cb)). apply in_map. assumption.
  - unfold used_of. rewrite Ha, Hb. assumption.
  - rewrite E. rewrite !map_app. simpl map. rewrite !map_app. simpl map.
    rewrite !concat_app. simpl List.concat. rewrite !concat_app. simpl List.concat.
    unfold from_child at 2 4. rewrite Ha, Hb.
    rewrite <- !List.app_assoc. eexists _, _, _. reflexivity.
Qed.

(** * Tries built by [from_list] and accounted *)

Lemma full_lengths_ok (node_len : Z) (t : DigitTree) :
  full node_len t = true -> lengths_ok node_len t = true.
Proof.
  induction t as [cs p tm u cv IH] using DigitTree_ind. intros Hf.
  apply full_iff in Hf. simpl. apply andb_true_iff.
  destruct Hf as [(-> & -> & Hl) | (_ & -> & _ & Hfc)].
  - split; [apply Z.eqb_eq; assumption | reflexivity].
  - split; [reflexivity|]. apply forallb_forall. rewrite Forall_forall in *. auto.
Qed.

Lemma find_node_nodes (t : DigitTree) (s : string) (n : DigitTree) :
  find_node t s = Ok (Some n) -> In n (nodes t) /\ terminal n = true /\ prefix n = s.
Proof.
  induction t as [cs p tm u cv IH] using DigitTree_ind. rewrite find_node_eq.
  destruct (seqb_spec p s) as [-> | Hne].
  - destruct tm; intros H; [|discriminate]. injection H as <-. simpl. auto.
  - destruct cs as [|kc0 cs0]; [discriminate|]. remember (kc0 :: cs0) as cs.
    destruct (sget _ s) as [ch|]; [|discriminate].
    destruct (int_of_char ch) as [d|]; [|discriminate].
    destruct (get_child d cs) as [c|] eqn:Eg; [|discriminate].
    apply get_child_In in Eg. rewrite Forall_forall in IH. intros H.
    destruct (IH _ Eg H) as (H1 & H2 & H3). repeat split; auto.
    simpl. right. apply in_flat_map. exists (d, c). auto.
Qed.

Lemma found_nodes (t : DigitTree) (s : string) :
  found t s = true -> exists n, In n (nodes t) /\ terminal n = true /\ prefix n = s.
Proof.
  unfold found. destruct (find_node t s) as [[n|]|] eqn:E; try discriminate.
  intros _. exists n. apply find_node_nodes. assumption.
Qed.

(** What is known of a trie that [from_list] built and [populate_used]
    accepted. *)
Lemma from_list_accounted (ids : list string) (node_len : Z) (t t' : DigitTree) :
  from_list ids = (t, None) -> populate_used node_len t = (t', None) ->
  wfb t = true /\ prefix t = "" /\ t' = account node_len t /\
  Forall (fun s => all_digits s = true) ids /\
  (forall s, found t s = existsb (seqb s) ids) /\
  Forall (fun s => len s = node_len) ids /\
  (ids = [] /\ t = new_tree "" \/ ids <> [] /\ full node_len t = true).
Proof.
  intros Hb Hp. unfold from_list in Hb.
  assert (Hw0 : wfb (new_tree "") = true) by reflexivity.
  assert (Hp0 : prefix (new_tree "") = "") by reflexivity.
  pose proof (add_nodes_wf ids (new_tree "") Hw0) as Hw.
  pose proof (add_nodes_prefix ids (new_tree "")) as Hpre.
  assert (Hd : Forall (fun s => all_digits s = true) ids).
  { apply (add_nodes_digits ids (new_tree "") Hw0 Hp0). rewrite Hb. reflexivity. }
  pose proof (fun x => add_nodes_found ids (new_tree "") x Hw0 Hp0 Hd) as Hf.
  pose proof (add_nodes_full node_len ids (new_tree "") Hw0 Hp0 Hd) as Hfull.
  rewrite Hb in *. simpl fst in *.
  apply populate_used_spec in Hp. destruct Hp as [Hl ->].
  assert (Hf' : forall s, found t s = existsb (seqb s) ids).
  { intros s. rewrite Hf. unfold new_tree. rewrite found_eq.
    destruct ("" =? s)%str; [apply orb_false_r|].
    destruct (sget _ s) as [ch|]; [|apply orb_false_r].
    destruct (int_of_char ch); apply orb_false_r. }
  assert (Hlen : Forall (fun s => len s = node_len) ids).
  { apply Forall_forall. intros s Hs.
    assert (E : found t s = true).
    { rewrite Hf'. apply existsb_exists. exists s. split; [assumption | apply seqb_refl]. }
    apply found_nodes in E. destruct E as (n & Hn & Ht & <-).
    apply (proj1 (lengths_ok_nodes node_len t) Hl n Hn Ht). }
  repeat split; auto.
  destruct ids as [|s ids].
  - left. simpl in Hb. injection Hb as <-. auto.
  - right. split; [discriminate|]. apply Hfull; [assumption|].
    right. repeat split. discriminate.
Qed.

Lemma gen_concat_all_None (gs : list gen) :
  snd (gen_concat gs) = None -> Forall (fun g => snd g = None) gs.
Proof.
  induction gs as [|g gs IH]; simpl; [constructor|].
  intros H. apply gen_app_None in H. destruct H as (H1 & H2 & _). auto.
Qed.

(** What a node yields is a segment of what the trie yields. *)
Lemma rec_availabe_segment (t : DigitTree) (n : DigitTree) :
  wfb t = true -> snd (_rec_availabe t) = None -> In n (nodes t) ->
  snd (_rec_availabe n) = None /\
  exists pre post, fst (_rec_availabe t) = (pre ++ fst (_rec_availabe n) ++ post)%list.
Proof.
  induction t as [cs p tm u cv IH] using DigitTree_ind. intros Hw Hok Hn.
  simpl in Hn. destruct Hn as [<- | Hn].
  - split; [assumption|]. exists [], []. rewrite List.app_nil_r. reflexivity.
  - apply in_flat_map in Hn. destruct Hn as [[k c] [Hin Hn]]. simpl in Hn.
    apply wfb_iff in Hw. destruct Hw as [Hnd Hcs]. rewrite Forall_forall in IH, Hcs.
    destruct (Hcs _ Hin) as (_ & _ & Hwc). simpl in Hwc.
    assert (Hne : cs <> []) by (intros ->; contradiction).
    rewrite rec_availabe_eq_ne in * by assumption.
    apply gen_app_None in Hok. destruct Hok as (H1 & _ & ->).
    rewrite (gen_concat_None _ H1). apply gen_concat_all_None in H1.
    assert (Hk : In k (visit_order cs)).
    { apply visit_order_In. change k with (fst (k, c)). apply in_map. assumption. }
    apply in_split in Hk. destruct Hk as (o1 & o2 & E). rewrite E in *.
    rewrite map_app in H1. simpl map in H1. apply Forall_app in H1. destruct H1 as [_ H1].
    apply Forall_cons_iff in H1. destruct H1 as [H1 _].
    unfold from_child in H1 at 1. rewrite (get_child_unique k cs c Hnd Hin) in H1.
    destruct (IH _ Hin Hwc H1 Hn) as [Hnone (pre & post & Eseg)]. simpl snd in Eseg.
    split; [assumption|].
    rewrite !map_app. simpl map. rewrite concat_app. simpl List.concat.
    unfold from_child at 2. rewrite (get_child_unique k cs c Hnd Hin), Eseg.
    exists (List.concat (map fst (map (from_child cs) o1)) ++ pre)%list,
      (post ++ List.concat (map fst (map (from_child cs) o2))
            ++ fst (missing_digits cs p (first_child cs)))%list.
    rewrite <- !List.app_assoc. reflexivity.
Qed.

(** The enumeration of a trie that [from_list] built and [populate_used]
    accepted raises nothing. *)
Lemma from_list_rec_availabe_ok (ids : list string) (node_len : Z) (t t' : DigitTree) :
  from_list ids = (t, None) -> populate_used node_len t = (t', None) ->
  wfb t' = true /\ snd (_rec_availabe t') = None.
Proof.
  intros Hb Hp.
  destruct (from_list_accounted ids node_len t t' Hb Hp)
    as (Hw & _ & -> & _ & _ & _ & [[_ ->] | [_ Hfull]]).
  - split; reflexivity.
  - split; [apply account_wf; assumption|].
    apply (rec_availabe_count node_len t Hw Hfull).
Qed.

(** * The fuel of [add_fresh] never runs out *)

Lemma add_fresh_fuel (fuel : nat) :
  forall p node, (slength node <= fuel + slength p)%nat ->
                 snd (add_fresh fuel p node) <> Some OutOfFuel.
Proof.
  induction fuel as [|fuel IH]; intros p node Hf; rewrite add_fresh_eq; cbv zeta;
    destruct (common_prefix p node =? node)%str; try discriminate;
    destruct (negb (len p <? len node)) eqn:El; try discriminate;
    destruct (sget _ node) as [ch|]; try discriminate;
    destruct (int_of_char ch) as [d|] eqn:Ed; try discriminate.
  - apply negb_false_iff, Z.ltb_lt in El. unfold len in El. lia.
  - specialize (IH (p ++ str d) node).
    destruct (add_fresh fuel (p ++ str d) node) as [sub o]. cbn [snd] in *. apply IH.
    apply int_of_char_spec in Ed. rewrite length_app, (slength_str_digit d Ed). lia.
Qed.

Lemma add_node_fuel (t : DigitTree) (node : string) :
  snd (add_node t node) <> Some OutOfFuel.
Proof.
  induction t as [cs p tm u cv IH] using DigitTree_ind.
  rewrite add_node_eq. cbv zeta.
  destruct (common_prefix p node =? node)%str; try discriminate.
  destruct (negb (len p <? len node)); try discriminate.
  destruct (sget _ node) as [ch|]; try discriminate.
  destruct (int_of_char ch) as [d|] eqn:Ed; try discriminate.
  destruct (update_child _ d cs) as [[cs' o]|] eqn:Eu.
  - apply update_child_Some in Eu. destruct Eu as (l1 & c & l2 & -> & _ & _ & ->).
    rewrite Forall_app in IH. destruct IH as [_ IH]. inversion IH; subst. assumption.
  - pose proof (add_fresh_fuel (slength node) (p ++ str d) node) as H.
    destruct (add_fresh _ _ node) as [sub o]. simpl in *. apply H. lia.
Qed.

(** * The claims *)

Lemma In_existsb (s : string) (l : list string) :
  In s l <-> existsb (seqb s) l = true.
Proof.
  rewrite existsb_exists. split.
  - intros H. exists s. split; [assumption | apply seqb_refl].
  - intros [x [H E]]. apply seqb_eq in E. subst. assumption.
Qed.

(** C1 (code defect).  On the trie built from "1", "2", "3", "4" and
    accounted with length 1, as the test does, [available()] without seed
    runs the accounting pass with the length of the default seed "1000" and
    stops at its assertion before it yields anything; the values
    "5".."9" are yielded only when the seed has length 1.  The seed decides
    the length on a trie with nodes too. *)
Theorem available_without_seed_1234 :
  exists t t1,
    from_list ["1"; "2"; "3"; "4"] = (t, None) /\
    populate_used 1 t = (t1, None) /\
    childs t1 <> [] /\
    snd (available None t1) = ([], Some AssertionError) /\
    snd (available (Some "5") t1) = (["5"; "6"; "7"; "8"; "9"], None).
Proof.
  eexists _, _. split; [vm_compute; reflexivity|].
  split; [vm_compute; reflexivity|].
  split; [discriminate|]. split; vm_compute; reflexivity.
Qed.

(** C2, counterexample.  After "21" and then "11" are inserted, the
    children 2 and 1 of the root have the same [used], and 2 is visited
    first. *)
Lemma ties_ascending_counterexample :
  exists t t',
    from_list ["21"; "11"] = (t, None) /\ populate_used 2 t = (t', None) /\
    visit_order (childs t') = [2; 1] /\
    used_of (childs t') 2 = used_of (childs t') 1 /\
    ~ ties_ascending (childs t').
Proof.
  eexists _, _. split; [vm_compute; reflexivity|].
  split; [vm_compute; reflexivity|].
  split; [vm_compute; reflexivity|]. split; [vm_compute; reflexivity|].
  intros H. specialize (H [] 2 [] 1 [] eq_refl eq_refl). lia.
Qed.

(** C2, amended.  At every node the children are visited in the order of
    [used] descending, and children with equal [used] are visited in the
    order in which they were inserted into the dict. *)
Theorem visit_order_stable (cs : list (Z * DigitTree)) :
  Permutation (visit_order cs) (keys cs) /\
  StronglySorted (desc (used_of cs)) (visit_order cs) /\
  forall u, filter (fun k => used_of cs k =? u) (visit_order cs) =
            filter (fun k => used_of cs k =? u) (keys cs).
Proof.
  unfold visit_order. split; [apply sorted_desc_perm|].
  split; [apply sorted_desc_sorted|]. intros u. apply sorted_desc_stable.
Qed.

(** C9.  After a successful accounting pass for [node_len] on a well-formed
    trie, every node has [covers = 10 ** (node_len - len(prefix))], [used]
    is the sum of the [used] of its children plus one if it is terminal,
    [used <= covers], and its children have equal [covers]. *)
Theorem populate_used_invariant (node_len : Z) (t t' : DigitTree) :
  wfb t = true -> populate_used node_len t = (t', None) ->
  Forall (node_inv node_len) (nodes t').
Proof.
  intros Hw Hp. apply populate_used_spec in Hp. destruct Hp as [Hl ->].
  apply account_inv; assumption.
Qed.

Lemma populate_used_invariant_witness :
  wfb example_trie = true /\
  populate_used 4 example_trie = (example_accounted, None) /\
  Forall (node_inv 4) (nodes example_accounted).
Proof.
  split; [vm_compute; reflexivity|]. split; [vm_compute; reflexivity|].
  apply (populate_used_invariant 4 example_trie example_accounted);
    vm_compute; reflexivity.
Defined.

(** C6.  Every value yielded from a well-formed trie accounted with length
    [node_len] has length [node_len]. *)
Theorem available_length (node_len : Z) (t t' : DigitTree) :
  wfb t = true -> populate_used node_len t = (t', None) ->
  forall v, In v (fst (_rec_availabe t')) -> len v = node_len.
Proof.
  intros Hw Hp. apply populate_used_spec in Hp. destruct Hp as [_ ->].
  apply rec_availabe_len. assumption.
Qed.

Lemma available_length_witness :
  wfb example_trie = true /\
  populate_used 4 example_trie = (example_accounted, None) /\
  In "3000" (fst (_rec_availabe example_accounted)) /\
  len "3000" = 4.
Proof.
  split; [vm_compute; reflexivity|]. split; [vm_compute; reflexivity|].
  assert (H : In "3000" (fst (_rec_availabe example_accounted))).
  { apply In_existsb. vm_compute. reflexivity. }
  split; [exact H|].
  apply (available_length 4 example_trie example_accounted); trivial; vm_compute; reflexivity.
Defined.

(** C5.  For a trie that [from_list] built and [populate_used] accepted, no
    yielded value is found by [find_node], and none is one of the inserted
    identifiers. *)
Theorem available_disjoint (ids : list string) (node_len : Z) (t t' : DigitTree) :
  from_list ids = (t, None) -> populate_used node_len t = (t', None) ->
  forall v, In v (fst (_rec_availabe t')) -> find_node t' v = Ok None /\ ~ In v ids.
Proof.
  intros Hb Hp v Hv.
  destruct (from_list_rec_availabe_ok ids node_len t t' Hb Hp) as [Hw' _].
  destruct (from_list_accounted ids node_len t t' Hb Hp) as (_ & _ & -> & _ & Hf & _).
  destruct (rec_availabe_not_found _ Hw' v Hv) as [_ Hnf].
  split; [assumption|]. intros Hin.
  assert (E : found (account node_len t) v = true).
  { rewrite account_found, Hf. apply In_existsb. assumption. }
  unfold found in E. rewrite Hnf in E. discriminate.
Qed.

Lemma available_disjoint_witness :
  from_list example_ids = (example_trie, None) /\
  populate_used 4 example_trie = (example_accounted, None) /\
  In "3000" (fst (_rec_availabe example_accounted)) /\
  find_node example_accounted "3000" = Ok None /\ ~ In "3000" example_ids.
Proof.
  split; [vm_compute; reflexivity|]. split; [vm_compute; reflexivity|].
  assert (H : In "3000" (fst (_rec_availabe example_accounted))).
  { apply In_existsb. vm_compute. reflexivity. }
  split; [exact H|].
  apply (available_disjoint example_ids 4 example_trie example_accounted);
    trivial; vm_compute; reflexivity.
Defined.

Lemma seed_or_default_nonempty (seed : option string) :
  (seed_or_default seed =? "")%str = false.
Proof.
  unfold seed_or_default. destruct seed as [x|]; [|reflexivity].
  destruct (x =? "")%str eqn:E; [reflexivity | exact E].
Qed.

(** [available] on the empty trie: the seed becomes a used identifier and
    is never yielded. *)
Lemma available_empty_seed (seed : option string) :
  let s := seed_or_default seed in
  ~ In s (fst (snd (available seed (new_tree "")))) /\
  (all_digits s = true ->
   found (fst (available seed (new_tree ""))) s = true /\
   snd (snd (available seed (new_tree ""))) = None).
Proof.
  intros s. subst s. unfold available. cbv zeta. simpl childs.
  rewrite (seed_or_default_nonempty seed). simpl negb. cbv iota.
  set (s := seed_or_default seed).
  destruct (all_digits s) eqn:Hd.
  - destruct (add_nodes_cons (new_tree "") s [] eq_refl eq_refl Hd)
      as (t1 & Ea & _ & Hw1 & Hp1 & Hf & _ & Hfu & _).
    rewrite Ea.
    assert (Hfull : full (len s) t1 = true).
    { apply Hfu; [reflexivity|]. right. split; reflexivity. }
    rewrite (populate_used_ok (len s) t1 (full_lengths_ok _ _ Hfull)).
    simpl fst. simpl snd.
    assert (Hfound : found (account (len s) t1) s = true).
    { rewrite account_found, Hf, seqb_refl. reflexivity. }
    split.
    + intros Hin.
      destruct (rec_availabe_not_found _ (account_wf (len s) t1 Hw1) s Hin) as [_ Hnf].
      unfold found in Hfound. rewrite Hnf in Hfound. discriminate.
    + intros _. split; [assumption|].
      apply (rec_availabe_count (len s) t1 Hw1 Hfull).
  - pose proof (add_node_malformed (new_tree "") s eq_refl Hd) as H.
    simpl prefix in H. simpl sappend in H.
    destruct (add_node (new_tree "") s) as [t1 o]. simpl in H.
    destruct H as [-> | ->]; simpl; (split; [tauto | discriminate]).
Qed.

(** C3, counterexample.  On the empty trie with seed "170" the value "110"
    is yielded: the block under "11" belongs to the output, and it is not
    among the blocks under "1d" for d in 0, 2, 3, 4, 5, 6, 8, 9. *)
Lemma available_170_counterexample :
  In "110" (fst (snd (available (Some "170") (new_tree "")))) /\
  ~ In "110" (blocks_170 [0; 2; 3; 4; 5; 6; 8; 9]).
Proof.
  split.
  - apply In_existsb. vm_compute. reflexivity.
  - intros H. apply In_existsb in H. vm_compute in H. discriminate.
Qed.

(** C3, amended.  On the empty trie the seed is inserted as a used
    identifier and is never yielded; for the seed "170" the values are
    "171".."179", then the blocks under "1d" for d in 0, 1, 2, 3, 4, 5, 6,
    8, 9, then the blocks under "2".."9". *)
Theorem available_empty_trie :
  (forall seed,
      ~ In (seed_or_default seed) (fst (snd (available seed (new_tree "")))) /\
      (all_digits (seed_or_default seed) = true ->
       found (fst (available seed (new_tree ""))) (seed_or_default seed) = true /\
       snd (snd (available seed (new_tree ""))) = None)) /\
  snd (available (Some "170") (new_tree "")) = (blocks_170 [0; 1; 2; 3; 4; 5; 6; 8; 9], None).
Proof.
  split; [intros seed; apply available_empty_seed|]. vm_compute. reflexivity.
Qed.

Lemma available_empty_trie_witness :
  all_digits (seed_or_default (Some "170")) = true /\
  ~ In "170" (fst (snd (available (Some "170") (new_tree "")))) /\
  found (fst (available (Some "170") (new_tree ""))) "170" = true /\
  snd (snd (available (Some "170") (new_tree ""))) = None.
Proof.
  split; [vm_compute; reflexivity|].
  split; [exact (proj1 (proj1 available_empty_trie (Some "170")))|].
  apply (proj2 (proj1 available_empty_trie (Some "170"))). vm_compute. reflexivity.
Defined.

(** C4.  For a non-empty list of distinct identifiers of length
    [node_len], [1 <= node_len], none beginning with 0: the trie is built
    and accounted without exception, and the number of identifiers plus the
    number of yielded values is [9 * 10 ** (node_len - 1)]. *)
Theorem available_complete (ids : list string) (node_len : Z) :
  ids <> [] -> NoDup ids ->
  Forall (fun s => all_digits s = true /\ len s = node_len /\ leading_zero s = false) ids ->
  1 <= node_len ->
  exists t t',
    from_list ids = (t, None) /\ populate_used node_len t = (t', None) /\
    snd (_rec_availabe t') = None /\
    Z.of_nat (List.length ids) + cnt (_rec_availabe t') = 9 * 10 ^ (node_len - 1).
Proof.
  intros Hne Hnd Hall HL.
  assert (Hd : Forall (fun s => all_digits s = true) ids)
    by (eapply Forall_impl; [|exact Hall]; simpl; tauto).
  assert (Hl : Forall (fun s => len s = node_len) ids)
    by (eapply Forall_impl; [|exact Hall]; simpl; tauto).
  assert (Hz : Forall (fun s => leading_zero s = false) ids)
    by (eapply Forall_impl; [|exact Hall]; simpl; tauto).
  assert (Hw0 : wfb (new_tree "") = true) by reflexivity.
  assert (Hp0 : prefix (new_tree "") = "") by reflexivity.
  pose proof (add_nodes_ok ids (new_tree "") Hw0 Hp0 Hd) as Hok.
  pose proof (add_nodes_wf ids (new_tree "") Hw0) as Hw.
  pose proof (add_nodes_prefix ids (new_tree "")) as Hp.
  pose proof (add_nodes_nterm ids (new_tree "") Hw0 Hp0 Hd Hnd) as Hn.
  pose proof (add_nodes_full node_len ids (new_tree "") Hw0 Hp0 Hd Hl) as Hf.
  pose proof (add_nodes_no_zero ids (new_tree "") Hw0 Hp0 Hd Hz eq_refl) as H0.
  fold (from_list ids) in *.
  destruct (from_list ids) as [t o]. simpl in Hok, Hw, Hp, Hn, Hf, H0. subst o.
  assert (Hfull : full node_len t = true).
  { apply Hf. right. repeat split. assumption. }
  exists t, (account node_len t). split; [reflexivity|].
  split; [apply populate_used_ok, full_lengths_ok; assumption|].
  destruct (rec_availabe_count node_len t Hw Hfull) as [R1 R2].
  split; [assumption|]. rewrite R2, Hn.
  - destruct t as [cs p tm u cv]. cbn [prefix childs] in Hp, H0 |- *. subst p.
    apply full_iff in Hfull.
    destruct Hfull as [(_ & _ & Hlen) | (Hcs & _ & _ & _)].
    + change (len "") with 0 in Hlen. lia.
    + destruct cs as [|kc cs]; [congruence|]. rewrite H0. simpl andb. cbv iota.
      change (len "") with 0. replace (node_len - 0) with (Z.succ (node_len - 1)) by lia.
      rewrite Z.pow_succ_r by lia. replace (Z.succ (node_len - 1) - 1) with (node_len - 1) by lia.
      lia.
  - intros s _. unfold new_tree. rewrite found_eq.
    destruct ("" =? s)%str; [reflexivity|].
    destruct (sget _ s) as [ch|]; [|reflexivity].
    destruct (int_of_char ch); reflexivity.
Qed.

Lemma available_complete_witness :
  example_ids <> [] /\ NoDup example_ids /\
  Forall (fun s => all_digits s = true /\ len s = 4 /\ leading_zero s = false) example_ids /\
  1 <= 4 /\
  exists t t',
    from_list example_ids = (t, None) /\ populate_used 4 t = (t', None) /\
    snd (_rec_availabe t') = None /\
    Z.of_nat (List.length example_ids) + cnt (_rec_availabe t') = 9 * 10 ^ (4 - 1).
Proof.
  assert (H1 : example_ids <> []) by discriminate.
  assert (H2 : NoDup example_ids).
  { unfold example_ids. repeat constructor; simpl; intuition discriminate. }
  assert (H3 : Forall (fun s => all_digits s = true /\ len s = 4 /\ leading_zero s = false)
                      example_ids).
  { unfold example_ids. repeat constructor. }
  assert (H4 : 1 <= 4) by lia.
  repeat split; try assumption.
  apply (available_complete example_ids 4 H1 H2 H3 H4).
Defined.

(** C7.  In a trie that [from_list] built and [populate_used] accepted, for
    two children of one node, the values yielded from the child with the
    strictly greater [used] all come before the values yielded from the
    other, within the enumeration of the whole trie. *)
Theorem available_priority (ids : list string) (node_len : Z) (t t' n : DigitTree)
        (a b : Z) (ca cb : DigitTree) :
  from_list ids = (t, None) -> populate_used node_len t = (t', None) ->
  In n (nodes t') ->
  get_child a (childs n) = Some ca -> get_child b (childs n) = Some cb ->
  used cb < used ca ->
  exists l1 l2 l3,
    fst (_rec_availabe t') =
    (l1 ++ fst (_rec_availabe ca) ++ l2 ++ fst (_rec_availabe cb) ++ l3)%list.
Proof.
  intros Hb Hp Hn Ha Hcb Hu.
  destruct (from_list_rec_availabe_ok ids node_len t t' Hb Hp) as [Hw Hok].
  destruct (rec_availabe_segment t' n Hw Hok Hn) as [Hnone (pre & post & E)].
  destruct (rec_availabe_priority n a b ca cb Ha Hcb Hu Hnone) as (l1 & l2 & l3 & E').
  exists (pre ++ l1)%list, l2, (l3 ++ post)%list.
  rewrite E, E'. rewrite <- !List.app_assoc. reflexivity.
Qed.

Lemma available_priority_witness :
  from_list example_ids = (example_trie, None) /\
  populate_used 4 example_trie = (example_accounted, None) /\
  In example_accounted (nodes example_accounted) /\
  (exists ca cb,
      get_child 4 (childs example_accounted) = Some ca /\
      get_child 3 (childs example_accounted) = Some cb /\
      used cb < used ca /\
      exists l1 l2 l3,
        fst (_rec_availabe example_accounted) =
        (l1 ++ fst (_rec_availabe ca) ++ l2 ++ fst (_rec_availabe cb) ++ l3)%list).
Proof.
  assert (H1 : from_list example_ids = (example_trie, None)) by (vm_compute; reflexivity).
  assert (H2 : populate_used 4 example_trie = (example_accounted, None))
    by (vm_compute; reflexivity).
  assert (H3 : In example_accounted (nodes example_accounted)).
  { destruct example_accounted. simpl. left. reflexivity. }
  split; [exact H1|]. split; [exact H2|]. split; [exact H3|].
  destruct (get_child 4 (childs example_accounted)) as [ca|] eqn:Ea;
    [|vm_compute in Ea; discriminate].
  destruct (get_child 3 (childs example_accounted)) as [cb|] eqn:Eb;
    [|vm_compute in Eb; discriminate].
  assert (H4 : used cb < used ca).
  { vm_compute in Ea, Eb. injection Ea as <-. injection Eb as <-. reflexivity. }
  exists ca, cb. repeat split; trivial.
  apply (available_priority example_ids 4 example_trie example_accounted example_accounted
                           4 3 ca cb H1 H2 H3 Ea Eb H4).
Defined.

(** C8, counterexample.  Lookup of "a", which is no digit, on the empty
    trie returns not-found and raises nothing; and insertion of the
    identifier made of the Arabic-Indic digit three (U+0663) and "a"
    fails by the assertion of [add_node], not by the error of [int]. *)
Lemma find_node_malformed_counterexample :
  all_digits "a" = false /\ find_node (new_tree "") "a" = Ok None /\
  all_digits (String 1635%N "a") = false /\
  snd (add_node (new_tree "") (String 1635%N "a")) = Some AssertionError.
Proof. repeat split; reflexivity. Qed.

(** C8, amended.  Let an identifier consist of characters '0'..'9'
    followed by a character that [int] rejects, and then anything.
    Insertion at the root of a well-formed trie raises the error of [int]
    during the call.  Lookup raises it during the call exactly when the
    trie has a node with children whose prefix is the part of the
    identifier before that character, and returns not-found otherwise.
    The accounting pass never raises it. *)
Theorem malformed_identifier (t : DigitTree) (pre : string) (c : char) (rest : string) :
  wfb t = true -> prefix t = "" -> all_digits pre = true -> int_of_char c = None ->
  snd (add_node t (pre ++ String c rest)) = Some ValueError /\
  find_node t (pre ++ String c rest) =
    (if inner_node t pre then Raise ValueError else Ok None) /\
  (forall node_len t0, snd (populate_used node_len t0) <> Some ValueError).
Proof.
  intros Hw Hp Hd Hc.
  pose proof (add_node_first_other c t (pre ++ String c rest) Hw
                (first_other_app pre c rest Hd (int_None_not_digit c Hc))) as H1.
  pose proof (find_node_nondigit c rest t Hc pre Hw Hd) as H2.
  unfold first_other_outcome in H1. rewrite Hc in H1.
  rewrite Hp in H1, H2. simpl sappend in H1, H2.
  repeat split; try assumption.
  intros node_len t0 H. destruct (populate_used_outcome node_len t0) as [E | E];
    rewrite E in H; discriminate.
Qed.

Lemma malformed_identifier_witness :
  wfb example_trie = true /\ prefix example_trie = "" /\ all_digits "30" = true /\
  int_of_char 120%N = None /\
  snd (add_node example_trie "30x1") = Some ValueError /\
  find_node example_trie "30x1" =
    (if inner_node example_trie "30" then Raise ValueError else Ok None) /\
  (forall node_len t0, snd (populate_used node_len t0) <> Some ValueError).
Proof.
  assert (H1 : wfb example_trie = true) by (vm_compute; reflexivity).
  assert (H2 : prefix example_trie = "") by (vm_compute; reflexivity).
  assert (H3 : all_digits "30" = true) by (vm_compute; reflexivity).
  assert (H4 : int_of_char 120%N = None) by (vm_compute; reflexivity).
  split; [exact H1|]. split; [exact H2|]. split; [exact H3|]. split; [exact H4|].
  apply (malformed_identifier example_trie "30" 120%N "1" H1 H2 H3 H4).
Defined.

(** C10.  [available()] without seed, or with [None], is [available] with
    the seed "1000": on the empty trie it inserts "1000" and yields
    "1001".."9999"; on a trie with children the accounting pass runs with
    length 4, so that its assertion fails, before anything is yielded,
    when some terminal node has a prefix of another length. *)
Theorem available_default_seed :
  (forall t, available None t = available (Some "1000") t) /\
  (found (fst (available None (new_tree ""))) "1000" = true /\
   snd (available None (new_tree "")) = (ids_from 1001 8999, None)) /\
  (forall t, childs t <> [] ->
             fst (available None t) = fst (populate_used 4 t) /\
             ((exists n, In n (nodes t) /\ terminal n = true /\ len (prefix n) <> 4) ->
              snd (available None t) = ([], Some AssertionError)) /\
             ((forall n, In n (nodes t) -> terminal n = true -> len (prefix n) = 4) ->
              snd (available None t) = _rec_availabe (account 4 t))).
Proof.
  split; [reflexivity|]. split.
  - split; vm_compute; reflexivity.
  - intros t Hne. unfold available. cbv zeta.
    destruct (childs t) as [|kc cs] eqn:Ec; [congruence|].
    change (len (seed_or_default None)) with 4.
    destruct (lengths_ok 4 t) eqn:El.
    + rewrite (populate_used_ok 4 t El). simpl. repeat split.
      * intros (n & Hn & Ht & Hl).
        exfalso. apply Hl. apply (proj1 (lengths_ok_nodes 4 t) El n Hn Ht).
    + pose proof (populate_used_fail 4 t El) as Hf.
      destruct (populate_used 4 t) as [t2 o]. simpl in Hf. subst o. simpl.
      repeat split. intros H. apply lengths_ok_nodes in H. congruence.
Qed.

Lemma available_default_seed_witness :
  childs example_trie <> [] /\
  (forall n, In n (nodes example_trie) -> terminal n = true -> len (prefix n) = 4) /\
  snd (available None example_trie) = _rec_availabe (account 4 example_trie).
Proof.
  assert (H1 : childs example_trie <> []) by (vm_compute; discriminate).
  assert (H2 : forall n, In n (nodes example_trie) -> terminal n = true ->
                         len (prefix n) = 4).
  { apply lengths_ok_nodes. vm_compute. reflexivity. }
  split; [exact H1|]. split; [exact H2|].
  apply (proj2 (proj2 (proj2 (proj2 available_default_seed) example_trie H1)) H2).
Defined.

(** * Further properties *)

(** ** common_prefix *)

Lemma common_prefix_split (s1 s2 : string) :
  exists r1 r2,
    s1 = common_prefix s1 s2 ++ r1 /\ s2 = common_prefix s1 s2 ++ r2 /\
    diverge r1 r2 = true.
Proof.
  revert s2. induction s1 as [|a s1 IH]; intros s2.
  - exists "", s2. simpl. auto.
  - destruct s2 as [|b s2].
    + exists (String a s1), "". simpl. auto.
    + simpl. destruct (N.eqb_spec a b) as [<- | Hne].
      * destruct (IH s2) as (r1 & r2 & E1 & E2 & Hd). exists r1, r2.
        simpl. rewrite <- E1, <- E2. auto.
      * exists (String a s1), (String b s2). simpl.
        apply N.eqb_neq in Hne. rewrite Hne. auto.
Qed.

Lemma common_prefix_comm (s1 s2 : string) : common_prefix s1 s2 = common_prefix s2 s1.
Proof.
  revert s2. induction s1 as [|a s1 IH]; intros [|b s2]; simpl; try reflexivity.
  rewrite (N.eqb_sym b a). destruct (N.eqb a b) eqn:E; [|reflexivity].
  apply N.eqb_eq in E. subst. rewrite IH. reflexivity.
Qed.

(** X1.  [common_prefix] is the longest common start of its arguments: both
    go on from it, and where they go on they differ or one of them has
    ended; and it does not depend on the order of the arguments. *)
Theorem common_prefix_longest (s1 s2 : string) :
  (exists r1 r2,
      s1 = common_prefix s1 s2 ++ r1 /\ s2 = common_prefix s1 s2 ++ r2 /\
      diverge r1 r2 = true) /\
  common_prefix s1 s2 = common_prefix s2 s1.
Proof. split; [apply common_prefix_split | apply common_prefix_comm]. Qed.

(** ** add_node, find_node and from_list *)

(** X2.  [add_node] keeps a trie well formed and keeps the prefix of the
    node it is called on, whatever the identifier, also when it raises. *)
Theorem add_node_keeps_wf (t : DigitTree) (node : string) :
  wfb t = true ->
  wfb (fst (add_node t node)) = true /\ prefix (fst (add_node t node)) = prefix t.
Proof. intros Hw. split; [apply add_node_wf; assumption | apply add_node_prefix]. Qed.

Lemma add_node_keeps_wf_witness :
  wfb example_trie = true /\
  wfb (fst (add_node example_trie "30x1")) = true /\
  prefix (fst (add_node example_trie "30x1")) = prefix example_trie.
Proof.
  assert (H : wfb example_trie = true) by (vm_compute; reflexivity).
  split; [exact H|]. apply (add_node_keeps_wf example_trie "30x1" H).
Defined.

Lemma all_digits_accepted (s : string) : all_digits s = true -> any_char rejected s = false.
Proof.
  induction s as [|c r IH]; simpl; [reflexivity|]. intros H.
  apply andb_true_iff in H. destruct H as [Hc Hr]. apply is_digit_true in Hc.
  destruct Hc as (d & Hc & _). unfold rejected. rewrite Hc. auto.
Qed.

Lemma sget_any_char (f : char -> bool) (s : string) :
  forall n c, sget n s = Some c -> f c = true -> any_char f s = true.
Proof.
  induction s as [|c0 r IH]; intros n c; simpl; [discriminate|].
  destruct n as [|n].
  - intros H Hf. injection H as ->. rewrite Hf. reflexivity.
  - intros H Hf. rewrite (IH n c H Hf). apply orb_true_r.
Qed.

Lemma any_char_app (f : char -> bool) (s1 s2 : string) :
  any_char f (s1 ++ s2) = any_char f s1 || any_char f s2.
Proof. induction s1 as [|c r IH]; simpl; [reflexivity | rewrite IH; apply orb_assoc]. Qed.

(** The ways [find_node] ends, on any node. *)
Lemma find_node_ends (t : DigitTree) (node : string) :
  (exists r, find_node t node = Ok r) \/
  (find_node t node = Raise ValueError /\ any_char rejected node = true) \/
  find_node t node = Raise IndexError.
Proof.
  induction t as [cs p tm u cv IH] using DigitTree_ind.
  rewrite find_node_eq.
  destruct (p =? node)%str; [eauto|].
  destruct cs as [|kc0 cs0]; [eauto|]. remember (kc0 :: cs0) as cs.
  destruct (sget _ node) as [ch|] eqn:Eg; [|auto].
  destruct (int_of_char ch) as [d|] eqn:Hc.
  - destruct (get_child d cs) as [child|] eqn:Ec; [|eauto].
    apply get_child_In in Ec. rewrite Forall_forall in IH. apply (IH _ Ec).
  - right. left. split; [reflexivity|].
    apply (sget_any_char rejected node _ ch Eg). unfold rejected. rewrite Hc. reflexivity.
Qed.

Lemma find_node_from_prefix (t : DigitTree) :
  forall rest, wfb t = true ->
               (exists r, find_node t (prefix t ++ rest) = Ok r) \/
               (find_node t (prefix t ++ rest) = Raise ValueError /\
                any_char rejected (prefix t ++ rest) = true) \/
               (find_node t (prefix t ++ rest) = Raise IndexError /\
                exists c d, first_other rest = Some c /\ int_of_char c = Some d).
Proof.
  induction t as [cs p tm u cv IH] using DigitTree_ind. intros rest Hw.
  simpl prefix. destruct rest as [|c r].
  - rewrite find_node_eq, sapp_nil_r, seqb_refl. eauto.
  - destruct (find_node_ends (mkDigitTree cs p tm u cv) (p ++ String c r))
      as [H | [H | H]]; [auto | auto |].
    right. right. split; [assumption|].
    rewrite find_node_eq in H.
    destruct (step_facts p c r) as (_ & E1 & _ & E2). rewrite E1, E2 in H.
    destruct cs as [|kc0 cs0]; [discriminate|]. remember (kc0 :: cs0) as cs.
    simpl first_other. destruct (is_digit c) eqn:Ei.
    + apply is_digit_true in Ei. destruct Ei as (d & Hc & Hs). rewrite Hc in H.
      destruct (get_child d cs) as [child|] eqn:Eg; [|discriminate].
      apply get_child_In in Eg. apply wfb_iff in Hw. destruct Hw as [_ Hcs].
      rewrite Forall_forall in Hcs, IH. destruct (Hcs _ Eg) as (_ & Hp & Hw).
      simpl in Hp, Hw. specialize (IH _ Eg r Hw). simpl snd in IH.
      rewrite Hp, <- (next_prefix p c r d Hs), H in IH.
      destruct IH as [[x Hx] | [[Hx _] | [_ Hx]]]; [discriminate | discriminate | exact Hx].
    + destruct (int_of_char c) as [d|] eqn:Hc; [eauto | discriminate].
Qed.

Lemma find_node_digits (t : DigitTree) (node : string) :
  wfb t = true -> prefix t = "" -> all_digits node = true ->
  exists r, find_node t node = Ok r.
Proof.
  intros Hw Hp Hd. pose proof (find_node_from_prefix t node Hw) as H.
  rewrite Hp in H. simpl sappend in H.
  destruct H as [H | [[_ H] | [_ (c & d & H & _)]]]; [assumption | |].
  - rewrite (all_digits_accepted node Hd) in H. discriminate.
  - apply first_other_None in Hd. congruence.
Qed.

(** X3.  At the root of a well-formed trie, inserting a string of digits
    '0'..'9' raises nothing; afterwards [find_node] returns a terminal
    node whose prefix is the identifier; every other string is found
    afterwards exactly when it was found before; and the lookup of a
    string of digits raises neither before nor afterwards.  (The lookup
    of a string with another character is not preserved as such: it can
    return [None] before and raise afterwards, see
    [lookup_may_start_raising].) *)
Theorem add_node_find_node (t : DigitTree) (node : string) :
  wfb t = true -> prefix t = "" -> all_digits node = true ->
  exists t' n,
    add_node t node = (t', None) /\
    find_node t' node = Ok (Some n) /\ prefix n = node /\ terminal n = true /\
    (forall x, x <> node -> found t' x = found t x) /\
    (forall x, all_digits x = true ->
               (exists r, find_node t x = Ok r) /\ (exists r', find_node t' x = Ok r')).
Proof.
  intros Hw Hp Hd.
  destruct (add_nodes_cons t node [] Hw Hp Hd) as (t1 & Ea & _ & Hw1 & Hp1 & Hf & _).
  assert (E : found t1 node = true) by (rewrite Hf, seqb_refl; reflexivity).
  unfold found in E. destruct (find_node t1 node) as [[n|]|] eqn:En; try discriminate.
  destruct (find_node_nodes t1 node n En) as (_ & Ht & Hn).
  exists t1, n. repeat split; auto.
  - intros x Hx. rewrite Hf. apply seqb_neq in Hx. rewrite Hx. reflexivity.
  - apply find_node_digits; assumption.
  - apply find_node_digits; assumption.
Qed.

Lemma add_node_find_node_witness :
  wfb example_trie = true /\ prefix example_trie = "" /\ all_digits "3000" = true /\
  exists t' n,
    add_node example_trie "3000" = (t', None) /\
    find_node t' "3000" = Ok (Some n) /\ prefix n = "3000" /\ terminal n = true /\
    (forall x, x <> "3000" -> found t' x = found example_trie x) /\
    (forall x, all_digits x = true ->
               (exists r, find_node example_trie x = Ok r) /\
               (exists r', find_node t' x = Ok r')).
Proof.
  assert (H1 : wfb example_trie = true) by (vm_compute; reflexivity).
  assert (H2 : prefix example_trie = "") by (vm_compute; reflexivity).
  assert (H3 : all_digits "3000" = true) by (vm_compute; reflexivity).
  split; [exact H1|]. split; [exact H2|]. split; [exact H3|].
  apply (add_node_find_node example_trie "3000" H1 H2 H3).
Defined.

(** The lookup of "5x" returns [None] on the example trie, which has no
    child tree for the digit 5, and raises once "59" has been inserted,
    or once the insertion of "59x" has failed and left the node "5" with
    its child "59" behind. *)
Example lookup_may_start_raising :
  find_node example_trie "5x" = Ok None /\
  find_node (fst (add_node example_trie "59")) "5x" = Raise ValueError /\
  snd (add_node example_trie "59x") = Some ValueError /\
  find_node (fst (add_node example_trie "59x")) "5x" = Raise ValueError.
Proof. repeat split; vm_compute; reflexivity. Qed.

Lemma chain_add_node (rest : string) :
  forall p, all_digits rest = true ->
            add_node (chain p rest) (p ++ rest) = (chain p rest, None).
Proof.
  induction rest as [|c r IH]; intros p Hd; simpl chain; rewrite add_node_eq; cbv zeta.
  - rewrite sapp_nil_r, common_prefix_refl, seqb_refl. reflexivity.
  - destruct (step_facts p c r) as (-> & -> & -> & ->).
    simpl in Hd. apply andb_true_iff in Hd. destruct Hd as [Hc Hr].
    apply is_digit_true in Hc. destruct Hc as [d [Hc Hs]]. rewrite Hc.
    simpl update_child. rewrite Z.eqb_refl.
    rewrite (next_prefix p c r d Hs), (IH (p ++ str d) Hr). reflexivity.
Qed.

Lemma add_node_twice (t : DigitTree) :
  forall rest, wfb t = true -> all_digits rest = true ->
               add_node (fst (add_node t (prefix t ++ rest))) (prefix t ++ rest) =
               (fst (add_node t (prefix t ++ rest)), None).
Proof.
  induction t as [cs p tm u cv IH] using DigitTree_ind. intros rest Hw Hd.
  pose proof (add_node_wf _ (prefix (mkDigitTree cs p tm u cv) ++ rest) Hw) as Hw1.
  simpl prefix in *.
  destruct (add_node_step cs p tm u cv rest Hw Hd)
    as [[-> E1] | (c & r & d & -> & Hc & Hr & E &
                   [[Hg E1] | (l1 & ch & l2 & -> & Hn & Hp & Hwc & E1)])];
    rewrite E1 in *; simpl fst in *.
  - rewrite add_node_eq. cbv zeta.
    rewrite sapp_nil_r, common_prefix_refl, seqb_refl. reflexivity.
  - destruct (add_node_step _ p tm u cv (String c r) Hw1 Hd)
      as [[E2 _] | (c' & r' & d' & E2 & Hc' & _ & _ &
                   [[Hg' _] | (l1' & ch' & l2' & El & Hn' & Hp' & _ & E3)])];
      try discriminate; injection E2 as <- <-;
      rewrite Hc in Hc'; injection Hc' as <-.
    + rewrite get_child_snoc, Hg, Z.eqb_refl in Hg'. discriminate.
    + rewrite E3.
      assert (Ech : ch' = chain (p ++ str d) r).
      { pose proof (get_child_middle d l1' l2' ch' Hn') as G. rewrite <- El in G.
        rewrite get_child_snoc, Hg, Z.eqb_refl in G. congruence. }
      subst ch'. simpl prefix.
      assert (Ep : prefix (chain (p ++ str d) r) = p ++ str d) by (destruct r; reflexivity).
      rewrite Ep, (chain_add_node r (p ++ str d) Hr). simpl fst. simpl snd.
      rewrite <- El. reflexivity.
  - rewrite Forall_app in IH. destruct IH as [_ IH]. apply Forall_cons_iff in IH.
    destruct IH as [IH _]. simpl snd in IH. specialize (IH r Hwc Hr).
    set (c1 := fst (add_node ch (prefix ch ++ r))) in *.
    destruct (add_node_step _ p tm u cv (String c r) Hw1 Hd)
      as [[E2 _] | (c' & r' & d' & E2 & Hc' & _ & _ &
                   [[Hg' _] | (l1' & ch' & l2' & El & Hn' & Hp' & _ & E3)])];
      try discriminate; injection E2 as <- <-;
      rewrite Hc in Hc'; injection Hc' as <-.
    + rewrite get_child_middle in Hg' by assumption. discriminate.
    + rewrite E3.
      assert (Ech : ch' = c1).
      { pose proof (get_child_middle d l1' l2' ch' Hn') as G. rewrite <- El in G.
        rewrite get_child_middle in G by assumption. congruence. }
      subst ch'.
      assert (Ep : prefix c1 = prefix ch) by apply add_node_prefix.
      rewrite Ep, IH. simpl fst. simpl snd. rewrite <- El. reflexivity.
Qed.

(** X4.  Insertion is idempotent: inserting a string of digits a second
    time at the root of a well-formed trie changes nothing and raises
    nothing. *)
Theorem add_node_idempotent (t : DigitTree) (node : string) :
  wfb t = true -> prefix t = "" -> all_digits node = true ->
  add_node (fst (add_node t node)) node = (fst (add_node t node), None).
Proof.
  intros Hw Hp Hd. pose proof (add_node_twice t node Hw Hd) as H.
  rewrite Hp in H. exact H.
Qed.

Lemma add_node_idempotent_witness :
  wfb example_trie = true /\ prefix example_trie = "" /\ all_digits "3000" = true /\
  add_node (fst (add_node example_trie "3000")) "3000" =
  (fst (add_node example_trie "3000"), None).
Proof.
  assert (H1 : wfb example_trie = true) by (vm_compute; reflexivity).
  assert (H2 : prefix example_trie = "") by (vm_compute; reflexivity).
  assert (H3 : all_digits "3000" = true) by (vm_compute; reflexivity).
  split; [exact H1|]. split; [exact H2|]. split; [exact H3|].
  apply (add_node_idempotent example_trie "3000" H1 H2 H3).
Defined.

Lemma add_node_root_outcome (t : DigitTree) (node : string) :
  wfb t = true -> prefix t = "" -> snd (add_node t node) = insertion_outcome node.
Proof.
  intros Hw Hp. unfold insertion_outcome. destruct (first_other node) as [c|] eqn:E.
  - pose proof (add_node_first_other c t node Hw E) as H. rewrite Hp in H. exact H.
  - apply first_other_None in E.
    pose proof (add_node_ok t node Hw E) as H. rewrite Hp in H. exact H.
Qed.

(** X5.  At the root of a well-formed trie [add_node] raises exactly when
    the identifier has a character other than '0'..'9', and the first
    such character decides what: the [ValueError] of [int] when [int]
    rejects it, and the [AssertionError] of [add_node] itself when it is
    a decimal digit of another script, which [int] reads while the
    prefixes are built from '0'..'9'. *)
Theorem add_node_outcome (t : DigitTree) (node : string) :
  wfb t = true -> prefix t = "" ->
  snd (add_node t node) = insertion_outcome node /\
  (snd (add_node t node) = None <-> all_digits node = true).
Proof.
  intros Hw Hp. rewrite (add_node_root_outcome t node Hw Hp). split; [reflexivity|].
  unfold insertion_outcome, first_other_outcome. rewrite <- first_other_None.
  destruct (first_other node) as [c|]; [|tauto].
  destruct (int_of_char c); split; discriminate.
Qed.

Lemma add_node_outcome_witness :
  wfb example_trie = true /\ prefix example_trie = "" /\
  snd (add_node example_trie (String 1635%N "001")) =
    insertion_outcome (String 1635%N "001") /\
  (snd (add_node example_trie (String 1635%N "001")) = None <->
   all_digits (String 1635%N "001") = true).
Proof.
  assert (H1 : wfb example_trie = true) by (vm_compute; reflexivity).
  assert (H2 : prefix example_trie = "") by (vm_compute; reflexivity).
  split; [exact H1|]. split; [exact H2|].
  apply (add_node_outcome example_trie (String 1635%N "001") H1 H2).
Defined.

(** The two ways in which an insertion at the root fails: on "30x1" by
    the error of [int], and on the identifier made of the Arabic-Indic
    digit three (U+0663) and "001" by the assertion. *)
Example add_node_failures :
  snd (add_node example_trie "30x1") = Some ValueError /\
  snd (add_node example_trie (String 1635%N "001")) = Some AssertionError.
Proof. split; vm_compute; reflexivity. Qed.

Lemma found_eq_leaf (p : string) (tm : bool) (u : Z) (cv : number) (x : string) :
  found (mkDigitTree [] p tm u cv) x = if (p =? x)%str then tm else false.
Proof.
  rewrite found_eq. destruct (p =? x)%str; [reflexivity|].
  destruct (sget _ x) as [ch|]; [|reflexivity].
  destruct (int_of_char ch); reflexivity.
Qed.

Lemma add_fresh_failed_found (fuel : nat) :
  forall p node x, snd (add_fresh fuel p node) <> None ->
                   found (fst (add_fresh fuel p node)) x = false.
Proof.
  induction fuel as [|fuel IH]; intros p node x; rewrite add_fresh_eq; cbv zeta;
    (assert (Hleaf : found (new_tree p) x = false)
      by (unfold new_tree; rewrite found_eq_leaf; destruct (p =? x)%str; reflexivity));
    (destruct (common_prefix p node =? node)%str; [intros H; exfalso; apply H; reflexivity|]);
    (destruct (negb (len p <? len node)); [intros _; exact Hleaf|]);
    (destruct (sget _ node) as [ch|]; [|intros _; exact Hleaf]);
    (destruct (int_of_char ch) as [d|]; [|intros _; exact Hleaf]).
  - intros _. exact Hleaf.
  - specialize (IH (p ++ str d) node x).
    destruct (add_fresh fuel (p ++ str d) node) as [sub o].
    cbn [fst snd] in *. intros Ho. rewrite found_eq.
    destruct (p =? x)%str; [reflexivity|].
    destruct (sget _ x) as [ch'|]; [|reflexivity].
    destruct (int_of_char ch') as [d'|]; [|reflexivity].
    simpl. destruct (d =? d'); [auto | reflexivity].
Qed.

Lemma add_node_failed_found (t : DigitTree) (node x : string) :
  snd (add_node t node) <> None -> found (fst (add_node t node)) x = found t x.
Proof.
  induction t as [cs p tm u cv IH] using DigitTree_ind.
  rewrite add_node_eq. cbv zeta.
  destruct (common_prefix p node =? node)%str; [intros H; exfalso; apply H; reflexivity|].
  destruct (negb (len p <? len node)); [reflexivity|].
  destruct (sget _ node) as [ch|]; [|reflexivity].
  destruct (int_of_char ch) as [d|]; [|reflexivity].
  destruct (update_child _ d cs) as [[cs' o]|] eqn:Eu.
  - apply update_child_Some in Eu. destruct Eu as (l1 & c0 & l2 & -> & Hn & -> & ->).
    rewrite Forall_app in IH. destruct IH as [_ IH].
    apply Forall_cons_iff in IH. destruct IH as [IH _]. simpl in IH.
    cbn [fst snd]. intros Ho. specialize (IH Ho).
    rewrite !found_eq.
    destruct (p =? x)%str; [reflexivity|].
    destruct (sget _ x) as [ch'|]; [|reflexivity].
    destruct (int_of_char ch') as [d'|]; [|reflexivity].
    destruct (Z.eq_dec d d') as [<- | Hdd].
    + rewrite !get_child_middle by assumption. exact IH.
    + rewrite (get_child_other d' d l1 l2 _ c0 Hdd). reflexivity.
  - apply update_child_None in Eu.
    pose proof (add_fresh_failed_found (slength node) (p ++ str d) node x) as H.
    destruct (add_fresh _ _ node) as [sub o]. cbn [fst snd] in *. intros Ho.
    specialize (H Ho). rewrite !found_eq.
    destruct (p =? x)%str; [reflexivity|].
    destruct (sget _ x) as [ch'|]; [|reflexivity].
    destruct (int_of_char ch') as [d'|]; [|reflexivity].
    rewrite get_child_snoc. destruct (get_child d' cs); [reflexivity|].
    destruct (d =? d'); [assumption | reflexivity].
Qed.

(** X6.  An insertion that raises registers nothing and loses nothing:
    on any node, every string is found afterwards exactly when it was
    found before (the nodes created on the way are not terminal).  At the
    root of a well-formed trie the lookup of a string of digits '0'..'9'
    raises neither before nor afterwards.  (The lookup of a string with
    another character can return [None] before and raise afterwards, see
    [lookup_may_start_raising].) *)
Theorem add_node_failed_registers_nothing (t : DigitTree) (node : string) :
  snd (add_node t node) <> None ->
  (forall x, found (fst (add_node t node)) x = found t x) /\
  (wfb t = true -> prefix t = "" ->
   forall x, all_digits x = true ->
             (exists r, find_node t x = Ok r) /\
             (exists r', find_node (fst (add_node t node)) x = Ok r')).
Proof.
  intros Ho. split.
  - intros x. apply add_node_failed_found. assumption.
  - intros Hw Hp x Hx. split.
    + apply find_node_digits; assumption.
    + apply find_node_digits; [apply add_node_wf; assumption | | assumption].
      rewrite add_node_prefix. assumption.
Qed.

Lemma add_node_failed_registers_nothing_witness :
  snd (add_node example_trie "30x1") <> None /\
  (forall x, found (fst (add_node example_trie "30x1")) x = found example_trie x) /\
  (wfb example_trie = true -> prefix example_trie = "" ->
   forall x, all_digits x = true ->
             (exists r, find_node example_trie x = Ok r) /\
             (exists r', find_node (fst (add_node example_trie "30x1")) x = Ok r')).
Proof.
  assert (H : snd (add_node example_trie "30x1") <> None) by (vm_compute; discriminate).
  split; [exact H|].
  apply (add_node_failed_registers_nothing example_trie "30x1" H).
Defined.

Lemma add_nodes_outcome (ids : list string) :
  forall t, wfb t = true -> prefix t = "" -> snd (add_nodes t ids) = first_failure ids.
Proof.
  unfold first_failure.
  induction ids as [|s ids IH]; intros t Hw Hp; [reflexivity|].
  simpl find. destruct (all_digits s) eqn:Hd.
  - destruct (add_nodes_cons t s ids Hw Hp Hd) as (t1 & _ & -> & Hw1 & Hp1 & _).
    simpl negb. cbv iota. apply IH; assumption.
  - pose proof (add_node_root_outcome t s Hw Hp) as E.
    pose proof (add_node_malformed t s Hw Hd) as H. rewrite Hp in H. simpl sappend in H.
    simpl. destruct (add_node t s) as [t1 o]. simpl in H, E. subst o.
    destruct H as [H | H]; rewrite H; reflexivity.
Qed.

Lemma first_failure_None (ids : list string) :
  first_failure ids = None <-> forallb all_digits ids = true.
Proof.
  unfold first_failure. induction ids as [|s ids IH]; simpl; [tauto|].
  destruct (all_digits s) eqn:Hd; simpl; [exact IH|].
  unfold insertion_outcome, first_other_outcome.
  destruct (all_digits_false_first s Hd) as [c ->].
  destruct (int_of_char c); split; discriminate.
Qed.

(** X7.  [from_list] raises exactly when one of the identifiers has a
    character other than '0'..'9', and then what the insertion of the
    first such identifier raises (see X5); when it raises nothing,
    [find_node] finds exactly the identifiers of the list. *)
Theorem from_list_spec (ids : list string) :
  snd (from_list ids) = first_failure ids /\
  (snd (from_list ids) = None <-> forallb all_digits ids = true) /\
  (forallb all_digits ids = true ->
   forall x, found (fst (from_list ids)) x = true <-> In x ids).
Proof.
  assert (E : snd (from_list ids) = first_failure ids)
    by (apply add_nodes_outcome; reflexivity).
  split; [exact E|]. split; [rewrite E; apply first_failure_None|].
  intros Hd x. rewrite forallb_forall in Hd.
  assert (Hd' : Forall (fun s => all_digits s = true) ids) by (apply Forall_forall; exact Hd).
  unfold from_list. rewrite (add_nodes_found ids (new_tree "") x eq_refl eq_refl Hd').
  unfold new_tree. rewrite found_eq_leaf.
  replace (if ("" =? x)%str then false else false) with false
    by (destruct ("" =? x)%str; reflexivity).
  rewrite orb_false_r. symmetry. apply In_existsb.
Qed.

Lemma from_list_spec_witness :
  forallb all_digits example_ids = true /\
  snd (from_list example_ids) = None /\
  (found (fst (from_list example_ids)) "3001" = true <-> In "3001" example_ids).
Proof.
  assert (H : forallb all_digits example_ids = true) by (vm_compute; reflexivity).
  split; [exact H|].
  split; [vm_compute; reflexivity|].
  apply (proj2 (proj2 (from_list_spec example_ids)) H "3001").
Defined.

(** X8.  From the root of a well-formed trie [find_node] returns, or
    raises the [ValueError] of [int], and then the identifier has a
    character that [int] rejects, or raises the [IndexError] of an index
    past the end of the identifier, and then the first character of the
    identifier other than '0'..'9' is a decimal digit of another script.
    On a string of digits '0'..'9' it returns. *)
Theorem find_node_outcome (t : DigitTree) (node : string) :
  wfb t = true -> prefix t = "" ->
  ((exists r, find_node t node = Ok r) \/
   (find_node t node = Raise ValueError /\ any_char rejected node = true) \/
   (find_node t node = Raise IndexError /\
    exists c d, first_other node = Some c /\ int_of_char c = Some d)) /\
  (all_digits node = true -> exists r, find_node t node = Ok r).
Proof.
  intros Hw Hp. split.
  - pose proof (find_node_from_prefix t node Hw) as H. rewrite Hp in H. exact H.
  - apply find_node_digits; assumption.
Qed.

Lemma find_node_outcome_witness :
  wfb example_trie = true /\ prefix example_trie = "" /\
  ((exists r, find_node example_trie (String 1635%N "") = Ok r) \/
   (find_node example_trie (String 1635%N "") = Raise ValueError /\
    any_char rejected (String 1635%N "") = true) \/
   (find_node example_trie (String 1635%N "") = Raise IndexError /\
    exists c d, first_other (String 1635%N "") = Some c /\ int_of_char c = Some d)) /\
  (all_digits (String 1635%N "") = true ->
   exists r, find_node example_trie (String 1635%N "") = Ok r).
Proof.
  assert (H1 : wfb example_trie = true) by (vm_compute; reflexivity).
  assert (H2 : prefix example_trie = "") by (vm_compute; reflexivity).
  split; [exact H1|]. split; [exact H2|].
  apply (find_node_outcome example_trie (String 1635%N "") H1 H2).
Defined.

(** The three ways in which a lookup from the root ends without a
    result: not-found, the error of [int], and the index past the end of
    the identifier made of the Arabic-Indic digit three (U+0663). *)
Example find_node_failures :
  find_node example_trie "5x" = Ok None /\
  find_node example_trie "30x1" = Raise ValueError /\
  find_node example_trie (String 1635%N "") = Raise IndexError.
Proof. repeat split; vm_compute; reflexivity. Qed.

(** ** populate_used *)

Lemma terminal_lengths_ok (node_len : Z) (t : DigitTree) :
  terminal_lengths node_len t = lengths_ok node_len t.
Proof.
  apply Bool.eq_iff_eq_true. rewrite lengths_ok_nodes.
  unfold terminal_lengths. rewrite forallb_forall. split; intros H n Hn.
  - intros Ht. specialize (H n Hn). rewrite Ht in H. apply Z.eqb_eq. exact H.
  - destruct (terminal n) eqn:Ht; [|reflexivity]. simpl. apply Z.eqb_eq. auto.
Qed.

(** X9.  [populate_used] raises exactly when some terminal node of the
    tree has a prefix whose length is not [node_len], and then by its
    assertion. *)
Theorem populate_used_outcome_spec (node_len : Z) (t : DigitTree) :
  snd (populate_used node_len t) =
  if terminal_lengths node_len t then None else Some AssertionError.
Proof.
  rewrite terminal_lengths_ok. destruct (lengths_ok node_len t) eqn:E.
  - rewrite (populate_used_ok node_len t E). reflexivity.
  - apply populate_used_fail. assumption.
Qed.

Lemma update_childs_erase (f : DigitTree -> DigitTree * outcome) (cs : list (Z * DigitTree)) :
  Forall (fun kc => erase (fst (f (snd kc))) = erase (snd kc)) cs ->
  map (fun kc => (fst kc, erase (snd kc))) (fst (update_childs f cs)) =
  map (fun kc => (fst kc, erase (snd kc))) cs.
Proof.
  induction 1 as [|[k c] cs H _ IH]; [reflexivity|]. simpl update_childs.
  simpl snd in H. destruct (f c) as [c' [e|]]; simpl fst in H.
  - simpl. rewrite H. reflexivity.
  - destruct (update_childs f cs) as [rest' o']. simpl in *. rewrite H, IH. reflexivity.
Qed.

Lemma populate_used_erase (node_len : Z) (t : DigitTree) :
  erase (fst (populate_used node_len t)) = erase t.
Proof.
  induction t as [cs p tm u cv IH] using DigitTree_ind.
  rewrite populate_used_eq.
  destruct (tm && negb (len p =? node_len)); [reflexivity|].
  pose proof (update_childs_erase (populate_used node_len) cs IH) as H.
  destruct (update_childs (populate_used node_len) cs) as [cs' [e|]];
    simpl fst in *; simpl erase; rewrite H; reflexivity.
Qed.

Lemma erase_get_child (d : Z) (cs : list (Z * DigitTree)) :
  get_child d (map (fun kc => (fst kc, erase (snd kc))) cs) =
  option_map erase (get_child d cs).
Proof.
  induction cs as [|[k c] cs IH]; simpl; [reflexivity|].
  destruct (k =? d); auto.
Qed.

Lemma found_erase (t : DigitTree) (x : string) : found (erase t) x = found t x.
Proof.
  induction t as [cs p tm u cv IH] using DigitTree_ind.
  simpl erase. rewrite !found_eq.
  destruct (p =? x)%str; [reflexivity|].
  destruct (sget _ x) as [ch|]; [|reflexivity].
  destruct (int_of_char ch) as [d|]; [|reflexivity].
  rewrite erase_get_child.
  destruct (get_child d cs) as [c|] eqn:Eg; simpl; [|reflexivity].
  apply get_child_In in Eg. rewrite Forall_forall in IH. apply (IH _ Eg).
Qed.

(** X10.  [populate_used] changes nothing but [used] and [covers], also
    when it raises: the tree without these fields is what it was, and so
    is every lookup. *)
Theorem populate_used_keeps_structure (node_len : Z) (t : DigitTree) :
  erase (fst (populate_used node_len t)) = erase t /\
  forall x, found (fst (populate_used node_len t)) x = found t x.
Proof.
  split; [apply populate_used_erase|].
  intros x. rewrite <- found_erase, populate_used_erase. apply found_erase.
Qed.

Lemma account_of_erase (node_len : Z) (t : DigitTree) :
  account node_len (erase t) = account node_len t /\
  lengths_ok node_len (erase t) = lengths_ok node_len t.
Proof.
  induction t as [cs p tm u cv IH] using DigitTree_ind. simpl erase.
  assert (E1 : map (fun kc => (fst kc, account node_len (snd kc)))
                   (map (fun kc => (fst kc, erase (snd kc))) cs) =
               map (fun kc => (fst kc, account node_len (snd kc))) cs).
  { rewrite map_map. induction IH as [|kc l [H _] _ IHl]; simpl in *; [reflexivity|].
    rewrite H, IHl. reflexivity. }
  assert (E2 : forallb (fun kc => lengths_ok node_len (snd kc))
                       (map (fun kc => (fst kc, erase (snd kc))) cs) =
               forallb (fun kc => lengths_ok node_len (snd kc)) cs).
  { clear E1. induction IH as [|kc l [_ H] _ IHl]; simpl in *; [reflexivity|].
    rewrite H, IHl. reflexivity. }
  split; simpl; [rewrite E1 | rewrite E2]; reflexivity.
Qed.

Lemma populate_used_from_structure (node_len : Z) (t t0 t1 : DigitTree) :
  populate_used node_len t = (t1, None) -> erase t0 = erase t ->
  populate_used node_len t0 = (t1, None).
Proof.
  intros Hp He. apply populate_used_spec in Hp. destruct Hp as [Hl ->].
  apply populate_used_spec.
  destruct (account_of_erase node_len t0) as [A0 L0].
  destruct (account_of_erase node_len t) as [A1 L1].
  split; [rewrite <- L0, He, L1; assumption | rewrite <- A0, He, A1; reflexivity].
Qed.

Lemma populate_used_again (node_len : Z) (t t1 : DigitTree) :
  populate_used node_len t = (t1, None) -> populate_used node_len t1 = (t1, None).
Proof.
  intros Hp. apply (populate_used_from_structure node_len t t1 t1 Hp).
  replace t1 with (fst (populate_used node_len t)) by (rewrite Hp; reflexivity).
  apply populate_used_erase.
Qed.

(** X11.  [populate_used] recomputes [used] and [covers] from the
    structure alone: run on any tree with the same structure, whatever
    its [used] and [covers], it leaves the same tree; so a second pass
    changes nothing. *)
Theorem populate_used_recomputes (node_len : Z) (t t1 : DigitTree) :
  populate_used node_len t = (t1, None) ->
  populate_used node_len t1 = (t1, None) /\
  forall t0, erase t0 = erase t -> populate_used node_len t0 = (t1, None).
Proof.
  intros Hp. split; [apply (populate_used_again node_len t t1 Hp)|].
  intros t0 He. apply (populate_used_from_structure node_len t t0 t1 Hp He).
Qed.

Lemma populate_used_recomputes_witness :
  populate_used 4 example_trie = (example_accounted, None) /\
  populate_used 4 example_accounted = (example_accounted, None).
Proof.
  assert (H : populate_used 4 example_trie = (example_accounted, None))
    by (vm_compute; reflexivity).
  split; [exact H|].
  apply (proj1 (populate_used_recomputes 4 example_trie example_accounted H)).
Defined.

(** X12.  After a list of distinct identifiers is inserted and accounted,
    [used] of the root is the number of identifiers. *)
Theorem used_counts_identifiers (ids : list string) (node_len : Z) (t t' : DigitTree) :
  from_list ids = (t, None) -> NoDup ids -> populate_used node_len t = (t', None) ->
  used t' = Z.of_nat (List.length ids).
Proof.
  intros Hb Hnd Hp.
  destruct (from_list_accounted ids node_len t t' Hb Hp) as (_ & _ & -> & Hd & _).
  rewrite account_used.
  pose proof (add_nodes_nterm ids (new_tree "") eq_refl eq_refl Hd Hnd) as H.
  fold (from_list ids) in H. rewrite Hb in H. simpl fst in H. rewrite H; [reflexivity|].
  intros s _. unfold new_tree. rewrite found_eq_leaf.
  destruct ("" =? s)%str; reflexivity.
Qed.

Lemma used_counts_identifiers_witness :
  from_list example_ids = (example_trie, None) /\ NoDup example_ids /\
  populate_used 4 example_trie = (example_accounted, None) /\
  used example_accounted = Z.of_nat (List.length example_ids).
Proof.
  assert (H1 : from_list example_ids = (example_trie, None)) by (vm_compute; reflexivity).
  assert (H2 : NoDup example_ids).
  { unfold example_ids. repeat constructor; simpl; intuition discriminate. }
  assert (H3 : populate_used 4 example_trie = (example_accounted, None))
    by (vm_compute; reflexivity).
  split; [exact H1|]. split; [exact H2|]. split; [exact H3|].
  apply (used_counts_identifiers example_ids 4 example_trie example_accounted H1 H2 H3).
Defined.

(** ** The values of digit strings *)

Lemma val_acc_app (s1 s2 : string) : forall acc, val_acc acc (s1 ++ s2) = val_acc (val_acc acc s1) s2.
Proof. induction s1 as [|c s1 IH]; intros acc; simpl; auto. Qed.

Lemma val_zeros (n : nat) (s : string) : val (zeros n ++ s) = val s.
Proof. unfold val. induction n as [|n IH]; simpl; [reflexivity | exact IH]. Qed.

Lemma val_str_digits (fuel : nat) :
  forall n, 0 <= n < 10 ^ Z.of_nat fuel -> val (str_digits fuel n) = n.
Proof.
  induction fuel as [|fuel IH]; intros n Hn.
  - change (10 ^ Z.of_nat 0) with 1 in Hn. assert (n = 0) by lia. subst. reflexivity.
  - simpl str_digits. destruct (n <? 10) eqn:E.
    + apply Z.ltb_lt in E. destruct (str_digit n) as [_ H]; [lia|].
      unfold val. cbn [val_acc]. rewrite H. lia.
    + apply Z.ltb_ge in E. unfold val. rewrite val_acc_app. fold (val (str_digits fuel (n / 10))).
      rewrite IH.
      * cbn [val_acc]. destruct (str_digit (n mod 10)) as [_ H].
        { pose proof (Z.mod_pos_bound n 10). lia. }
        rewrite H. pose proof (Z.div_mod n 10). lia.
      * split; [apply Z.div_pos; lia|]. apply Z.div_lt_upper_bound; [lia|].
        rewrite Nat2Z.inj_succ, Z.pow_succ_r in Hn by lia. lia.
Qed.

Lemma val_str (n : Z) : 0 <= n -> val (str n) = n.
Proof.
  intros Hn. unfold str. replace (n <? 0) with false by (symmetry; apply Z.ltb_ge; lia).
  apply val_str_digits. split; [assumption|].
  destruct (Z.eq_dec n 0) as [-> | Hne]; [reflexivity|].
  rewrite Nat2Z.inj_succ, Z2Nat.id by apply Z.log2_nonneg.
  destruct (Z.log2_spec n) as [_ H]; [lia|].
  apply (Z.lt_le_trans _ _ _ H). apply Z.pow_le_mono_l.
  pose proof (Z.log2_nonneg n). lia.
Qed.

Lemma val_format_zero (width i : Z) : 0 <= i -> val (format_zero width i) = i.
Proof. intros Hi. unfold format_zero. rewrite val_zeros. apply val_str. assumption. Qed.

(** ** No value is yielded twice *)

Lemma range_NoDup (c : Z) : NoDup (range c).
Proof.
  unfold range. apply NoDup_map_NoDup_ForallPairs; [|apply seq_NoDup].
  intros x y _ _ H. lia.
Qed.

Lemma block_NoDup (p : string) (cv : number) (digit : Z) : NoDup (fst (block p cv digit)).
Proof.
  destruct cv as [c|e]; simpl; [|constructor].
  destruct (c =? 1); simpl; [repeat constructor; simpl; tauto|].
  apply NoDup_map_NoDup_ForallPairs; [|apply range_NoDup].
  intros x y Hx Hy H. apply range_In in Hx, Hy.
  apply sapp_inv_head in H. apply sapp_inv_head in H.
  apply (f_equal val) in H. rewrite !val_format_zero in H by lia. exact H.
Qed.

(** The digit a string has right after the prefix [p]. *)
Lemma digit_after (p : string) (k : Z) (w : string) :
  0 <= k <= 9 ->
  match sget (slength p) (p ++ str k ++ w) with
  | Some ch => int_of_char ch
  | None => None
  end = Some k.
Proof.
  intros Hk. destruct (child_step p k w Hk) as (ch & -> & Hch & _).
  rewrite get_app. exact Hch.
Qed.

Lemma NoDup_gen_concat (tag : string -> option Z) (g : Z -> gen) (l : list Z) :
  NoDup l ->
  (forall k, In k l -> NoDup (fst (g k))) ->
  (forall k v, In k l -> In v (fst (g k)) -> tag v = Some k) ->
  NoDup (fst (gen_concat (map g l))).
Proof.
  induction 1 as [|x l Hx Hnd IH]; intros H1 H2; simpl; [constructor|].
  unfold gen_app. destruct (snd (g x)); [apply H1; simpl; auto|]. simpl.
  apply NoDup_app.
  - apply H1. simpl. auto.
  - apply IH; intros; [apply H1 | apply H2]; simpl; auto.
  - intros v Hv Hv'. apply gen_concat_In in Hv'. destruct Hv' as [g' [Hg' Hv']].
    apply in_map_iff in Hg'. destruct Hg' as [k [<- Hk]].
    assert (E1 : tag v = Some x) by (apply H2; simpl; auto).
    assert (E2 : tag v = Some k) by (apply H2; simpl; auto).
    rewrite E1 in E2. injection E2 as ->. contradiction.
Qed.

Lemma rec_availabe_NoDup (t : DigitTree) : wfb t = true -> NoDup (fst (_rec_availabe t)).
Proof.
  induction t as [cs p tm u cv IH] using DigitTree_ind. intros Hw.
  rewrite rec_availabe_eq. destruct cs as [|kc0 cs0]; [constructor|].
  remember (kc0 :: cs0) as cs. clear Heqcs.
  pose proof Hw as Hw'. apply wfb_iff in Hw'. destruct Hw' as [Hnd Hcs].
  rewrite Forall_forall in Hcs, IH.
  set (tag := fun v => match sget (slength p) v with
                       | Some ch => int_of_char ch
                       | None => None
                       end).
  assert (T1 : forall k v, In k (visit_order cs) -> In v (fst (from_child cs k)) ->
                           tag v = Some k).
  { intros k v _ Hv. unfold from_child in Hv.
    destruct (get_child k cs) as [c|] eqn:Eg; [|contradiction].
    apply get_child_In in Eg. destruct (Hcs _ Eg) as (Hk & Hp & Hwc). simpl in Hk, Hp, Hwc.
    destruct (rec_availabe_not_found c Hwc v Hv) as [(c1 & w & ->) _].
    rewrite Hp, sapp_assoc. apply digit_after. assumption. }
  assert (N1 : NoDup (fst (gen_concat (map (from_child cs) (visit_order cs))))).
  { apply (NoDup_gen_concat tag); [| |exact T1].
    - apply (Permutation_NoDup (l := keys cs)); [|assumption].
      symmetry. apply sorted_desc_perm.
    - intros k _. unfold from_child. destruct (get_child k cs) as [c|] eqn:Eg; [|constructor].
      apply get_child_In in Eg. destruct (Hcs _ Eg) as (_ & _ & Hwc). apply (IH _ Eg Hwc). }
  unfold missing_digits.
  match goal with
  | |- context [gen_concat (map ?G (range 10))] => set (g := G)
  end.
  assert (T2 : forall d v, In d (range 10) -> In v (fst (g d)) ->
                           tag v = Some d /\ get_child d cs = None).
  { intros d v Hd Hv. apply range_In in Hd. unfold g in Hv. rewrite has_child_get in Hv.
    destruct (get_child d cs) eqn:Eg; [contradiction|].
    destruct ((p =? "")%str && (d =? 0)); [contradiction|].
    destruct (first_child cs) as [c|]; [|contradiction].
    apply block_In in Hv. destruct Hv as (c0 & w & _ & -> & _).
    split; [apply digit_after; lia | reflexivity]. }
  assert (N2 : NoDup (fst (gen_concat (map g (range 10))))).
  { apply (NoDup_gen_concat tag); [apply range_NoDup | |].
    - intros d _. unfold g. destruct (has_child d cs); [constructor|].
      destruct ((p =? "")%str && (d =? 0)); [constructor|].
      destruct (first_child cs); [apply block_NoDup | constructor].
    - intros d v Hd Hv. apply (T2 d v Hd Hv). }
  unfold gen_app.
  destruct (snd (gen_concat (map (from_child cs) (visit_order cs)))); [exact N1|].
  cbn [fst]. apply NoDup_app; [exact N1 | exact N2 |].
  intros v Hv Hv'.
  apply gen_concat_In in Hv. destruct Hv as [g1 [Hg1 Hv]].
  apply in_map_iff in Hg1. destruct Hg1 as [k [<- Hk]].
  apply gen_concat_In in Hv'. destruct Hv' as [g2 [Hg2 Hv']].
  apply in_map_iff in Hg2. destruct Hg2 as [d [<- Hd]].
  pose proof (T1 k v Hk Hv) as E1. destruct (T2 d v Hd Hv') as [E2 Eg].
  rewrite E1 in E2. injection E2 as ->.
  apply visit_order_In in Hk. apply get_child_None in Eg. contradiction.
Qed.

(** X13.  The enumeration of a well-formed trie never yields a value
    twice. *)
Theorem available_unique (t : DigitTree) :
  wfb t = true -> NoDup (fst (_rec_availabe t)).
Proof. apply rec_availabe_NoDup. Qed.

Lemma available_unique_witness :
  wfb example_accounted = true /\ NoDup (fst (_rec_availabe example_accounted)).
Proof.
  assert (H : wfb example_accounted = true) by (vm_compute; reflexivity).
  split; [exact H|]. apply (available_unique example_accounted H).
Defined.

(** ** Leading zeros *)

Lemma leading_digit (k : Z) (w : string) :
  0 <= k <= 9 -> k <> 0 -> leading_zero (str k ++ w) = false.
Proof.
  intros Hk Hne. apply digit_cases in Hk.
  destruct Hk as [-> | Hk]; [congruence|].
  repeat (destruct Hk as [-> | Hk]; [reflexivity|]). subst. reflexivity.
Qed.

Lemma rec_availabe_no_leading_zero (t : DigitTree) :
  wfb t = true -> prefix t = "" -> has_child 0 (childs t) = false ->
  forall v, In v (fst (_rec_availabe t)) -> leading_zero v = false.
Proof.
  destruct t as [cs p tm u cv]. simpl prefix. simpl childs. intros Hw -> H0 v Hv.
  apply wfb_iff in Hw. destruct Hw as [_ Hcs]. rewrite Forall_forall in Hcs.
  rewrite has_child_get in H0.
  rewrite rec_availabe_eq in Hv. destruct cs as [|kc0 cs0]; [contradiction|].
  remember (kc0 :: cs0) as cs. clear Heqcs.
  apply gen_app_In in Hv. destruct Hv as [Hv | Hv].
  - apply gen_concat_In in Hv. destruct Hv as [g [Hg Hv]].
    apply in_map_iff in Hg. destruct Hg as [k [<- _]]. unfold from_child in Hv.
    destruct (get_child k cs) as [c|] eqn:Eg; [|contradiction].
    assert (Hk0 : k <> 0) by (intros ->; rewrite Eg in H0; discriminate).
    apply get_child_In in Eg. destruct (Hcs _ Eg) as (Hk & Hp & Hwc). simpl in Hk, Hp, Hwc.
    destruct (rec_availabe_not_found c Hwc v Hv) as [(c1 & w & ->) _].
    rewrite Hp. simpl sappend. apply leading_digit; assumption.
  - unfold missing_digits in Hv. apply gen_concat_In in Hv. destruct Hv as [g [Hg Hv]].
    apply in_map_iff in Hg. destruct Hg as [d [<- Hd]]. apply range_In in Hd.
    destruct (has_child d cs); [contradiction|].
    destruct (d =? 0) eqn:Ed; [contradiction|]. apply Z.eqb_neq in Ed.
    simpl in Hv. destruct (first_child cs) as [c|]; [|contradiction].
    apply block_In in Hv. destruct Hv as (c0 & w & _ & -> & _).
    simpl sappend. apply leading_digit; [lia | assumption].
Qed.

(** X14.  When the root of a well-formed trie has no child tree for the
    digit 0, no yielded value begins with 0. *)
Theorem available_no_leading_zero (t : DigitTree) :
  wfb t = true -> prefix t = "" -> has_child 0 (childs t) = false ->
  forall v, In v (fst (_rec_availabe t)) -> leading_zero v = false.
Proof. apply rec_availabe_no_leading_zero. Qed.

Lemma available_no_leading_zero_witness :
  wfb example_accounted = true /\ prefix example_accounted = "" /\
  has_child 0 (childs example_accounted) = false /\
  In "3000" (fst (_rec_availabe example_accounted)) /\
  leading_zero "3000" = false.
Proof.
  assert (H1 : wfb example_accounted = true) by (vm_compute; reflexivity).
  assert (H2 : prefix example_accounted = "") by (vm_compute; reflexivity).
  assert (H3 : has_child 0 (childs example_accounted) = false) by (vm_compute; reflexivity).
  assert (H4 : In "3000" (fst (_rec_availabe example_accounted))).
  { apply In_existsb. vm_compute. reflexivity. }
  split; [exact H1|]. split; [exact H2|]. split; [exact H3|]. split; [exact H4|].
  apply (available_no_leading_zero example_accounted H1 H2 H3 "3000" H4).
Defined.

(** ** Calling available again *)

Lemma account_childs_nonempty (node_len : Z) (t : DigitTree) :
  childs t <> [] -> childs (account node_len t) <> [].
Proof.
  rewrite account_childs. destruct (childs t); [congruence | discriminate].
Qed.

Lemma available_with_childs (seed : option string) (t : DigitTree) :
  childs t <> [] ->
  available seed t =
  (fst (populate_used (len (seed_or_default seed)) t),
   match snd (populate_used (len (seed_or_default seed)) t) with
   | Some e => ([], Some e)
   | None => _rec_availabe (fst (populate_used (len (seed_or_default seed)) t))
   end).
Proof.
  intros Hne. unfold available. cbv zeta.
  destruct (childs t) as [|kc cs]; [congruence|].
  destruct (populate_used (len (seed_or_default seed)) t) as [t2 [e|]]; reflexivity.
Qed.

Lemma available_again (seed : option string) (t t2 : DigitTree) (items : list string) :
  prefix t = "" -> available seed t = (t2, (items, None)) ->
  available seed t2 = (t2, (items, None)).
Proof.
  intros Hp Ha.
  assert (Key : forall t1, childs t1 <> [] ->
                  (let (t2', o2) := populate_used (len (seed_or_default seed)) t1 in
                   match o2 with
                   | Some e => (t2', ([], Some e))
                   | None => (t2', _rec_availabe t2')
                   end) = (t2, (items, None)) ->
                  available seed t2 = (t2, (items, None))).
  { intros t1 Hne H.
    destruct (populate_used (len (seed_or_default seed)) t1) as [t2' [e|]] eqn:E;
      [discriminate|].
    injection H as -> Hr.
    assert (Hne2 : childs t2 <> []).
    { apply populate_used_spec in E. destruct E as [_ ->].
      apply account_childs_nonempty. assumption. }
    rewrite (available_with_childs seed t2 Hne2).
    rewrite (populate_used_again _ t1 t2 E). simpl. rewrite Hr. reflexivity. }
  unfold available in Ha. cbv zeta in Ha.
  destruct (childs t) as [|kc cs] eqn:Ec.
  - rewrite (seed_or_default_nonempty seed) in Ha. simpl negb in Ha. cbv iota in Ha.
    destruct t as [cs0 p tm u cv]. simpl in Hp, Ec. subst cs0 p.
    rewrite add_node_eq in Ha. cbv zeta in Ha.
    destruct (common_prefix "" (seed_or_default seed) =? seed_or_default seed)%str eqn:E0.
    { change (common_prefix "" (seed_or_default seed)) with "" in E0.
      rewrite seqb_sym, (seed_or_default_nonempty seed) in E0. discriminate. }
    destruct (negb (len "" <? len (seed_or_default seed))); [discriminate|].
    destruct (sget _ (seed_or_default seed)) as [ch|]; [|discriminate].
    destruct (int_of_char ch) as [d|]; [|discriminate].
    simpl update_child in Ha.
    destruct (add_fresh _ _ (seed_or_default seed)) as [sub [e|]]; [discriminate|].
    eapply Key; [|exact Ha]. simpl. discriminate.
  - apply (Key t); [rewrite Ec; discriminate | exact Ha].
Qed.

(** X15.  When [available] has run on a root without raising, running it
    again with the same seed yields the same values in the same order and
    leaves the trie as it is. *)
Theorem available_repeatable (seed : option string) (t t2 : DigitTree) (items : list string) :
  prefix t = "" -> available seed t = (t2, (items, None)) ->
  available seed t2 = (t2, (items, None)).
Proof. apply available_again. Qed.

Lemma available_repeatable_witness :
  prefix (new_tree "") = "" /\
  available (Some "17") (new_tree "") =
    (fst (available (Some "17") (new_tree "")),
     (fst (snd (available (Some "17") (new_tree ""))), None)) /\
  available (Some "17") (fst (available (Some "17") (new_tree ""))) =
    (fst (available (Some "17") (new_tree "")),
     (fst (snd (available (Some "17") (new_tree ""))), None)).
Proof.
  assert (H1 : prefix (new_tree "") = "") by reflexivity.
  assert (H2 : available (Some "17") (new_tree "") =
               (fst (available (Some "17") (new_tree "")),
                (fst (snd (available (Some "17") (new_tree ""))), None)))
    by (vm_compute; reflexivity).
  split; [exact H1|]. split; [exact H2|].
  apply (available_repeatable (Some "17") (new_tree "") _ _ H1 H2).
Defined.

(** ** Every free identifier is yielded *)

Lemma pow10_len_String (c : char) (r : string) : 10 ^ len (String c r) = 10 * 10 ^ len r.
Proof.
  rewrite len_String. replace (1 + len r) with (Z.succ (len r)) by lia.
  apply Z.pow_succ_r. apply len_nonneg.
Qed.

Lemma val_acc_spec (s : string) : forall acc, val_acc acc s = acc * 10 ^ len s + val s.
Proof.
  induction s as [|c r IH]; intros acc.
  - simpl. change (len "") with 0. unfold val. simpl. lia.
  - unfold val. cbn [val_acc]. rewrite (IH (10 * acc + _)), (IH (10 * 0 + _)).
    rewrite pow10_len_String. lia.
Qed.

Lemma val_String (c : char) (r : string) (d : Z) :
  int_of_char c = Some d -> val (String c r) = d * 10 ^ len r + val r.
Proof.
  intros Hc. unfold val at 1. cbn [val_acc]. rewrite Hc, val_acc_spec. lia.
Qed.

Lemma val_bound (s : string) : all_digits s = true -> 0 <= val s < 10 ^ len s.
Proof.
  induction s as [|c r IH]; intros Hd.
  - unfold val. simpl. change (len "") with 0. simpl. lia.
  - simpl in Hd. apply andb_true_iff in Hd. destruct Hd as [Hc Hr].
    apply is_digit_true in Hc. destruct Hc as [d [Hc Hs]].
    rewrite (val_String c r d Hc), pow10_len_String.
    apply int_of_char_spec in Hc. rename Hc into Hd9. specialize (IH Hr).
    set (P := 10 ^ len r) in *.
    assert (0 <= d * P) by (apply Z.mul_nonneg_nonneg; lia).
    assert (d * P <= 9 * P) by (apply Z.mul_le_mono_nonneg_r; lia).
    lia.
Qed.

Lemma str_digit_inj (c1 c2 : char) (d : Z) :
  str d = String c1 "" -> str d = String c2 "" -> c1 = c2.
Proof. congruence. Qed.

Lemma val_inj (s1 : string) :
  forall s2, all_digits s1 = true -> all_digits s2 = true ->
             slength s1 = slength s2 -> val s1 = val s2 -> s1 = s2.
Proof.
  induction s1 as [|c1 r1 IH]; intros [|c2 r2] H1 H2 Hl Hv; try discriminate; [reflexivity|].
  simpl in H1, H2, Hl. apply andb_true_iff in H1, H2.
  destruct H1 as [Hc1 Hr1]. destruct H2 as [Hc2 Hr2]. injection Hl as Hl.
  apply is_digit_true in Hc1, Hc2.
  destruct Hc1 as (d1 & Hc1 & Hst1). destruct Hc2 as (d2 & Hc2 & Hst2).
  rewrite (val_String c1 r1 d1 Hc1), (val_String c2 r2 d2 Hc2) in Hv.
  assert (El : len r1 = len r2) by (unfold len; congruence). rewrite El in Hv.
  pose proof (val_bound r1 Hr1) as B1. pose proof (val_bound r2 Hr2) as B2.
  rewrite El in B1.
  apply int_of_char_spec in Hc1 as Hs1. apply int_of_char_spec in Hc2 as Hs2.
  set (P := 10 ^ len r2) in *.
  assert (Ed : d1 = d2).
  { destruct (Z.lt_trichotomy d1 d2) as [Hlt | [E | Hgt]]; [exfalso | exact E | exfalso].
    - assert ((d1 + 1) * P <= d2 * P) by (apply Z.mul_le_mono_nonneg_r; lia). lia.
    - assert ((d2 + 1) * P <= d1 * P) by (apply Z.mul_le_mono_nonneg_r; lia). lia. }
  subst d2.
  assert (Ev : val r1 = val r2) by lia.
  rewrite (str_digit_inj c1 c2 d1 Hst1 Hst2), (IH r2 Hr1 Hr2 Hl Ev). reflexivity.
Qed.


Lemma all_digits_str_digits (fuel : nat) :
  forall n, 0 <= n -> all_digits (str_digits fuel n) = true.
Proof.
  induction fuel as [|fuel IH]; intros n Hn; simpl; [reflexivity|].
  destruct (n <? 10) eqn:E.
  - apply Z.ltb_lt in E. simpl. rewrite is_digit_digit_char by lia. reflexivity.
  - rewrite all_digits_app, IH by (apply Z.div_pos; lia). simpl.
    rewrite is_digit_digit_char; [reflexivity|].
    pose proof (Z.mod_pos_bound n 10). lia.
Qed.

Lemma all_digits_format_zero (width i : Z) : 0 <= i -> all_digits (format_zero width i) = true.
Proof.
  intros Hi. unfold format_zero. rewrite all_digits_app.
  assert (Hz : forall n, all_digits (zeros n) = true) by (induction n; simpl; auto).
  rewrite Hz. unfold str.
  replace (i <? 0) with false by (symmetry; apply Z.ltb_ge; lia).
  apply all_digits_str_digits. assumption.
Qed.

(** Padding the value of a string of digits to its length gives the
    string back. *)
Lemma format_zero_val (r : string) :
  all_digits r = true -> 1 <= len r -> format_zero (len r) (val r) = r.
Proof.
  intros Hd Hl. pose proof (val_bound r Hd) as Hb.
  apply val_inj.
  - apply all_digits_format_zero. lia.
  - assumption.
  - pose proof (len_format_zero (len r) (val r) Hl Hb) as H.
    apply Nat2Z.inj. exact H.
  - apply val_format_zero. lia.
Qed.

Lemma rec_availabe_covers (node_len : Z) (t : DigitTree) :
  wfb t = true -> full node_len t = true ->
  forall rest, all_digits rest = true -> len (prefix t) + len rest = node_len ->
               found t (prefix t ++ rest) = false ->
               (prefix t = "" -> leading_zero rest = false) ->
               In (prefix t ++ rest) (fst (_rec_availabe (account node_len t))).
Proof.
  induction t as [cs p tm u cv IH] using DigitTree_ind. intros Hw Hf rest Hd Hl Hnf Hz.
  destruct (rec_availabe_count node_len _ Hw Hf) as [Hok _].
  pose proof Hw as Hw'. apply wfb_iff in Hw'. destruct Hw' as [Hnd Hcs].
  apply full_iff in Hf. simpl prefix in *. rewrite found_eq in Hnf.
  destruct Hf as [(-> & -> & Hlen) | (Hne & -> & Hlen & Hfc)].
  - assert (rest = "").
    { destruct rest; [reflexivity|]. rewrite len_String in Hl.
      pose proof (len_nonneg rest). lia. }
    subst rest. rewrite sapp_nil_r, seqb_refl in Hnf. discriminate.
  - destruct rest as [|c r]; [change (len "") with 0 in Hl; lia|].
    rewrite len_String in Hl.
    destruct (step_facts p c r) as (_ & Ep & _ & Eg). rewrite Ep, Eg in Hnf.
    simpl in Hd. apply andb_true_iff in Hd. destruct Hd as [Hc Hr].
    pose proof Hc as Hic.
    apply is_digit_true in Hc. destruct Hc as [d [Hc Hs]]. rewrite Hc in Hnf.
    pose proof (int_of_char_spec c d Hc) as Hd9. pose proof Hs as Hstr.
    simpl account in *.
    set (cs' := map (fun kc => (fst kc, account node_len (snd kc))) cs) in *.
    assert (Hne' : cs' <> []) by (unfold cs'; destruct cs; [congruence | discriminate]).
    rewrite rec_availabe_eq_ne in * by assumption.
    apply gen_app_None in Hok. destruct Hok as (Hok1 & Hok2 & ->).
    apply in_or_app. rewrite Forall_forall in IH, Hcs, Hfc.
    destruct (get_child d cs) as [child|] eqn:Egc.
    + left. rewrite (gen_concat_None _ Hok1). apply in_concat.
      exists (fst (from_child cs' d)). split.
      * apply in_map. apply in_map. apply visit_order_In.
        unfold cs'. rewrite account_keys. apply get_child_In in Egc.
        change d with (fst (d, child)). apply in_map. assumption.
      * unfold from_child, cs'. rewrite account_get_child, Egc. simpl option_map.
        apply get_child_In in Egc. destruct (Hcs _ Egc) as (_ & Hp & Hwc).
        simpl in Hp, Hwc. rewrite (next_prefix p c r d Hs), <- Hp.
        apply (IH _ Egc Hwc (Hfc _ Egc)); cbn [snd]; auto.
        -- rewrite Hp, len_app, (len_str_digit d Hd9). lia.
        -- rewrite Hp, <- (next_prefix p c r d Hs). assumption.
        -- rewrite Hp. intros E. pose proof (prefix_child_nonempty p d Hd9) as N.
           rewrite E in N. discriminate.
    + right. destruct (first_child_Some cs' Hne') as (k0 & c0' & Hfst & Hin0).
      apply account_child_In in Hin0. destruct Hin0 as (c0 & Hin0 & ->).
      assert (Hcov : covers (account node_len c0) = Int (10 ^ len r)).
      { destruct (Hcs _ Hin0) as (Hk & Hp & _). simpl in Hk, Hp.
        rewrite account_covers, Hp, len_app, (len_str_digit k0 Hk). unfold pow10.
        pose proof (len_nonneg r).
        replace (0 <=? node_len - (len p + 1)) with true by (symmetry; apply Z.leb_le; lia).
        do 2 f_equal. lia. }
      unfold missing_digits in *. rewrite Hfst in *. rewrite (gen_concat_None _ Hok2).
      apply in_concat. eexists. split.
      * apply in_map. apply in_map. apply (proj2 (range_In 10 d)). lia.
      * cbv beta. rewrite has_child_get. unfold cs'. rewrite account_get_child, Egc.
        simpl option_map. cbv iota.
        assert (Esk : (p =? "")%str && (d =? 0) = false).
        { destruct (seqb_spec p "") as [-> | _]; [|reflexivity]. simpl.
          rewrite Z.eqb_sym. apply (leading_zero_digit c r d (Hz eq_refl) Hic Hc). }
        rewrite Esk, Hcov. unfold block.
        destruct (10 ^ len r =? 1) eqn:E1.
        -- apply Z.eqb_eq in E1. apply pow10_eq_1 in E1; [|apply len_nonneg].
           assert (r = "") by (destruct r; [reflexivity | rewrite len_String in E1;
                                           pose proof (len_nonneg r); lia]).
           subst r. simpl. left. rewrite Hstr. reflexivity.
        -- apply Z.eqb_neq in E1. rewrite pow10_eq_1 in E1 by apply len_nonneg.
           pose proof (len_nonneg r) as Hr0.
           cbn [fst]. apply in_map_iff. exists (val r). split.
           ++ rewrite len_str_pow10 by assumption.
              replace (len r + 1 - 1) with (len r) by lia.
              rewrite format_zero_val by (assumption || lia).
              rewrite Hstr. reflexivity.
           ++ apply range_In. apply val_bound. assumption.
Qed.

(** X16.  Every identifier of the accounted length that is a string of
    digits, does not begin with 0 and was not inserted is yielded. *)
Theorem available_covers (ids : list string) (node_len : Z) (t t' : DigitTree) (v : string) :
  from_list ids = (t, None) -> populate_used node_len t = (t', None) -> ids <> [] ->
  all_digits v = true -> len v = node_len -> leading_zero v = false -> ~ In v ids ->
  In v (fst (_rec_availabe t')).
Proof.
  intros Hb Hp Hne Hd Hl Hz Hnin.
  destruct (from_list_accounted ids node_len t t' Hb Hp)
    as (Hw & Hpre & -> & _ & Hf & _ & [[-> _] | [_ Hfull]]); [congruence|].
  pose proof (rec_availabe_covers node_len t Hw Hfull v Hd) as H.
  rewrite Hpre in H. simpl sappend in H. apply H.
  - change (len "") with 0. lia.
  - rewrite Hf. destruct (existsb (seqb v) ids) eqn:E; [|reflexivity].
    apply In_existsb in E. contradiction.
  - intros _. assumption.
Qed.

Lemma available_covers_witness :
  from_list example_ids = (example_trie, None) /\
  populate_used 4 example_trie = (example_accounted, None) /\ example_ids <> [] /\
  all_digits "9999" = true /\ len "9999" = 4 /\ leading_zero "9999" = false /\
  ~ In "9999" example_ids /\
  In "9999" (fst (_rec_availabe example_accounted)).
Proof.
  assert (H1 : from_list example_ids = (example_trie, None)) by (vm_compute; reflexivity).
  assert (H2 : populate_used 4 example_trie = (example_accounted, None))
    by (vm_compute; reflexivity).
  assert (H3 : example_ids <> []) by discriminate.
  assert (H4 : all_digits "9999" = true) by (vm_compute; reflexivity).
  assert (H5 : len "9999" = 4) by (vm_compute; reflexivity).
  assert (H6 : leading_zero "9999" = false) by (vm_compute; reflexivity).
  assert (H7 : ~ In "9999" example_ids).
  { intros H. apply In_existsb in H. vm_compute in H. discriminate. }
  repeat (split; [assumption|]).
  apply (available_covers example_ids 4 example_trie example_accounted "9999"
                          H1 H2 H3 H4 H5 H6 H7).
Defined.

(** ** traverse *)

Lemma find_sub_list (F : DigitTree -> list DigitTree) (k : Z) (cs : list (Z * DigitTree)) :
  match find (fun kl => fst kl =? k) (map (fun kc => (fst kc, F (snd kc))) cs) with
  | Some kl => snd kl
  | None => []
  end =
  match get_child k cs with
  | Some c => F c
  | None => []
  end.
Proof.
  induction cs as [|[k0 c0] cs IH]; simpl; [reflexivity|].
  destruct (k0 =? k); auto.
Qed.

Lemma traverse_eq (pred : option (DigitTree -> bool)) (cs : list (Z * DigitTree)) (p : string)
      (tm : bool) (u : Z) (cv : number) :
  traverse pred (mkDigitTree cs p tm u cv) =
  ((if pred_or_true pred (mkDigitTree cs p tm u cv) then [mkDigitTree cs p tm u cv] else [])
   ++ List.concat (map (child_nodes (pred_or_true pred) cs) (sorted_asc (keys cs))))%list.
Proof.
  cbn [traverse]. f_equal. f_equal. apply map_ext. intros k. unfold child_nodes.
  apply (find_sub_list (fun c => filter (pred_or_true pred) (traverse None c)) k cs).
Qed.

Lemma filter_true (A : Type) (l : list A) : filter (fun _ => true) l = l.
Proof. induction l; simpl; congruence. Qed.

Lemma filter_concat (A : Type) (f : A -> bool) (ls : list (list A)) :
  filter f (List.concat ls) = List.concat (map (filter f) ls).
Proof. induction ls; simpl; [|rewrite filter_app]; congruence. Qed.

Lemma traverse_None_eq (cs : list (Z * DigitTree)) (p : string) (tm : bool) (u : Z)
      (cv : number) :
  traverse None (mkDigitTree cs p tm u cv) =
  mkDigitTree cs p tm u cv
  :: List.concat (map (fun k => match get_child k cs with
                                | Some c => traverse None c
                                | None => []
                                end) (sorted_asc (keys cs))).
Proof.
  rewrite traverse_eq. simpl. f_equal. f_equal. apply map_ext. intros k.
  unfold child_nodes. destruct (get_child k cs); [apply filter_true | reflexivity].
Qed.

(** X17.  [traverse(pred=f)] yields the nodes that [traverse()] yields and
    that satisfy [f], in the same order: the predicate filters, it prunes
    no subtree. *)
Theorem traverse_filter (pred : option (DigitTree -> bool)) (t : DigitTree) :
  traverse pred t = filter (pred_or_true pred) (traverse None t).
Proof.
  destruct t as [cs p tm u cv]. rewrite traverse_eq, traverse_None_eq.
  cbn [filter]. rewrite filter_concat, map_map.
  assert (E : map (child_nodes (pred_or_true pred) cs) (sorted_asc (keys cs)) =
              map (fun k => filter (pred_or_true pred)
                                   match get_child k cs with
                                   | Some c => traverse None c
                                   | None => []
                                   end) (sorted_asc (keys cs))).
  { apply map_ext. intros k. unfold child_nodes. destruct (get_child k cs); reflexivity. }
  rewrite E. destruct (pred_or_true pred (mkDigitTree cs p tm u cv)); reflexivity.
Qed.

Lemma insert_asc_perm (x : Z) (l : list Z) : Permutation (insert_asc x l) (x :: l).
Proof.
  induction l as [|y l IH]; simpl; [reflexivity|].
  destruct (y <? x); [|reflexivity]. rewrite IH. apply perm_swap.
Qed.

Lemma sorted_asc_perm (l : list Z) : Permutation (sorted_asc l) l.
Proof.
  induction l as [|x l IH]; simpl; [reflexivity|].
  rewrite insert_asc_perm. constructor. assumption.
Qed.

Lemma Permutation_flat_map_pointwise (A B : Type) (f g : A -> list B) (l : list A) :
  (forall x, In x l -> Permutation (f x) (g x)) ->
  Permutation (flat_map f l) (flat_map g l).
Proof.
  induction l as [|x l IH]; intros H; simpl; [reflexivity|].
  apply Permutation_app; [apply H; simpl; auto | apply IH; intros; apply H; simpl; auto].
Qed.

Lemma traverse_nodes_perm (t : DigitTree) :
  wfb t = true -> Permutation (traverse None t) (nodes t).
Proof.
  induction t as [cs p tm u cv IH] using DigitTree_ind. intros Hw.
  apply wfb_iff in Hw. destruct Hw as [Hnd Hcs]. rewrite Forall_forall in IH, Hcs.
  rewrite traverse_None_eq. simpl nodes. constructor.
  rewrite <- flat_map_concat_map.
  rewrite (Permutation_flat_map _ (sorted_asc_perm (keys cs))).
  unfold keys. rewrite flat_map_concat_map, map_map, <- flat_map_concat_map.
  apply Permutation_flat_map_pointwise. intros [k c] Hin. simpl fst. simpl snd.
  rewrite (get_child_unique k cs c Hnd Hin).
  destruct (Hcs _ Hin) as (_ & _ & Hwc). apply (IH _ Hin Hwc).
Qed.

(** X18.  [traverse()] yields every node of a well-formed tree exactly
    once, the tree itself first. *)
Theorem traverse_all_nodes (t : DigitTree) :
  wfb t = true ->
  Permutation (traverse None t) (nodes t) /\ hd_error (traverse None t) = Some t.
Proof.
  intros Hw. split; [apply traverse_nodes_perm; assumption|].
  destruct t. rewrite traverse_None_eq. reflexivity.
Qed.

Lemma traverse_all_nodes_witness :
  wfb example_trie = true /\
  Permutation (traverse None example_trie) (nodes example_trie) /\
  hd_error (traverse None example_trie) = Some example_trie.
Proof.
  assert (H : wfb example_trie = true) by (vm_compute; reflexivity).
  split; [exact H|]. apply (traverse_all_nodes example_trie H).
Defined.

Lemma char_compare_refl (a : char) : N.compare a a = Eq.
Proof. unfold N.compare. apply N.compare_refl. Qed.

Lemma ltb_app (p : string) (c : char) (w : string) :
  sltb p (p ++ String c w) = true.
Proof.
  unfold sltb. induction p as [|a p IH]; simpl; [reflexivity|].
  rewrite char_compare_refl. exact IH.
Qed.

Lemma ltb_app_digit (p : string) (d1 d2 : Z) (w1 w2 : string) :
  0 <= d1 -> d1 < d2 -> d2 <= 9 ->
  sltb (p ++ str d1 ++ w1) (p ++ str d2 ++ w2) = true.
Proof.
  intros H1 H2 H3.
  assert (E : N.compare (digit_char d1) (digit_char d2) = Lt).
  { assert (C1 : 0 <= d1 <= 9) by lia. assert (C2 : 0 <= d2 <= 9) by lia.
    apply digit_cases in C1, C2.
    repeat (destruct C1 as [-> | C1]);
      repeat (destruct C2 as [-> | C2]); try lia; try subst; try lia; reflexivity. }
  destruct (str_digit d1) as [-> _]; [lia|]. destruct (str_digit d2) as [-> _]; [lia|].
  unfold sltb. induction p as [|a p IH]; simpl.
  - rewrite E. reflexivity.
  - rewrite char_compare_refl. exact IH.
Qed.

Lemma insert_asc_sorted (x : Z) (l : list Z) :
  ~ In x l -> StronglySorted Z.lt l -> StronglySorted Z.lt (insert_asc x l).
Proof.
  intros Hx Hs. induction Hs as [|y l Hs IH Hy]; simpl; [repeat constructor|].
  destruct (y <? x) eqn:E.
  - apply Z.ltb_lt in E. constructor; [apply IH; simpl in Hx; tauto|].
    apply (Permutation_Forall (x := x :: l)).
    + symmetry. apply insert_asc_perm.
    + constructor; assumption.
  - apply Z.ltb_ge in E. assert (x < y) by (simpl in Hx; lia).
    constructor; [constructor; assumption|]. constructor; [assumption|].
    rewrite Forall_forall in *. intros z Hz. specialize (Hy z Hz). lia.
Qed.

Lemma sorted_asc_sorted (l : list Z) : NoDup l -> StronglySorted Z.lt (sorted_asc l).
Proof.
  induction 1 as [|x l Hx Hnd IH]; simpl; [constructor|].
  apply insert_asc_sorted; [|assumption].
  intros H. apply Hx. apply (Permutation_in _ (sorted_asc_perm l) H).
Qed.

Lemma StronglySorted_app (A : Type) (R : A -> A -> Prop) (l1 l2 : list A) :
  StronglySorted R l1 -> StronglySorted R l2 ->
  (forall x y, In x l1 -> In y l2 -> R x y) -> StronglySorted R (l1 ++ l2).
Proof.
  induction 1 as [|a l1 Hs IH Ha]; intros H2 H; simpl; [assumption|].
  constructor.
  - apply IH; [assumption|]. intros x y Hx Hy. apply H; simpl; auto.
  - apply Forall_app. split; [assumption|].
    apply Forall_forall. intros y Hy. apply H; simpl; auto.
Qed.

Lemma StronglySorted_concat (A : Type) (R : A -> A -> Prop) (F : Z -> list A) (ks : list Z) :
  StronglySorted Z.lt ks ->
  (forall k, In k ks -> StronglySorted R (F k)) ->
  (forall k1 k2 x y, In k1 ks -> In k2 ks -> k1 < k2 -> In x (F k1) -> In y (F k2) -> R x y) ->
  StronglySorted R (List.concat (map F ks)).
Proof.
  induction 1 as [|k ks Hs IH Hk]; intros H1 H2; simpl; [constructor|].
  apply StronglySorted_app.
  - apply H1. simpl. auto.
  - apply IH; [intros k0 Hk0; apply H1; simpl; auto|].
    intros k1 k2 x y Hk1 Hk2 Hlt Hx Hy. apply (H2 k1 k2 x y); simpl; auto.
  - intros x y Hx Hy. apply in_concat in Hy. destruct Hy as [l [Hl Hy]].
    apply in_map_iff in Hl. destruct Hl as [k2 [<- Hk2]].
    rewrite Forall_forall in Hk. apply (H2 k k2); simpl; auto.
Qed.

Lemma traverse_sorted (t : DigitTree) :
  wfb t = true -> StronglySorted prefix_lt (traverse None t).
Proof.
  induction t as [cs p tm u cv IH] using DigitTree_ind. intros Hw.
  apply wfb_iff in Hw. destruct Hw as [Hnd Hcs]. rewrite Forall_forall in IH, Hcs.
  rewrite traverse_None_eq.
  assert (Hmem : forall k n, In n match get_child k cs with
                                  | Some c => traverse None c
                                  | None => []
                                  end ->
                             0 <= k <= 9 /\ exists w, prefix n = p ++ str k ++ w).
  { intros k n Hn. destruct (get_child k cs) as [c|] eqn:Eg; [|contradiction].
    apply get_child_In in Eg. destruct (Hcs _ Eg) as (Hk & Hp & Hwc). simpl in Hk, Hp, Hwc.
    split; [assumption|].
    apply (Permutation_in _ (traverse_nodes_perm c Hwc)) in Hn.
    destruct (nodes_extends c n Hwc Hn) as [w Ew]. exists w.
    rewrite Ew, Hp, sapp_assoc. reflexivity. }
  constructor.
  - apply StronglySorted_concat.
    + apply sorted_asc_sorted. assumption.
    + intros k _. destruct (get_child k cs) as [c|] eqn:Eg; [|constructor].
      apply get_child_In in Eg. destruct (Hcs _ Eg) as (_ & _ & Hwc). apply (IH _ Eg Hwc).
    + intros k1 k2 x y _ _ Hlt Hx Hy.
      destruct (Hmem k1 x Hx) as [Hk1 [w1 E1]]. destruct (Hmem k2 y Hy) as [Hk2 [w2 E2]].
      unfold prefix_lt. rewrite E1, E2. apply ltb_app_digit; lia.
  - apply Forall_forall. intros n Hn. apply in_concat in Hn. destruct Hn as [l [Hl Hn]].
    apply in_map_iff in Hl. destruct Hl as [k [<- _]].
    destruct (Hmem k n Hn) as [Hk [w E]]. unfold prefix_lt. simpl prefix. rewrite E.
    destruct (child_step p k w Hk) as (ch & -> & _). apply ltb_app.
Qed.

(** X19.  [traverse()] yields the nodes of a well-formed tree by strictly
    ascending prefix. *)
Theorem traverse_ascending (t : DigitTree) :
  wfb t = true -> StronglySorted prefix_lt (traverse None t).
Proof. apply traverse_sorted. Qed.

Lemma traverse_ascending_witness :
  wfb example_trie = true /\ StronglySorted prefix_lt (traverse None example_trie).
Proof.
  assert (H : wfb example_trie = true) by (vm_compute; reflexivity).
  split; [exact H|]. apply (traverse_ascending example_trie H).
Defined.

Lemma nodes_found (t : DigitTree) (n : DigitTree) :
  wfb t = true -> In n (nodes t) -> terminal n = true -> found t (prefix n) = true.
Proof.
  induction t as [cs p tm u cv IH] using DigitTree_ind. intros Hw Hn Ht.
  simpl in Hn. destruct Hn as [<- | Hn].
  - simpl in *. rewrite found_eq, seqb_refl. assumption.
  - apply in_flat_map in Hn. destruct Hn as [[k c] [Hin Hn]]. simpl in Hn.
    apply wfb_iff in Hw. destruct Hw as [Hnd Hcs]. rewrite Forall_forall in IH, Hcs.
    destruct (Hcs _ Hin) as (Hk & Hp & Hwc). simpl in Hk, Hp, Hwc.
    destruct (nodes_extends c n Hwc Hn) as [w Ew].
    pose proof (IH _ Hin Hwc Hn Ht) as Hf. simpl snd in Hf.
    destruct (child_step p k w Hk) as (ch & _ & Hch & E).
    rewrite Ew, Hp, E in *. rewrite found_eq.
    destruct (step_facts p ch w) as (_ & -> & _ & ->).
    rewrite Hch, (get_child_unique k cs c Hnd Hin). assumption.
Qed.

Lemma StronglySorted_filter (A : Type) (R : A -> A -> Prop) (f : A -> bool) (l : list A) :
  StronglySorted R l -> StronglySorted R (filter f l).
Proof.
  induction 1 as [|a l Hs IH Ha]; simpl; [constructor|].
  destruct (f a); [|assumption]. constructor; [assumption|].
  rewrite Forall_forall in *. intros x Hx. apply filter_In in Hx. apply Ha. tauto.
Qed.

Lemma StronglySorted_map_prefix (l : list DigitTree) :
  StronglySorted prefix_lt l ->
  StronglySorted (fun a b => sltb a b = true) (map prefix l).
Proof.
  induction 1 as [|a l Hs IH Ha]; simpl; [constructor|].
  constructor; [assumption|]. rewrite Forall_forall in *. intros x Hx.
  apply in_map_iff in Hx. destruct Hx as [n [<- Hn]]. apply Ha. assumption.
Qed.

Lemma terminal_prefixes_found (t : DigitTree) (s : string) :
  wfb t = true -> In s (terminal_prefixes t) <-> found t s = true.
Proof.
  intros Hw. unfold terminal_prefixes. rewrite in_map_iff. split.
  - intros [n [<- Hn]]. apply filter_In in Hn. destruct Hn as [Hn Ht].
    apply (Permutation_in _ (traverse_nodes_perm t Hw)) in Hn.
    apply nodes_found; assumption.
  - intros Hf. apply found_nodes in Hf. destruct Hf as (n & Hn & Ht & Hp).
    exists n. split; [assumption|]. apply filter_In. split; [|assumption].
    apply (Permutation_in _ (Permutation_sym (traverse_nodes_perm t Hw)) Hn).
Qed.

(** X20.  For a trie that [from_list] built, the prefixes of the terminal
    nodes in the order of [traverse()] are the inserted identifiers, each
    once, by strictly ascending string order. *)
Theorem terminal_prefixes_sorted_ids (ids : list string) (t : DigitTree) :
  from_list ids = (t, None) ->
  StronglySorted (fun a b => sltb a b = true) (terminal_prefixes t) /\
  forall s, In s (terminal_prefixes t) <-> In s ids.
Proof.
  intros Hb.
  assert (Hw : wfb t = true).
  { pose proof (from_list_wf ids) as H. rewrite Hb in H. exact H. }
  split.
  - apply StronglySorted_map_prefix, StronglySorted_filter, traverse_sorted. assumption.
  - intros s. rewrite (terminal_prefixes_found t s Hw).
    assert (Hd : Forall (fun x => all_digits x = true) ids).
    { apply (add_nodes_digits ids (new_tree "") eq_refl eq_refl).
      fold (from_list ids). rewrite Hb. reflexivity. }
    pose proof (add_nodes_found ids (new_tree "") s eq_refl eq_refl Hd) as H.
    fold (from_list ids) in H. rewrite Hb in H. simpl fst in H. rewrite H.
    unfold new_tree. rewrite found_eq_leaf.
    replace (if ("" =? s)%str then false else false) with false
      by (destruct ("" =? s)%str; reflexivity).
    rewrite orb_false_r. symmetry. apply In_existsb.
Qed.

Lemma terminal_prefixes_sorted_ids_witness :
  from_list ["3002"; "4124"; "3001"] = (fst (from_list ["3002"; "4124"; "3001"]), None) /\
  terminal_prefixes (fst (from_list ["3002"; "4124"; "3001"])) = ["3001"; "3002"; "4124"] /\
  StronglySorted (fun a b => sltb a b = true)
                 (terminal_prefixes (fst (from_list ["3002"; "4124"; "3001"]))).
Proof.
  assert (H : from_list ["3002"; "4124"; "3001"] =
              (fst (from_list ["3002"; "4124"; "3001"]), None)) by (vm_compute; reflexivity).
  split; [exact H|]. split; [vm_compute; reflexivity|].
  apply (proj1 (terminal_prefixes_sorted_ids _ _ H)).
Defined.

(** ** empty, and the exceptions of available *)

(** X21.  After a string of digits is inserted at the root of a
    well-formed trie, [empty] holds only if it held before and the string
    is the empty string: a trie that holds nothing but the identifier of
    length 0 still is [empty]. *)
Theorem empty_after_add_node (t : DigitTree) (node : string) :
  wfb t = true -> prefix t = "" -> all_digits node = true ->
  empty (fst (add_node t node)) = empty t && (node =? "")%str.
Proof.
  intros Hw Hp Hd. destruct t as [cs p tm u cv]. simpl in Hp. subst p.
  destruct (add_node_step cs "" tm u cv node Hw Hd)
    as [[-> E1] | (c & r & d & -> & Hc & Hr & E &
                   [[Hg E1] | (l1 & ch & l2 & -> & Hn & Hp & Hwc & E1)])];
    simpl sappend in E1; rewrite E1; unfold empty; simpl.
  - destruct cs; reflexivity.
  - destruct cs; simpl; rewrite ?andb_false_r; reflexivity.
  - destruct l1; reflexivity.
Qed.

Lemma empty_after_add_node_witness :
  wfb (new_tree "") = true /\ prefix (new_tree "") = "" /\ all_digits "" = true /\
  empty (fst (add_node (new_tree "") "")) = empty (new_tree "") && ("" =? "")%str.
Proof.
  assert (H1 : wfb (new_tree "") = true) by reflexivity.
  assert (H2 : prefix (new_tree "") = "") by reflexivity.
  assert (H3 : all_digits "" = true) by reflexivity.
  split; [exact H1|]. split; [exact H2|]. split; [exact H3|].
  apply (empty_after_add_node (new_tree "") "" H1 H2 H3).
Defined.

Lemma add_nodes_app (l1 l2 : list string) :
  forall t, add_nodes t (l1 ++ l2) =
            match snd (add_nodes t l1) with
            | Some e => add_nodes t l1
            | None => add_nodes (fst (add_nodes t l1)) l2
            end.
Proof.
  induction l1 as [|s l1 IH]; intros t; simpl; [reflexivity|].
  destruct (add_node t s) as [t1 [e|]]; simpl; [reflexivity | apply IH].
Qed.

Lemma available_raises_before_yield (ids : list string) (t : DigitTree)
      (seed : option string) (e : exn) :
  from_list ids = (t, None) -> snd (snd (available seed t)) = Some e ->
  fst (snd (available seed t)) = [] /\ (e = ValueError \/ e = AssertionError).
Proof.
  intros Hb.
  assert (Hw : wfb t = true).
  { pose proof (from_list_wf ids) as H. rewrite Hb in H. exact H. }
  assert (Hp : prefix t = "").
  { pose proof (add_nodes_prefix ids (new_tree "")) as H. fold (from_list ids) in H.
    rewrite Hb in H. exact H. }
  assert (Key : forall ids1 t1,
             from_list ids1 = (t1, None) ->
             snd (snd (let (t2, o2) := populate_used (len (seed_or_default seed)) t1 in
                       match o2 with
                       | Some e0 => (t2, ([], Some e0))
                       | None => (t2, _rec_availabe t2)
                       end)) = Some e ->
             fst (snd (let (t2, o2) := populate_used (len (seed_or_default seed)) t1 in
                       match o2 with
                       | Some e0 => (t2, ([], Some e0))
                       | None => (t2, _rec_availabe t2)
                       end)) = [] /\ (e = ValueError \/ e = AssertionError)).
  { intros ids1 t1 Hb1.
    pose proof (populate_used_outcome (len (seed_or_default seed)) t1) as Ho.
    destruct (populate_used (len (seed_or_default seed)) t1) as [t2 [e0|]] eqn:E;
      cbn [fst snd] in *.
    - destruct Ho as [Ho | Ho]; [discriminate|]. injection Ho as ->.
      intros H. injection H as <-. auto.
    - destruct (from_list_rec_availabe_ok ids1 _ t1 t2 Hb1 E) as [_ Hok].
      intros H. pose proof (eq_trans (eq_sym Hok) H) as F. discriminate F. }
  unfold available. cbv zeta.
  destruct (childs t) as [|kc cs] eqn:Ec.
  - rewrite (seed_or_default_nonempty seed). simpl negb. cbv iota.
    destruct (all_digits (seed_or_default seed)) eqn:Hd.
    + pose proof (add_node_ok t (seed_or_default seed) Hw Hd) as Ho.
      rewrite Hp in Ho. simpl sappend in Ho.
      destruct (add_node t (seed_or_default seed)) as [t1 o1] eqn:Ea. simpl in Ho. subst o1.
      apply (Key (ids ++ [seed_or_default seed])%list t1).
      unfold from_list in *. rewrite add_nodes_app, Hb. simpl. rewrite Ea. reflexivity.
    + pose proof (add_node_malformed t (seed_or_default seed) Hw Hd) as Ho.
      rewrite Hp in Ho. simpl sappend in Ho.
      destruct (add_node t (seed_or_default seed)) as [t1 o1] eqn:Ea. simpl in Ho.
      destruct Ho as [-> | ->]; simpl; intros H; injection H as <-; auto.
  - apply (Key ids t Hb).
Qed.

(** X22.  On a trie that [from_list] built, an exception of [available]
    is raised before any value is yielded, and it is the error of [int] on
    the seed or an assertion: that of the insertion of the seed or that of
    the accounting pass. *)
Theorem available_raises_early (ids : list string) (t : DigitTree)
        (seed : option string) (e : exn) :
  from_list ids = (t, None) -> snd (snd (available seed t)) = Some e ->
  fst (snd (available seed t)) = [] /\ (e = ValueError \/ e = AssertionError).
Proof. apply available_raises_before_yield. Qed.

Lemma available_raises_early_witness :
  from_list example_ids = (example_trie, None) /\
  snd (snd (available (Some "170") example_trie)) = Some AssertionError /\
  fst (snd (available (Some "170") example_trie)) = [] /\
  (AssertionError = ValueError \/ AssertionError = AssertionError).
Proof.
  assert (H1 : from_list example_ids = (example_trie, None)) by (vm_compute; reflexivity).
  assert (H2 : snd (snd (available (Some "170") example_trie)) = Some AssertionError)
    by (vm_compute; reflexivity).
  split; [exact H1|]. split; [exact H2|].
  apply (available_raises_early example_ids example_trie (Some "170") AssertionError H1 H2).
Defined.
